(** * Azure VMSS list target plugin: multi-shard scaling coordinator

    A shallow embedding of [plugin.go] (TargetPlugin.Scale, TargetPlugin.Status,
    calculateScaleDirection, processInstanceView) and of the AzureController
    executors (getRemoteIds, scaleOut, scaleIn), followed by the properties
    of the scaling coordinator. *)

From Stdlib Require Import ZArith Lia Ascii String DecimalString DecimalZ.
From stdpp Require Import gmap strings list fin_maps relations.

Local Open Scope Z_scope.

(** ** Go's [int64] *)

Module Int64.

Definition min_int64 : Z := - 2 ^ 63.
Definition max_int64 : Z := 2 ^ 63 - 1.

Definition in_range (z : Z) : Prop := min_int64 <= z <= max_int64.

(** Two's complement wrap-around of an unbounded result. *)
Definition wrap (z : Z) : Z := (z + 2 ^ 63) mod 2 ^ 64 - 2 ^ 63.

Definition add (a b : Z) : Z := wrap (a + b).
Definition sub (a b : Z) : Z := wrap (a - b).

(** [a / b] and [a % b] truncate toward zero and panic on a zero divisor
    ("integer divide by zero"), which is [None] here. *)
Definition quot (a b : Z) : option Z :=
  if b =? 0 then None else Some (wrap (Z.quot a b)).
Definition rem (a b : Z) : option Z :=
  if b =? 0 then None else Some (wrap (Z.rem a b)).

End Int64.

(** ** Delta planner *)

(** [calculateScaleDirection] (plugin.go): the number handed to the
    per-shard split and the direction, ["in"], ["out"] or [""]. *)
Definition calculateScaleDirection (vmssDesired strategyDesired : Z) : Z * string :=
  if strategyDesired <? vmssDesired then
    (Int64.sub vmssDesired strategyDesired, "in"%string)
  else if strategyDesired >? vmssDesired then
    (strategyDesired, "out"%string)
  else (0, ""%string).

(** One iteration of the scale-out loop of [Scale] on its locals:
    [count := modulo; if reminder > 0 { count++; reminder-- }].
    Returns [count] and the new [reminder]. *)
Definition splitStep (modulo reminder : Z) : Z * Z :=
  if 0 <? reminder then (Int64.add modulo 1, Int64.sub reminder 1)
  else (modulo, reminder).

(** The values taken by [count] over the iterations of the scale-out
    loop, one per element of [vmScaleSetList], in input order. *)
Fixpoint perShardCounts (modulo reminder : Z) (vmScaleSetList : list string) : list Z :=
  match vmScaleSetList with
  | [] => []
  | _ :: rest =>
      let '(count, reminder') := splitStep modulo reminder in
      count :: perShardCounts modulo reminder' rest
  end.

Definition sumZ (l : list Z) : Z := foldr Z.add 0 l.

(** When the [int64] arithmetic of the split loop is exact: the remainder
    is a non-negative [int64] and [modulo + 1] does not overflow if it is
    ever computed. *)
Definition splitOk (modulo reminder : Z) : Prop :=
  0 <= reminder /\ Int64.in_range reminder /\
  (0 < reminder -> Int64.in_range (modulo + 1)).

(** Ceiling of [m / n] for [n > 0], to state the split. *)
Definition ceilDiv (m n : Z) : Z := - ((- m) / n).

(** ** Go strings

    A Go [string] is a sequence of bytes, here [string] (a list of 8-bit
    [ascii]). Only the separators the plugin uses occur: [","] and ["_"],
    both one byte long, so the separator is an [ascii]. *)

Definition error : Type := string.

(** [strings.Split(s, sep)]: the fields between the separators; always at
    least one field. *)
Fixpoint Split (s : string) (sep : ascii) : list string :=
  match s with
  | EmptyString => [EmptyString]
  | String c rest =>
      if Ascii.eqb c sep then EmptyString :: Split rest sep
      else match Split rest sep with
           | [] => [String c EmptyString]
           | field :: fields => String c field :: fields
           end
  end.

(** [strings.LastIndex(s, sep)]: byte index of the last [sep], or [-1]. *)
Fixpoint LastIndex (s : string) (sep : ascii) : Z :=
  match s with
  | EmptyString => -1
  | String c rest =>
      let i := LastIndex rest sep in
      if i =? -1 then (if Ascii.eqb c sep then 0 else -1) else i + 1
  end.

(** [s[0:n]] and [s[n:]] for [0 <= n <= len(s)]. *)
Fixpoint sliceTo (s : string) (n : nat) : string :=
  match n, s with
  | S n', String c rest => String c (sliceTo rest n')
  | _, _ => EmptyString
  end.

Fixpoint sliceFrom (s : string) (n : nat) : string :=
  match n, s with
  | S n', String _ rest => sliceFrom rest n'
  | _, _ => s
  end.

(** [strings.HasPrefix(s, prefix)]. *)
Definition HasPrefix (s prefix : string) : bool := String.prefix prefix s.

(** [strconv.FormatInt(i, 10)]. *)
Definition FormatInt (i : Z) : string := NilZero.string_of_int (Z.to_int i).

(** The results of [strconv.ParseUint]: a value, or one of its two
    errors, [ErrSyntax] and [ErrRange]. *)
Inductive NumResult :=
| NumOk (n : Z)
| NumSyntax
| NumRange.

(** The value of a decimal digit byte. *)
Definition digitOf (c : ascii) : option Z :=
  let b := Z.of_N (N_of_ascii c) in
  if (48 <=? b) && (b <=? 57) then Some (b - 48) else None.

(** The loop of [strconv.ParseUint(s, 10, 64)] over the bytes of [s],
    with its accumulator [n]: a byte that is no digit is a syntax error;
    the range error is returned at the first digit that overflows
    [uint64], whatever follows. *)
Fixpoint parseUintLoop (s : string) (n : Z) : NumResult :=
  match s with
  | EmptyString => NumOk n
  | String c rest =>
      match digitOf c with
      | None => NumSyntax
      | Some d =>
          if n >=? (2 ^ 64 - 1) / 10 + 1 then NumRange
          else if n * 10 + d >? 2 ^ 64 - 1 then NumRange
          else parseUintLoop rest (n * 10 + d)
      end
  end.

(** [strconv.ParseUint(s, 10, 64)]; the empty string is a syntax error. *)
Definition ParseUint (s : string) : NumResult :=
  match s with
  | EmptyString => NumSyntax
  | _ => parseUintLoop s 0
  end.

(** [strconv.ParseInt(s, 10, 64)] with the error dropped, as both callers
    do ([v, _ := strconv.ParseInt(...)]): [0] on a syntax error, the
    nearest bound on a range error. *)
Definition ParseInt (s : string) : Z :=
  let '(neg, digits) :=
    match s with
    | String "+" rest => (false, rest)
    | String "-" rest => (true, rest)
    | _ => (false, s)
    end in
  match ParseUint digits with
  | NumSyntax => 0
  | NumRange => if neg then Int64.min_int64 else Int64.max_int64
  | NumOk un =>
      if neg then (if un >? 2 ^ 63 then Int64.min_int64 else - un)
      else (if un >=? 2 ^ 63 then Int64.max_int64 else un)
  end.

(** ** Data exchanged with the collaborators *)

(** [compute.InstanceViewStatus]: the status code and, when populated,
    [Time.UnixNano()]. *)
Record InstanceViewStatus := {
  Code : string;
  Time : option Z
}.

(** A scale-set VM as [getRemoteIds] reads it: [InstanceID] and
    [InstanceView.Statuses]. *)
Record VirtualMachineScaleSetVM := {
  InstanceID : string;
  vmStatuses : list InstanceViewStatus
}.

(** [compute.VirtualMachineScaleSetInstanceView] as [processInstanceView]
    reads it: the codes of [VirtualMachine.StatusesSummary] and [Statuses]. *)
Record VirtualMachineScaleSetInstanceView := {
  StatusesSummary : list string;
  Statuses : list InstanceViewStatus
}.

(** [scaleutils.NodeResourceID]. *)
Record NodeResourceID := {
  NomadNodeID : string;
  RemoteResourceID : string
}.

(** [sdk.TargetStatus]. *)
Record TargetStatus := {
  Ready : bool;
  Count : Z;
  Meta : gmap string string
}.

(** The mutating request one shard executor issues: [vmss.Update] with a
    new capacity ([scaleOut]) or [vmss.DeleteInstances] ([scaleIn]). *)
Inductive Request :=
| ReqUpdate (resourceGroup vmScaleSet : string) (count : Z)
| ReqDeleteInstances (resourceGroup vmScaleSet : string) (instanceIDs : list string).

(** A page of [vmssVMs.List] with the error of the
    [pager.NextWithContext] call that follows it ([None]: no error). *)
Definition Page : Type := list VirtualMachineScaleSetVM * option error.

(** The collaborators of the plugin, outside this repository: the SDK's
    constants, [strings.EqualFold], the Azure clients and the Nomad
    cluster utilities. A call either fails with an error or yields the
    part of the response the plugin reads ([inl] is the response, [inr]
    the error). *)
Record World := {
  StrategyActionMetaValueDryRunCount : Z;
  TargetStatusMetaKeyLastEvent : string;
  EqualFold : string -> string -> bool;
  (** [ptr.PtrToInt64(vmss.Sku.Capacity)] of [vmss.Get] *)
  vmss_Get : string -> string -> Z + error;
  vmss_GetInstanceView : string -> string -> VirtualMachineScaleSetInstanceView + error;
  vmssVMs_List : string -> string -> list Page + error;
  vmss_Update : string -> string -> Z -> option error;
  vmss_DeleteInstances : string -> string -> list string -> option error;
  WaitForCompletionRef : Request -> option error;
  RunPreScaleInTasksWithRemoteCheck :
    gmap string string -> list string -> Z -> list NodeResourceID + error;
  RunPostScaleInTasks : gmap string string -> list NodeResourceID -> option error;
  IsPoolReady : gmap string string -> bool + error
}.

Definition configKeyResourceGroupList : string := "resource_group_list".
Definition configKeyVMSSList : string := "vm_scale_set_list".

(** ** Observable events

    The calls to the collaborators in the order they are made, the
    dispatch ([go]) and the end (deferred [wg.Done]) of every shard
    executor, and the executors' error logs. Debug and info logs are not
    recorded. *)
Inductive Event :=
| EvGet (resourceGroup vmScaleSet : string)
| EvGetInstanceView (resourceGroup vmScaleSet : string)
| EvIsPoolReady
| EvList (resourceGroup vmScaleSet : string)
| EvPreScaleIn (remoteIDs : list string) (num : Z)
| EvPostScaleIn (ids : list NodeResourceID)
| EvGo (idx : nat) (req : Request)
| EvRequest (idx : nat) (req : Request)
| EvWait (idx : nat) (req : Request)
| EvLogError (idx : nat) (msg : string) (err : error)
| EvDone (idx : nat).

(** How a call of the plugin ends: it returns ([None] is the [nil]
    error) or it panics at run time. *)
Inductive Outcome :=
| Returned (err : option error)
| Panicked.

(** ** Sequential code: a trace-and-abort monad

    A computation extends the trace and either continues with a value or
    ends the enclosing call with an [Outcome]. *)
Definition Run (A : Type) : Type := list Event -> list Event * (A + Outcome).

Definition ret {A} (a : A) : Run A := fun tr => (tr, inl a).

Definition bind {A B} (m : Run A) (k : A -> Run B) : Run B :=
  fun tr =>
    match m tr with
    | (tr', inl a) => k a tr'
    | (tr', inr o) => (tr', inr o)
    end.

Definition emit (e : Event) : Run unit := fun tr => (tr ++ [e], inl tt).

Definition stop {A} (o : Outcome) : Run A := fun tr => (tr, inr o).

(** [return fmt.Errorf(...)] *)
Definition fail {A} (err : error) : Run A := stop (Returned (Some err)).

Notation "'do' x <- m ; k" := (bind m (fun x => k))
  (at level 10, x name, m at level 100, k at level 200, only parsing).
Notation "'do' ' p <- m ; k" := (bind m (fun x => let 'p := x in k))
  (at level 10, p pattern, m at level 100, k at level 200, only parsing).
Notation "'do' '_' <- m ; k" := (bind m (fun _ => k))
  (at level 10, m at level 100, k at level 200, only parsing).

(** [l[idx]], which panics out of range. *)
Definition index (l : list string) (idx : nat) : Run string :=
  match l !! idx with
  | Some x => ret x
  | None => stop Panicked
  end.

(** ** AzureController *)

(** [fmt.Sprintf("%s_%s", vmScaleSet, *vm.InstanceID)] *)
Definition formatRemoteID (vmScaleSet instanceID : string) : string :=
  vmScaleSet +:+ "_" +:+ instanceID.

(** The loop of [getRemoteIds] over the statuses of one VM: the first
    status whose code starts with ["PowerState/"] decides ([break]). *)
Fixpoint powerStateLoop (vmScaleSet instanceID : string)
    (statuses : list InstanceViewStatus) (remoteIDs : list string) : list string :=
  match statuses with
  | [] => remoteIDs
  | s :: rest =>
      if HasPrefix (Code s) "PowerState/" then
        if String.eqb (Code s) "PowerState/running"
        then remoteIDs ++ [formatRemoteID vmScaleSet instanceID]
        else remoteIDs
      else powerStateLoop vmScaleSet instanceID rest remoteIDs
  end.

(** The loop over [pager.Values()]. *)
Definition valuesLoop (vmScaleSet : string) (values : list VirtualMachineScaleSetVM)
    (remoteIDs : list string) : list string :=
  foldl (fun acc vm => powerStateLoop vmScaleSet (InstanceID vm) (vmStatuses vm) acc)
        remoteIDs values.

(** The loop [for pager.NotDone()]. *)
Fixpoint pagerLoop (vmScaleSet : string) (pages : list Page)
    (remoteIDs : list string) : list string + error :=
  match pages with
  | [] => inl remoteIDs
  | (values, next) :: rest =>
      let remoteIDs' := valuesLoop vmScaleSet values remoteIDs in
      match next with
      | Some err => inr ("failed to list instances in VMSS: " +:+ err)%string
      | None => pagerLoop vmScaleSet rest remoteIDs'
      end
  end.

Definition getRemoteIds (w : World) (resourceGroup vmScaleSet : string)
    (remoteIDs : list string) : Run (list string + error) :=
  do _ <- emit (EvList resourceGroup vmScaleSet);
  match vmssVMs_List w resourceGroup vmScaleSet with
  | inr err => ret (inr ("failed to query VMSS instances: " +:+ err)%string)
  | inl pages => ret (pagerLoop vmScaleSet pages remoteIDs)
  end.

(** *** Shard executors: [scaleOut] and [scaleIn]

    Both have the same shape: issue the request; on success wait for the
    future; log an error of either; [defer wg.Done()]. They return
    nothing. An executor runs concurrently with its siblings and with the
    dispatch loop, so it is a three-stage machine that a scheduler steps. *)

Inductive Stage := StRequest | StWait | StDefer.

Record Goroutine := {
  g_idx : nat;
  g_req : Request;
  g_stage : Stage
}.

Definition issue (w : World) (req : Request) : option error :=
  match req with
  | ReqUpdate resourceGroup vmScaleSet count =>
      vmss_Update w resourceGroup vmScaleSet count
  | ReqDeleteInstances resourceGroup vmScaleSet instanceIDs =>
      vmss_DeleteInstances w resourceGroup vmScaleSet instanceIDs
  end.

Definition requestErrorMsg (req : Request) : string :=
  match req with
  | ReqUpdate _ _ _ => "failed to get the vmss update response: %v"
  | ReqDeleteInstances _ _ _ => "failed to scale in Azure ScaleSet: %v"
  end.

Definition waitErrorMsg (req : Request) : string :=
  match req with
  | ReqUpdate _ _ _ => "cannot get the vmss update future response: %v"
  | ReqDeleteInstances _ _ _ => "failed to scale in Azure ScaleSet: %v"
  end.

(** One step of an executor: the events it adds and what is left of it
    ([None] once [wg.Done] has run). *)
Definition executorStep (w : World) (g : Goroutine) : list Event * option Goroutine :=
  let idx := g_idx g in
  let req := g_req g in
  match g_stage g with
  | StRequest =>
      match issue w req with
      | Some err =>
          ([EvRequest idx req; EvLogError idx (requestErrorMsg req) err],
           Some {| g_idx := idx; g_req := req; g_stage := StDefer |})
      | None =>
          ([EvRequest idx req],
           Some {| g_idx := idx; g_req := req; g_stage := StWait |})
      end
  | StWait =>
      match WaitForCompletionRef w req with
      | Some err =>
          ([EvWait idx req; EvLogError idx (waitErrorMsg req) err],
           Some {| g_idx := idx; g_req := req; g_stage := StDefer |})
      | None =>
          ([EvWait idx req],
           Some {| g_idx := idx; g_req := req; g_stage := StDefer |})
      end
  | StDefer => ([EvDone idx], None)
  end.

(** ** The dispatch loops and the WaitGroup

    What one iteration of a dispatch loop of [Scale] does: start an
    executor ([go ... scaleOut/scaleIn]), call [wg.Done()] itself, or
    panic on [resourceGroupList[idx]]. *)
Inductive MainAction :=
| MGo (idx : nat) (req : Request)
| MDone
| MPanic.

(** The coordinator mid-dispatch: the iterations still to run, the
    executors started and not yet ended, the WaitGroup counter and the
    trace so far. *)
Record Pool := {
  pending : list MainAction;
  running : list Goroutine;
  wg : Z;
  trace : list Event
}.

(** State after [wg.Add(n)], before the first iteration. *)
Definition initPool (actions : list MainAction) (n : nat) (tr : list Event) : Pool :=
  {| pending := actions; running := []; wg := Z.of_nat n; trace := tr |}.

(** Interleaving semantics: the dispatch loop takes its next iteration,
    or any running executor takes its next step. *)
Inductive step (w : World) : Pool -> Pool -> Prop :=
| step_go idx req rest rs c tr :
    step w {| pending := MGo idx req :: rest; running := rs; wg := c; trace := tr |}
           {| pending := rest;
              running := rs ++ [{| g_idx := idx; g_req := req; g_stage := StRequest |}];
              wg := c; trace := tr ++ [EvGo idx req] |}
| step_done rest rs c tr :
    step w {| pending := MDone :: rest; running := rs; wg := c; trace := tr |}
           {| pending := rest; running := rs; wg := c - 1; trace := tr |}
| step_executor acts r1 g r2 c tr evs g' :
    executorStep w g = (evs, Some g') ->
    step w {| pending := acts; running := r1 ++ g :: r2; wg := c; trace := tr |}
           {| pending := acts; running := r1 ++ g' :: r2; wg := c; trace := tr ++ evs |}
| step_exit acts r1 g r2 c tr evs :
    executorStep w g = (evs, None) ->
    step w {| pending := acts; running := r1 ++ g :: r2; wg := c; trace := tr |}
           {| pending := acts; running := r1 ++ r2; wg := c - 1; trace := tr ++ evs |}.

(** [wg.Wait()] returns: the loop is over and the counter is zero. *)
Definition joined (p : Pool) : Prop := pending p = [] /\ wg p = 0.

(** The dispatch loop is about to panic. *)
Definition panicking (p : Pool) : Prop := exists rest, pending p = MPanic :: rest.

(** The schedule in which every executor runs to its end as soon as it
    is started; it makes the pool executable. *)
Fixpoint runExecutor (w : World) (fuel : nat) (g : Goroutine) : list Event :=
  match fuel with
  | O => []
  | S fuel' =>
      match executorStep w g with
      | (evs, Some g') => evs ++ runExecutor w fuel' g'
      | (evs, None) => evs
      end
  end.

Fixpoint runInOrder (w : World) (actions : list MainAction) (c : Z)
    (tr : list Event) : Pool :=
  match actions with
  | [] => {| pending := []; running := []; wg := c; trace := tr |}
  | MGo idx req :: rest =>
      runInOrder w rest (c - 1)
        (tr ++ EvGo idx req ::
           runExecutor w 3 {| g_idx := idx; g_req := req; g_stage := StRequest |})
  | MDone :: rest => runInOrder w rest (c - 1) tr
  | MPanic :: rest => {| pending := MPanic :: rest; running := []; wg := c; trace := tr |}
  end.

(** ** TargetPlugin.Scale *)

(** The loop that sums the shard capacities ([totalVMSSCapacity]). *)
Fixpoint totalCapacityLoop (w : World) (resourceGroupList : list string) (idx : nat)
    (vmScaleSetList : list string) (totalVMSSCapacity : Z) : Run Z :=
  match vmScaleSetList with
  | [] => ret totalVMSSCapacity
  | vmScaleSet :: rest =>
      do resourceGroup <- index resourceGroupList idx;
      do _ <- emit (EvGet resourceGroup vmScaleSet);
      match vmss_Get w resourceGroup vmScaleSet with
      | inr err => fail ("failed to get Azure vmss: " +:+ err)%string
      | inl capacity =>
          totalCapacityLoop w resourceGroupList (S idx) rest
            (Int64.add totalVMSSCapacity capacity)
      end
  end.

(** The split of [Scale]: [modulo := num / int64(len(vmScaleSetList))],
    [reminder := num % int64(len(vmScaleSetList))], then the counts of the
    scale-out loop. A zero divisor is a run-time panic, not an error
    value. *)
Definition perShardDelta (num : Z) (vmScaleSetList : list string) : list Z + Outcome :=
  let n := Z.of_nat (length vmScaleSetList) in
  match Int64.quot num n, Int64.rem num n with
  | Some modulo, Some reminder => inl (perShardCounts modulo reminder vmScaleSetList)
  | _, _ => inr Panicked
  end.

(** What [Scale] has computed when it reaches [switch direction]. *)
Record Plan := {
  resourceGroupList : list string;
  vmScaleSetList : list string;
  totalVMSSCapacity : Z;
  num : Z;
  direction : string;
  modulo : Z;
  reminder : Z
}.

(** [Scale] up to the [switch]: dry-run check, the two configuration
    lists, the capacity queries, the direction and the split. *)
Definition planScale (w : World) (count : Z) (config : gmap string string) : Run Plan :=
  if count =? StrategyActionMetaValueDryRunCount w then stop (Returned None) else
  match config !! configKeyResourceGroupList with
  | None =>
      fail ("required config param " +:+ configKeyResourceGroupList +:+ " not found")%string
  | Some resourceGroupListStr =>
      let resourceGroupList := Split resourceGroupListStr "," in
      match config !! configKeyVMSSList with
      | None =>
          fail ("required config param " +:+ configKeyVMSSList +:+ " not found")%string
      | Some vmScaleSetListStr =>
          let vmScaleSetList := Split vmScaleSetListStr "," in
          do totalVMSSCapacity <- totalCapacityLoop w resourceGroupList 0 vmScaleSetList 0;
          let '(num, direction) := calculateScaleDirection totalVMSSCapacity count in
          let n := Z.of_nat (length vmScaleSetList) in
          match Int64.quot num n, Int64.rem num n with
          | Some modulo, Some reminder =>
              ret {| resourceGroupList := resourceGroupList;
                     vmScaleSetList := vmScaleSetList;
                     totalVMSSCapacity := totalVMSSCapacity;
                     num := num; direction := direction;
                     modulo := modulo; reminder := reminder |}
          | _, _ => stop Panicked
          end
      end
  end.

(** The dispatch loop of [case "out"]. [resourceGroupList[idx]] is
    evaluated only when an executor is started. *)
Fixpoint scaleOutLoop (resourceGroupList : list string) (modulo reminder : Z)
    (idx : nat) (vmScaleSetList : list string) : list MainAction :=
  match vmScaleSetList with
  | [] => []
  | vmScaleSet :: rest =>
      let '(count, reminder') := splitStep modulo reminder in
      if 0 <? count then
        match resourceGroupList !! idx with
        | Some resourceGroup =>
            MGo idx (ReqUpdate resourceGroup vmScaleSet count)
              :: scaleOutLoop resourceGroupList modulo reminder' (S idx) rest
        | None => [MPanic]
        end
      else MDone :: scaleOutLoop resourceGroupList modulo reminder' (S idx) rest
  end.

(** The id-collection loop of [case "in"]. *)
Fixpoint collectLoop (w : World) (resourceGroupList : list string) (idx : nat)
    (vmScaleSetList : list string) (remoteIDs : list string) : Run (list string) :=
  match vmScaleSetList with
  | [] => ret remoteIDs
  | vmScaleSet :: rest =>
      do resourceGroup <- index resourceGroupList idx;
      do r <- getRemoteIds w resourceGroup vmScaleSet remoteIDs;
      match r with
      | inr err => fail ("failed to egt remote ids in tasks: " +:+ err)%string
      | inl remoteIDs' => collectLoop w resourceGroupList (S idx) rest remoteIDs'
      end
  end.

(** The inner loop of the correlation: the instance id goes to every
    configured scale set whose name matches the prefix under
    [strings.EqualFold]. A missing map key reads as the empty slice. *)
Fixpoint matchLoop (w : World) (prefix instanceID : string)
    (vmScaleSetList : list string) (instanceIDs : gmap string (list string))
    : gmap string (list string) :=
  match vmScaleSetList with
  | [] => instanceIDs
  | vmScaleSet :: rest =>
      matchLoop w prefix instanceID rest
        (if EqualFold w prefix vmScaleSet
         then <[vmScaleSet := (instanceIDs !!! vmScaleSet) ++ [instanceID]]> instanceIDs
         else instanceIDs)
  end.

(** The correlation loop over the nodes the pre-scale-in tasks returned:
    split each remote id at its last ["_"]. *)
Fixpoint correlate (w : World) (vmScaleSetList : list string)
    (ids : list NodeResourceID) (instanceIDs : gmap string (list string))
    : gmap string (list string) + error :=
  match ids with
  | [] => inl instanceIDs
  | node :: rest =>
      let idx := LastIndex (RemoteResourceID node) "_" in
      if idx =? -1 then inr "failed to get instance-id from remoteId"%string
      else
        correlate w vmScaleSetList rest
          (matchLoop w (sliceTo (RemoteResourceID node) (Z.to_nat idx))
                     (sliceFrom (RemoteResourceID node) (Z.to_nat (idx + 1)))
                     vmScaleSetList instanceIDs)
  end.

(** The dispatch loop of [case "in"]. *)
Fixpoint scaleInLoop (resourceGroupList : list string)
    (instanceIDs : gmap string (list string)) (idx : nat)
    (vmScaleSetList : list string) : list MainAction :=
  match vmScaleSetList with
  | [] => []
  | vmScaleSet :: rest =>
      if (0 <? length (instanceIDs !!! vmScaleSet))%nat then
        match resourceGroupList !! idx with
        | Some resourceGroup =>
            MGo idx (ReqDeleteInstances resourceGroup vmScaleSet (instanceIDs !!! vmScaleSet))
              :: scaleInLoop resourceGroupList instanceIDs (S idx) rest
        | None => [MPanic]
        end
      else MDone :: scaleInLoop resourceGroupList instanceIDs (S idx) rest
  end.

(** [case "in"] up to the dispatch loop: collect the remote ids, run the
    pre-scale-in tasks, correlate. Yields the iterations of the dispatch
    loop and the nodes for the post-scale-in tasks. [int(num)] is [num]
    on the 64-bit platforms the plugin is built for. *)
Definition scaleInPrepare (w : World) (config : gmap string string) (pl : Plan)
    : Run (list MainAction * list NodeResourceID) :=
  do remoteIDs <- collectLoop w (resourceGroupList pl) 0 (vmScaleSetList pl) [];
  do _ <- emit (EvPreScaleIn remoteIDs (num pl));
  match RunPreScaleInTasksWithRemoteCheck w config remoteIDs (num pl) with
  | inr err => fail ("failed to perform pre-scale Nomad scale in tasks: " +:+ err)%string
  | inl ids =>
      match correlate w (vmScaleSetList pl) ids ∅ with
      | inr err => fail err
      | inl instanceIDs =>
          ret (scaleInLoop (resourceGroupList pl) instanceIDs 0 (vmScaleSetList pl), ids)
      end
  end.

(** [case "in"] after [wg.Wait()]. *)
Definition scaleInFinish (w : World) (config : gmap string string)
    (ids : list NodeResourceID) : Run unit :=
  do _ <- emit (EvPostScaleIn ids);
  match RunPostScaleInTasks w config ids with
  | Some err => fail ("failed to perform post-scale Nomad scale in tasks: " +:+ err)%string
  | None => ret tt
  end.

(** Falling off the end of [Scale] is [return nil]. *)
Definition finish {A} (r : list Event * (A + Outcome)) : list Event * Outcome :=
  match r with
  | (tr, inl _) => (tr, Returned None)
  | (tr, inr o) => (tr, o)
  end.

(** A pool run from the state after [wg.Add(n)]. *)
Definition poolRun (w : World) (actions : list MainAction) (n : nat)
    (tr0 : list Event) (p : Pool) : Prop :=
  rtc (step w) (initPool actions n tr0) p.

(** The executions of [case "out"] from trace [tr0]. *)
Inductive ScaleOut_exec (w : World) (pl : Plan) (tr0 : list Event)
    : list Event -> Outcome -> Prop :=
| ScaleOut_joined p :
    poolRun w (scaleOutLoop (resourceGroupList pl) (modulo pl) (reminder pl) 0
                            (vmScaleSetList pl))
            (length (vmScaleSetList pl)) tr0 p ->
    joined p ->
    ScaleOut_exec w pl tr0 (trace p) (Returned None)
| ScaleOut_panicked p :
    poolRun w (scaleOutLoop (resourceGroupList pl) (modulo pl) (reminder pl) 0
                            (vmScaleSetList pl))
            (length (vmScaleSetList pl)) tr0 p ->
    panicking p ->
    ScaleOut_exec w pl tr0 (trace p) Panicked.

(** The executions of [case "in"] from trace [tr0]. *)
Inductive ScaleIn_exec (w : World) (config : gmap string string) (pl : Plan)
    (tr0 : list Event) : list Event -> Outcome -> Prop :=
| ScaleIn_aborted tr o :
    scaleInPrepare w config pl tr0 = (tr, inr o) ->
    ScaleIn_exec w config pl tr0 tr o
| ScaleIn_joined tr1 actions ids p :
    scaleInPrepare w config pl tr0 = (tr1, inl (actions, ids)) ->
    poolRun w actions (length (vmScaleSetList pl)) tr1 p ->
    joined p ->
    ScaleIn_exec w config pl tr0
      (fst (finish (scaleInFinish w config ids (trace p))))
      (snd (finish (scaleInFinish w config ids (trace p))))
| ScaleIn_panicked tr1 actions ids p :
    scaleInPrepare w config pl tr0 = (tr1, inl (actions, ids)) ->
    poolRun w actions (length (vmScaleSetList pl)) tr1 p ->
    panicking p ->
    ScaleIn_exec w config pl tr0 (trace p) Panicked.

(** The executions of [Scale(action, config)] with [action.Count = count]:
    the trace of events and the outcome. *)
Inductive Scale_exec (w : World) (count : Z) (config : gmap string string)
    : list Event -> Outcome -> Prop :=
| Scale_stopped tr o :
    planScale w count config [] = (tr, inr o) ->
    Scale_exec w count config tr o
| Scale_out tr0 pl tr o :
    planScale w count config [] = (tr0, inl pl) ->
    direction pl = "out"%string ->
    ScaleOut_exec w pl tr0 tr o ->
    Scale_exec w count config tr o
| Scale_in tr0 pl tr o :
    planScale w count config [] = (tr0, inl pl) ->
    direction pl = "in"%string ->
    ScaleIn_exec w config pl tr0 tr o ->
    Scale_exec w count config tr o
| Scale_default tr0 pl :
    planScale w count config [] = (tr0, inl pl) ->
    direction pl <> "out"%string ->
    direction pl <> "in"%string ->
    Scale_exec w count config tr0 (Returned None).

(** [Scale] under the run-to-completion schedule, as a function. *)
Definition poolOutcome (p : Pool) : Outcome :=
  match pending p with
  | MPanic :: _ => Panicked
  | _ => Returned None
  end.

Definition ScaleOut_seq (w : World) (pl : Plan) (tr0 : list Event)
    : list Event * Outcome :=
  let p := runInOrder w (scaleOutLoop (resourceGroupList pl) (modulo pl) (reminder pl) 0
                                      (vmScaleSetList pl))
                      (Z.of_nat (length (vmScaleSetList pl))) tr0 in
  (trace p, poolOutcome p).

Definition ScaleIn_seq (w : World) (config : gmap string string) (pl : Plan)
    (tr0 : list Event) : list Event * Outcome :=
  match scaleInPrepare w config pl tr0 with
  | (tr, inr o) => (tr, o)
  | (tr1, inl (actions, ids)) =>
      let p := runInOrder w actions (Z.of_nat (length (vmScaleSetList pl))) tr1 in
      match poolOutcome p with
      | Panicked => (trace p, Panicked)
      | Returned _ => finish (scaleInFinish w config ids (trace p))
      end
  end.

Definition Scale_seq (w : World) (count : Z) (config : gmap string string)
    : list Event * Outcome :=
  match planScale w count config [] with
  | (tr, inr o) => (tr, o)
  | (tr0, inl pl) =>
      if String.eqb (direction pl) "out" then ScaleOut_seq w pl tr0
      else if String.eqb (direction pl) "in" then ScaleIn_seq w config pl tr0
      else (tr0, Returned None)
  end.

(** ** TargetPlugin.Status *)

Definition setReady (b : bool) (status : TargetStatus) : TargetStatus :=
  {| Ready := b; Count := Count status; Meta := Meta status |}.

Definition setMeta (key value : string) (status : TargetStatus) : TargetStatus :=
  {| Ready := Ready status; Count := Count status;
     Meta := <[key := value]> (Meta status) |}.

Definition succeeded : string := "ProvisioningState/succeeded".

(** First loop of [processInstanceView], over
    [VirtualMachine.StatusesSummary]. *)
Fixpoint summaryLoop (codes : list string) (status : TargetStatus) : TargetStatus :=
  match codes with
  | [] => status
  | code :: rest =>
      summaryLoop rest
        (if negb (String.eqb code succeeded) then setReady false status else status)
  end.

(** Second loop of [processInstanceView], over [Statuses], with its local
    [latestTime]. *)
Fixpoint statusesLoop (w : World) (statuses : list InstanceViewStatus)
    (latestTime : Z) (status : TargetStatus) : TargetStatus :=
  match statuses with
  | [] => status
  | instanceStatus :: rest =>
      let status1 :=
        if negb (String.eqb (Code instanceStatus) succeeded)
        then setReady false status else status in
      match Time instanceStatus with
      | Some currentTime =>
          if currentTime >? latestTime then
            statusesLoop w rest currentTime
              (setMeta (TargetStatusMetaKeyLastEvent w) (FormatInt currentTime) status1)
          else statusesLoop w rest latestTime status1
      | None => statusesLoop w rest latestTime status1
      end
  end.

Definition processInstanceView (w : World)
    (instanceView : VirtualMachineScaleSetInstanceView) (status : TargetStatus)
    : TargetStatus :=
  statusesLoop w (Statuses instanceView) Int64.min_int64
    (summaryLoop (StatusesSummary instanceView) status).

(** One shard's contribution to the locals [ready], [totalCapacity] and
    [latestTime] of [Status]. A missing [Meta] key reads as [""]. *)
Definition mergeStatus (w : World) (resp : TargetStatus)
    (acc : bool * Z * Z) : bool * Z * Z :=
  let '(ready, totalCapacity, latestTime) := acc in
  let totalCapacity' := Int64.add totalCapacity (Count resp) in
  let ready' := if ready && negb (Ready resp) then false else ready in
  let lastEvent := Meta resp !!! TargetStatusMetaKeyLastEvent w in
  let latestTime' :=
    if (0 <? String.length lastEvent)%nat then
      let currentTime := ParseInt lastEvent in
      if currentTime >? latestTime then currentTime else latestTime
    else latestTime in
  (ready', totalCapacity', latestTime').

(** The loop of [Status] over the scale sets. *)
Fixpoint statusLoop (w : World) (resourceGroupList : list string) (idx : nat)
    (vmScaleSetList : list string) (acc : bool * Z * Z) : Run (bool * Z * Z) :=
  match vmScaleSetList with
  | [] => ret acc
  | vmScaleSet :: rest =>
      do resourceGroup <- index resourceGroupList idx;
      do _ <- emit (EvGet resourceGroup vmScaleSet);
      match vmss_Get w resourceGroup vmScaleSet with
      | inr err => fail ("failed to get Azure ScaleSet: " +:+ err)%string
      | inl capacity =>
          do _ <- emit (EvGetInstanceView resourceGroup vmScaleSet);
          match vmss_GetInstanceView w resourceGroup vmScaleSet with
          | inr err =>
              fail ("failed to get Azure ScaleSet Instance View: " +:+ err)%string
          | inl instanceView =>
              let resp :=
                processInstanceView w instanceView
                  {| Ready := true; Count := capacity; Meta := ∅ |} in
              statusLoop w resourceGroupList (S idx) rest (mergeStatus w resp acc)
          end
      end
  end.

(** [Status(config)]: the returned status, or [fail] for [(nil, err)]. *)
Definition Status (w : World) (config : gmap string string) : Run TargetStatus :=
  do _ <- emit EvIsPoolReady;
  match IsPoolReady w config with
  | inr err => fail ("failed to run Nomad node readiness check: " +:+ err)%string
  | inl ready =>
      if negb ready then ret {| Ready := ready; Count := 0; Meta := ∅ |} else
      match config !! configKeyResourceGroupList with
      | None =>
          fail ("required config param " +:+ configKeyResourceGroupList +:+ " not found")%string
      | Some resourceGroupListStr =>
          let resourceGroupList := Split resourceGroupListStr "," in
          match config !! configKeyVMSSList with
          | None =>
              fail ("required config param " +:+ configKeyVMSSList +:+ " not found")%string
          | Some vmScaleSetListStr =>
              let vmScaleSetList := Split vmScaleSetListStr "," in
              do '(ready, totalCapacity, latestTime) <-
                statusLoop w resourceGroupList 0 vmScaleSetList
                           (true, 0, Int64.min_int64);
              ret {| Ready := ready; Count := totalCapacity;
                     Meta := {[ TargetStatusMetaKeyLastEvent w := FormatInt latestTime ]} |}
          end
      end
  end.

(** ** Reading a trace *)

Definition isGet (e : Event) : Prop :=
  match e with EvGet _ _ => True | _ => False end.

Definition isList (e : Event) : Prop :=
  match e with EvList _ _ => True | _ => False end.

(** Events of the shard executors and of their dispatch. *)
Definition isExecutorEvent (e : Event) : Prop :=
  match e with
  | EvGo _ _ | EvRequest _ _ | EvWait _ _ | EvLogError _ _ _ | EvDone _ => True
  | _ => False
  end.

(** The mutating requests issued, in the order of the trace. *)
Definition requestsOf (tr : list Event) : list (nat * Request) :=
  omap (fun e => match e with EvRequest idx req => Some (idx, req) | _ => None end) tr.

(** The executors that have ended. *)
Definition donesOf (tr : list Event) : list nat :=
  omap (fun e => match e with EvDone idx => Some idx | _ => None end) tr.

(** The executors a dispatch loop starts. *)
Definition dispatched (actions : list MainAction) : list (nat * Request) :=
  omap (fun a => match a with MGo idx req => Some (idx, req) | _ => None end) actions.

(** An executor has failed: its request or its wait returned an error. *)
Definition executorFails (w : World) (req : Request) : Prop :=
  is_Some (issue w req) \/ is_Some (WaitForCompletionRef w req).

(** ** A concrete world, to run the model

    Three scale sets of capacity 4 with two running instances each; every
    request on scale set ["B"] fails; the pre-scale-in tasks clear the
    first [num] candidates. [EqualFold] folds ASCII letters only. *)

Definition asciiToLower (c : ascii) : ascii :=
  let n := nat_of_ascii c in
  if ((65 <=? n) && (n <=? 90))%nat then ascii_of_nat (n + 32) else c.

Fixpoint asciiEqualFold (s t : string) : bool :=
  match s, t with
  | EmptyString, EmptyString => true
  | String a s', String b t' =>
      Ascii.eqb (asciiToLower a) (asciiToLower b) && asciiEqualFold s' t'
  | _, _ => false
  end.

Definition runningVM (id : string) : VirtualMachineScaleSetVM :=
  {| InstanceID := id;
     vmStatuses := [ {| Code := "ProvisioningState/succeeded"; Time := None |};
                     {| Code := "PowerState/running"; Time := None |} ] |}.

Definition clearFirst (remoteIDs : list string) (num : Z) : list NodeResourceID :=
  map (fun r => {| NomadNodeID := "node"; RemoteResourceID := r |})
      (take (Z.to_nat num) remoteIDs).

Definition demoWorld : World := {|
  StrategyActionMetaValueDryRunCount := -1;
  TargetStatusMetaKeyLastEvent := "nomad_autoscaler.last_event";
  EqualFold := asciiEqualFold;
  vmss_Get := fun _ _ => inl 4;
  vmss_GetInstanceView := fun _ vmScaleSet =>
    inl (if String.eqb vmScaleSet "B"
         then {| StatusesSummary := ["ProvisioningState/updating"%string];
                 Statuses := [ {| Code := succeeded; Time := Some 200 |} ] |}
         else {| StatusesSummary := [succeeded];
                 Statuses := [ {| Code := succeeded; Time := Some 100 |};
                               {| Code := succeeded; Time := None |} ] |});
  vmssVMs_List := fun _ _ => inl [([runningVM "0"; runningVM "1"], None)];
  vmss_Update := fun _ vmScaleSet _ =>
    if String.eqb vmScaleSet "B" then Some "quota exceeded"%string else None;
  vmss_DeleteInstances := fun _ vmScaleSet _ =>
    if String.eqb vmScaleSet "B" then Some "conflict"%string else None;
  WaitForCompletionRef := fun _ => None;
  RunPreScaleInTasksWithRemoteCheck := fun _ remoteIDs num => inl (clearFirst remoteIDs num);
  RunPostScaleInTasks := fun _ _ => None;
  IsPoolReady := fun _ => inl true
|}.

(** The same world with other pre-scale-in tasks. *)
Definition withPreScaleIn (w : World)
    (pre : gmap string string -> list string -> Z -> list NodeResourceID + error) : World :=
  {| StrategyActionMetaValueDryRunCount := StrategyActionMetaValueDryRunCount w;
     TargetStatusMetaKeyLastEvent := TargetStatusMetaKeyLastEvent w;
     EqualFold := EqualFold w;
     vmss_Get := vmss_Get w;
     vmss_GetInstanceView := vmss_GetInstanceView w;
     vmssVMs_List := vmssVMs_List w;
     vmss_Update := vmss_Update w;
     vmss_DeleteInstances := vmss_DeleteInstances w;
     WaitForCompletionRef := WaitForCompletionRef w;
     RunPreScaleInTasksWithRemoteCheck := pre;
     RunPostScaleInTasks := RunPostScaleInTasks w;
     IsPoolReady := IsPoolReady w |}.

Definition demoConfig : gmap string string :=
  {[ configKeyResourceGroupList := "rg,rg,rg"%string;
     configKeyVMSSList := "A,B,C"%string ]}.

(** ** The pool invariant *)

(** Requests of started executors that are still to be issued. *)
Definition unissued (rs : list Goroutine) : list (nat * Request) :=
  omap (fun g => match g_stage g with
                 | StRequest => Some (g_idx g, g_req g)
                 | _ => None
                 end) rs.

(** The error logs in a trace. *)
Definition logsOf (tr : list Event) : list (nat * string * error) :=
  omap (fun e => match e with
                 | EvLogError idx msg err => Some (idx, msg, err)
                 | _ => None
                 end) tr.

(** What the executor of a request logs from start to end: the error of
    the request, else the error of the wait, else nothing. *)
Definition failureLog (w : World) (task : nat * Request) : list (nat * string * error) :=
  match issue w (snd task) with
  | Some err => [(fst task, requestErrorMsg (snd task), err)]
  | None =>
      match WaitForCompletionRef w (snd task) with
      | Some err => [(fst task, waitErrorMsg (snd task), err)]
      | None => []
      end
  end.

(** What a running executor has still to log. *)
Definition logsLeft (w : World) (g : Goroutine) : list (nat * string * error) :=
  match g_stage g with
  | StRequest => failureLog w (g_idx g, g_req g)
  | StWait =>
      match WaitForCompletionRef w (g_req g) with
      | Some err => [(g_idx g, waitErrorMsg (g_req g), err)]
      | None => []
      end
  | StDefer => []
  end.

(** What holds of every pool state reached from [initPool actions n tr0]:
    the trace grows by executor events only; every request of the
    dispatch loop is issued, about to be issued or not yet dispatched,
    exactly one of the three; likewise every executor has ended, is
    running or is not yet dispatched; the iterations left are a suffix of
    the loop; the WaitGroup counter counts the iterations left and the
    running executors; the errors logged so far and those still to be
    logged are those of the failing executors. *)
Definition PoolInv (w : World) (actions : list MainAction) (n : nat)
    (tr0 : list Event) (p : Pool) : Prop :=
  exists evs,
    trace p = tr0 ++ evs /\
    Forall isExecutorEvent evs /\
    requestsOf evs ++ unissued (running p) ++ dispatched (pending p)
      ≡ₚ dispatched actions /\
    donesOf evs ++ map g_idx (running p) ++ (dispatched (pending p)).*1
      ≡ₚ (dispatched actions).*1 /\
    (exists ran, actions = ran ++ pending p) /\
    wg p = Z.of_nat n - Z.of_nat (length actions)
           + Z.of_nat (length (pending p)) + Z.of_nat (length (running p)) /\
    logsOf evs ++ (running p ≫= logsLeft w) ++ (dispatched (pending p) ≫= failureLog w)
      ≡ₚ dispatched actions ≫= failureLog w.

(** The result of [case "in"] once the deletions are joined: that of the
    post-scale-in tasks. *)
Definition postOutcome (w : World) (config : gmap string string)
    (ids : list NodeResourceID) : Outcome :=
  match RunPostScaleInTasks w config ids with
  | Some err =>
      Returned (Some ("failed to perform post-scale Nomad scale in tasks: " +:+ err)%string)
  | None => Returned None
  end.

(** The byte [c] occurs in [s]. *)
Definition contains (s : string) (c : ascii) : Prop := In c (list_ascii_of_string s).

(** Variants of the concrete world and configuration. *)

(** The pre-scale-in tasks return a remote id without separator. *)
Definition malformedWorld : World :=
  withPreScaleIn demoWorld (fun _ _ _ =>
    inl [ {| NomadNodeID := "n1"; RemoteResourceID := "A_0" |};
          {| NomadNodeID := "n2"; RemoteResourceID := "bogus" |} ]).

(** The pre-scale-in tasks return a remote id of an unknown scale set. *)
Definition strangerWorld : World :=
  withPreScaleIn demoWorld (fun _ _ _ =>
    inl [ {| NomadNodeID := "n1"; RemoteResourceID := "A_0" |};
          {| NomadNodeID := "n2"; RemoteResourceID := "other_7" |} ]).

(** Two resource groups for one scale set. *)
Definition longScopeConfig : gmap string string :=
  {[ configKeyResourceGroupList := "rg1,rg2"%string;
     configKeyVMSSList := "A"%string ]}.

(** ** Reading the instance views, to state the aggregation *)

(** Every code of the VM statuses summary and of the instance-view
    statuses is ["ProvisioningState/succeeded"]. *)
Definition viewReady (instanceView : VirtualMachineScaleSetInstanceView) : bool :=
  forallb (fun code => String.eqb code succeeded) (StatusesSummary instanceView)
  && forallb (fun s => String.eqb (Code s) succeeded) (Statuses instanceView).

(** The event times that are populated. *)
Definition knownTimes (instanceView : VirtualMachineScaleSetInstanceView) : list Z :=
  omap Time (Statuses instanceView).

(** The greatest of [init] and the [times]. *)
Definition maxTime (init : Z) (times : list Z) : Z := foldl Z.max init times.

(** The calls [Status] makes for the scale sets, in order. *)
Definition statusCalls (resourceGroupList vmScaleSetList : list string) : list Event :=
  concat (zip_with (fun resourceGroup vmScaleSet =>
                      [EvGet resourceGroup vmScaleSet;
                       EvGetInstanceView resourceGroup vmScaleSet])
                   resourceGroupList vmScaleSetList).

(** One scale set merged into [(ready, totalCapacity, latestTime)], read
    off its capacity and instance view. *)
Definition mergeView (acc : bool * Z * Z)
    (view : Z * VirtualMachineScaleSetInstanceView) : bool * Z * Z :=
  let '(ready, totalCapacity, latestTime) := acc in
  (ready && viewReady (snd view),
   Int64.add totalCapacity (fst view),
   maxTime latestTime (knownTimes (snd view))).

(** * The rest of the plugin *)

(** ** Reading the instance listings and the requests *)

(** The VM counts as running for [getRemoteIds]: its first status whose
    code starts with ["PowerState/"] is ["PowerState/running"]. *)
Definition isRunning (vm : VirtualMachineScaleSetVM) : bool :=
  match List.find (fun s => HasPrefix (Code s) "PowerState/") (vmStatuses vm) with
  | Some s => String.eqb (Code s) "PowerState/running"
  | None => false
  end.

(** The remote ids of the running VMs of the pages, in page order. *)
Definition runningIDs (vmScaleSet : string) (pages : list Page) : list string :=
  map (fun vm => formatRemoteID vmScaleSet (InstanceID vm))
      (List.filter isRunning (pages ≫= fst)).

(** No [pager.NextWithContext] call of the listing fails. *)
Definition pagesOk (pages : list Page) : Prop := Forall (fun page => snd page = None) pages.

(** The capacity an update request asks for. *)
Definition requestCapacity (req : Request) : Z :=
  match req with
  | ReqUpdate _ _ count => count
  | ReqDeleteInstances _ _ _ => 0
  end.

(** A remote id cut at its last ["_"], as the correlation cuts it. *)
Definition decodeRemoteID (remoteID : string) : string * string :=
  (sliceTo remoteID (Z.to_nat (LastIndex remoteID "_")),
   sliceFrom remoteID (Z.to_nat (LastIndex remoteID "_" + 1))).

(** The same world with other capacity queries. *)
Definition withGet (w : World) (get : string -> string -> Z + error) : World :=
  {| StrategyActionMetaValueDryRunCount := StrategyActionMetaValueDryRunCount w;
     TargetStatusMetaKeyLastEvent := TargetStatusMetaKeyLastEvent w;
     EqualFold := EqualFold w;
     vmss_Get := get;
     vmss_GetInstanceView := vmss_GetInstanceView w;
     vmssVMs_List := vmssVMs_List w;
     vmss_Update := vmss_Update w;
     vmss_DeleteInstances := vmss_DeleteInstances w;
     WaitForCompletionRef := WaitForCompletionRef w;
     RunPreScaleInTasksWithRemoteCheck := RunPreScaleInTasksWithRemoteCheck w;
     RunPostScaleInTasks := RunPostScaleInTasks w;
     IsPoolReady := IsPoolReady w |}.

(** The capacity query of scale set ["B"] fails. *)
Definition failingGetWorld : World :=
  withGet demoWorld (fun _ vmScaleSet =>
    if String.eqb vmScaleSet "B" then inr "timeout"%string else inl 4).

(** The same world with other instance listings. *)
Definition withList (w : World) (list : string -> string -> list Page + error) : World :=
  {| StrategyActionMetaValueDryRunCount := StrategyActionMetaValueDryRunCount w;
     TargetStatusMetaKeyLastEvent := TargetStatusMetaKeyLastEvent w;
     EqualFold := EqualFold w;
     vmss_Get := vmss_Get w;
     vmss_GetInstanceView := vmss_GetInstanceView w;
     vmssVMs_List := list;
     vmss_Update := vmss_Update w;
     vmss_DeleteInstances := vmss_DeleteInstances w;
     WaitForCompletionRef := WaitForCompletionRef w;
     RunPreScaleInTasksWithRemoteCheck := RunPreScaleInTasksWithRemoteCheck w;
     RunPostScaleInTasks := RunPostScaleInTasks w;
     IsPoolReady := IsPoolReady w |}.

(** A VM whose first power state is "deallocated", although a later
    status says "running". *)
Definition deallocatedVM (id : string) : VirtualMachineScaleSetVM :=
  {| InstanceID := id;
     vmStatuses := [ {| Code := "ProvisioningState/succeeded"; Time := None |};
                     {| Code := "PowerState/deallocated"; Time := None |};
                     {| Code := "PowerState/running"; Time := None |} ] |}.

(** A VM without power state. *)
Definition statelessVM (id : string) : VirtualMachineScaleSetVM :=
  {| InstanceID := id;
     vmStatuses := [ {| Code := "ProvisioningState/creating"; Time := None |} ] |}.

(** Scale set ["A"] lists two pages, ["B"] fails after its first page,
    any other listing fails at once. *)
Definition listWorld : World :=
  withList demoWorld (fun _ vmScaleSet =>
    if String.eqb vmScaleSet "A" then
      inl [ ([runningVM "0"; deallocatedVM "1"; statelessVM "2"], None);
            ([runningVM "3"], None) ]
    else if String.eqb vmScaleSet "B" then
      inl [ ([runningVM "0"], Some "throttled"%string); ([runningVM "1"], None) ]
    else inr "not found"%string).

(** The remote ids [getRemoteIds] adds for a scale set whose listing
    succeeds. *)
Definition listedIDs (w : World) (resourceGroup vmScaleSet : string) : list string :=
  match vmssVMs_List w resourceGroup vmScaleSet with
  | inl pages => runningIDs vmScaleSet pages
  | inr _ => []
  end.

(** The remote ids collected over all the scale sets, in order. *)
Definition collectedIDs (w : World) (resourceGroupList vmScaleSetList : list string)
    : list string :=
  concat (zip_with (listedIDs w) resourceGroupList vmScaleSetList).

(** The (scale set, instance id) pairs the correlation reads off the
    returned nodes. *)
Definition decodedNodes (ids : list NodeResourceID) : list (string * string) :=
  (fun node => decodeRemoteID (RemoteResourceID node)) <$> ids.

(** The instance ids among [ids] that belong to [vmScaleSet], in order. *)
Definition clearedFor (vmScaleSet : string) (ids : list NodeResourceID) : list string :=
  (filter (fun p => p.1 = vmScaleSet) (decodedNodes ids)).*2.

(** Every scale set lists without error, on every page. *)
Definition listingsOk (w : World) (resourceGroupList vmScaleSetList : list string) : Prop :=
  forall i rg v,
    resourceGroupList !! i = Some rg -> vmScaleSetList !! i = Some v ->
    exists pages, vmssVMs_List w rg v = inl pages /\ pagesOk pages.

(** No listed instance id contains an underscore. *)
Definition instanceIDsPlain (w : World) : Prop :=
  forall rg v pages vm,
    vmssVMs_List w rg v = inl pages -> vm ∈ pages ≫= fst ->
    ~ contains (InstanceID vm) "_".

(** ** The list plugin over one plugin per scale set (second source file)

    [TargetPlugin] holds [azureVMSSTargetPlugins], one target plugin of
    the SDK's built-in Azure VMSS plugin per scale set. Those plugins are
    collaborators: only the results of their [SetConfig], [Scale] and
    [Status] are modelled. Its [Scale] and [Status] run the scale sets
    one after the other and write two keys of the caller's [config] map
    before each call. *)

Definition configKeyVMSSCount : string := "vmss_count".
Definition configKeyResourceGroup : string := "resource_group".
Definition configKeyVMSS : string := "vm_scale_set".

(** A plugin of the list: [Scale] on an action with the given [Count]
    and [Status], as functions of the configuration map they receive. *)
Record SubPlugin := {
  subScale : Z -> gmap string string -> option error;
  subStatus : gmap string string -> TargetStatus + error
}.

(** The calls made to the plugins of the list. *)
Inductive ListEvent :=
| LScale (idx : nat) (count : Z) (config : gmap string string)
| LStatus (idx : nat) (config : gmap string string).

(** [strconv.Atoi(s)] returns an error: [s] is not an optionally signed
    sequence of decimal digits, or its value is out of range. The value
    returned with or without error is [ParseInt s]. *)
Definition AtoiFails (s : string) : bool :=
  let '(neg, digits) :=
    match s with
    | String "+" rest => (false, rest)
    | String "-" rest => (true, rest)
    | _ => (false, s)
    end in
  match ParseUint digits with
  | NumSyntax => true
  | NumRange => true
  | NumOk un => if neg then un >? 2 ^ 63 else un >=? 2 ^ 63
  end.

(** The loop [for i := 0; i < vmssCount; i++] of [SetConfig]: [n]
    iterations left, [newPlugin i] the plugin created at iteration [i]
    and [subSetConfig i config] the result of its [SetConfig]. *)
Fixpoint listSetConfigLoop (newPlugin : nat -> SubPlugin)
    (subSetConfig : nat -> gmap string string -> option error)
    (config : gmap string string) (n i : nat) (plugins : list SubPlugin)
    : list SubPlugin * option error :=
  match n with
  | O => (plugins, None)
  | S n' =>
      match subSetConfig i config with
      | Some err => (plugins, Some err)
      | None =>
          listSetConfigLoop newPlugin subSetConfig config n' (S i)
                            (plugins ++ [newPlugin i])
      end
  end.

(** [SetConfig] of the list plugin: the plugins held afterwards and the
    error returned. The count is rejected when [Atoi] returns no error. *)
Definition ListSetConfig (newPlugin : nat -> SubPlugin)
    (subSetConfig : nat -> gmap string string -> option error)
    (config : gmap string string) (plugins : list SubPlugin)
    : list SubPlugin * option error :=
  match config !! configKeyVMSSCount with
  | None =>
      (plugins, Some ("required config param " +:+ configKeyVMSSCount +:+ " not found")%string)
  | Some vmssCountStr =>
      let vmssCount := ParseInt vmssCountStr in
      if negb (AtoiFails vmssCountStr) then
        (plugins,
         Some ("required config param " +:+ configKeyVMSSCount +:+ " is not a number")%string)
      else listSetConfigLoop newPlugin subSetConfig config (Z.to_nat vmssCount) 0 plugins
  end.

(** [config[configKeyResourceGroup] = resourceGroupList[idx]] then
    [config[configKeyVMSS] = vmScaleSet]. *)
Definition shardConfig (config : gmap string string) (resourceGroup vmScaleSet : string)
    : gmap string string :=
  <[configKeyVMSS := vmScaleSet]> (<[configKeyResourceGroup := resourceGroup]> config).

(** The loop of [Scale] of the list plugin, with its locals [count] and
    [i]; it returns at the first error. The map [config] is the caller's
    and is written in place. *)
Fixpoint listScaleLoop (plugins : list SubPlugin) (resourceGroupList : list string)
    (count i : Z) (idx : nat) (vmScaleSetList : list string)
    (config : gmap string string) (tr : list ListEvent)
    : list ListEvent * gmap string string * Outcome :=
  match vmScaleSetList with
  | [] => (tr, config, Returned None)
  | vmScaleSet :: rest =>
      let '(j, i') := if 0 <? i then (1, Int64.sub i 1) else (0, i) in
      match resourceGroupList !! idx with
      | None => (tr, config, Panicked)
      | Some resourceGroup =>
          let config' := shardConfig config resourceGroup vmScaleSet in
          match plugins !! idx with
          | None => (tr, config', Panicked)
          | Some plugin =>
              let c := Int64.add count j in
              match subScale plugin c config' with
              | Some err => (tr ++ [LScale idx c config'], config', Returned (Some err))
              | None =>
                  listScaleLoop plugins resourceGroupList count i' (S idx) rest config'
                                (tr ++ [LScale idx c config'])
              end
          end
      end
  end.

(** [Scale] of the list plugin: the calls made, the caller's map
    afterwards and the outcome. *)
Definition ListScale (w : World) (plugins : list SubPlugin) (count : Z)
    (config : gmap string string) : list ListEvent * gmap string string * Outcome :=
  if count =? StrategyActionMetaValueDryRunCount w then ([], config, Returned None) else
  match config !! configKeyResourceGroupList with
  | None =>
      ([], config,
       Returned (Some ("required config param " +:+ configKeyResourceGroupList
                         +:+ " not found")%string))
  | Some resourceGroupListStr =>
      match config !! configKeyVMSSList with
      | None =>
          ([], config,
           Returned (Some ("required config param " +:+ configKeyVMSSList
                             +:+ " not found")%string))
      | Some vmScaleSetListStr =>
          let resourceGroupList := Split resourceGroupListStr "," in
          let vmScaleSetList := Split vmScaleSetListStr "," in
          let n := Z.of_nat (length vmScaleSetList) in
          match Int64.quot count n, Int64.rem count n with
          | Some c, Some i =>
              listScaleLoop plugins resourceGroupList c i 0 vmScaleSetList config []
          | _, _ => ([], config, Panicked)
          end
      end
  end.

(** One status merged into [(ready, totalCapacity, latestTime)] by
    [Status] of the list plugin: the last-event entry is parsed whether
    it is there or not (a missing entry reads as [""]). *)
Definition listMerge (w : World) (acc : bool * Z * Z) (status : TargetStatus) : bool * Z * Z :=
  let '(ready, totalCapacity, latestTime) := acc in
  let totalCapacity' := Int64.add totalCapacity (Count status) in
  let ready' := if ready && negb (Ready status) then false else ready in
  let currentTime := ParseInt (Meta status !!! TargetStatusMetaKeyLastEvent w) in
  let latestTime' := if currentTime >? latestTime then currentTime else latestTime in
  (ready', totalCapacity', latestTime').

(** The loop of [Status] of the list plugin. *)
Fixpoint listStatusLoop (w : World) (plugins : list SubPlugin)
    (resourceGroupList : list string) (idx : nat) (vmScaleSetList : list string)
    (acc : bool * Z * Z) (config : gmap string string) (tr : list ListEvent)
    : list ListEvent * gmap string string * (bool * Z * Z + Outcome) :=
  match vmScaleSetList with
  | [] => (tr, config, inl acc)
  | vmScaleSet :: rest =>
      match resourceGroupList !! idx with
      | None => (tr, config, inr Panicked)
      | Some resourceGroup =>
          let config' := shardConfig config resourceGroup vmScaleSet in
          match plugins !! idx with
          | None => (tr, config', inr Panicked)
          | Some plugin =>
              match subStatus plugin config' with
              | inr err => (tr ++ [LStatus idx config'], config', inr (Returned (Some err)))
              | inl status =>
                  listStatusLoop w plugins resourceGroupList (S idx) rest
                                 (listMerge w acc status) config'
                                 (tr ++ [LStatus idx config'])
              end
          end
      end
  end.

(** [Status] of the list plugin. *)
Definition ListStatus (w : World) (plugins : list SubPlugin)
    (config : gmap string string)
    : list ListEvent * gmap string string * (TargetStatus + Outcome) :=
  match config !! configKeyResourceGroupList with
  | None =>
      ([], config,
       inr (Returned (Some ("required config param " +:+ configKeyResourceGroupList
                              +:+ " not found")%string)))
  | Some resourceGroupListStr =>
      match config !! configKeyVMSSList with
      | None =>
          ([], config,
           inr (Returned (Some ("required config param " +:+ configKeyVMSSList
                                  +:+ " not found")%string)))
      | Some vmScaleSetListStr =>
          match listStatusLoop w plugins (Split resourceGroupListStr ",") 0
                               (Split vmScaleSetListStr ",")
                               (true, 0, Int64.min_int64) config [] with
          | (tr, config', inl (ready, totalCapacity, latestTime)) =>
              (tr, config',
               inl {| Ready := ready; Count := totalCapacity;
                      Meta := {[ TargetStatusMetaKeyLastEvent w := FormatInt latestTime ]} |})
          | (tr, config', inr o) => (tr, config', inr o)
          end
      end
  end.

(** The index of the plugin a call went to. *)
Definition listEventIdx (e : ListEvent) : nat :=
  match e with LScale idx _ _ => idx | LStatus idx _ => idx end.

(** The count of a [Scale] call. *)
Definition listEventCount (e : ListEvent) : Z :=
  match e with LScale _ count _ => count | LStatus _ _ => 0 end.

(** The configuration map handed over with a call. *)
Definition listEventConfig (e : ListEvent) : gmap string string :=
  match e with LScale _ _ config => config | LStatus _ config => config end.

(** What [Status] of the list plugin reads as the last event of a
    status. *)
Definition listLastEvent (w : World) (status : TargetStatus) : Z :=
  ParseInt (Meta status !!! TargetStatusMetaKeyLastEvent w).

(** Plugins for the examples: one that accepts everything and one whose
    [Scale] fails. *)
Definition okPlugin : SubPlugin :=
  {| subScale := fun _ _ => None;
     subStatus := fun _ => inl {| Ready := true; Count := 2; Meta := ∅ |} |}.

Definition failingPlugin : SubPlugin :=
  {| subScale := fun _ _ => Some "scale failed"%string;
     subStatus := fun _ => inr "status failed"%string |}.

(** A plugin that reports one known last event and is not ready. *)
Definition datedPlugin : SubPlugin :=
  {| subScale := fun _ _ => None;
     subStatus := fun _ =>
       inl {| Ready := false; Count := 3;
              Meta := {[ "nomad_autoscaler.last_event"%string := "-5"%string ]} |} |}.

(** ** Configuration of the plugin ([SetConfig], [init], [argsOrEnv],
    [azureNodeIDMap]) *)

Definition configKeySubscriptionID : string := "subscription_id".
Definition configKeyTenantID : string := "tenant_id".
Definition configKeyClientID : string := "client_id".
Definition configKeySecretKey : string := "secret_access_key".

(** [argsOrEnv]: the value of [key] in [args] when the key is there,
    else [os.Getenv(env)] (empty when the variable is not set). *)
Definition argsOrEnv (getenv : string -> string) (args : gmap string string)
    (key env : string) : string :=
  match args !! key with
  | Some value => value
  | None => getenv env
  end.

(** How [init] asks for an authorizer:
    [auth.NewClientCredentialsConfig(clientID, secretKey, tenantID)] or
    [auth.NewAuthorizerFromEnvironment()]. *)
Inductive Credentials :=
| ClientCredentials (clientID secretKey tenantID : string)
| EnvironmentCredentials.

(** The two clients of [AzureController], each with the subscription it
    was created for and its authorizer. *)
Record AzureController (Authorizer : Type) := {
  vmss_subscriptionID : string;
  vmss_Authorizer : Authorizer;
  vmssVMs_subscriptionID : string;
  vmssVMs_Authorizer : Authorizer
}.
Arguments vmss_subscriptionID {Authorizer} _.
Arguments vmss_Authorizer {Authorizer} _.
Arguments vmssVMs_subscriptionID {Authorizer} _.
Arguments vmssVMs_Authorizer {Authorizer} _.

(** [AzureController.init]; [authorize] stands for the two constructors
    of the Azure SDK. *)
Definition init {Authorizer : Type} (getenv : string -> string)
    (authorize : Credentials -> Authorizer + error) (config : gmap string string)
    : AzureController Authorizer + error :=
  let tenantID := argsOrEnv getenv config configKeyTenantID "ARM_TENANT_ID" in
  let clientID := argsOrEnv getenv config configKeyClientID "ARM_CLIENT_ID" in
  let subscriptionID := argsOrEnv getenv config configKeySubscriptionID "ARM_SUBSCRIPTION_ID" in
  let secretKey := argsOrEnv getenv config configKeySecretKey "ARM_CLIENT_SECRET" in
  let authorizer :=
    if negb (String.eqb tenantID "") && negb (String.eqb clientID "")
       && negb (String.eqb secretKey "") then
      match authorize (ClientCredentials clientID secretKey tenantID) with
      | inr err => inr ("azure-vmss (ClientCredentials): " +:+ err)%string
      | inl a => inl a
      end
    else
      match authorize EnvironmentCredentials with
      | inr err => inr ("azure-vmss (EnvironmentCredentials): " +:+ err)%string
      | inl a => inl a
      end in
  match authorizer with
  | inr err => inr err
  | inl a =>
      inl {| vmss_subscriptionID := subscriptionID; vmss_Authorizer := a;
             vmssVMs_subscriptionID := subscriptionID; vmssVMs_Authorizer := a |}
  end.

(** [api.Node], the two maps [azureNodeIDMap] reads. *)
Record Node := {
  Attributes : gmap string string;
  NodeMeta : gmap string string
}.

Definition azureNameAttribute : string := "unique.platform.azure.name".

(** The byte [0x22], as [%q] writes it around its argument. *)
Definition doubleQuote : string := String (ascii_of_nat 34) EmptyString.

(** [azureNodeIDMap]: the returned string and error. *)
Definition azureNodeIDMap (n : Node) : string * option error :=
  match Attributes n !! azureNameAttribute with
  | Some val => (val, None)
  | None =>
      match NodeMeta n !! azureNameAttribute with
      | Some val => (val, None)
      | None =>
          (EmptyString,
           Some ("attribute " +:+ doubleQuote +:+ azureNameAttribute +:+ doubleQuote
                   +:+ " not found")%string)
      end
  end.

(** [TargetPlugin.SetConfig] of [plugin.go]: the controller, the cluster
    utilities and their [ClusterNodeIDLookupFunc], or the error.
    [newClusterScaleUtils] stands for [scaleutils.NewClusterScaleUtils]
    on [nomad.ConfigFromNamespacedMap(config)]. *)
Definition SetConfig {Authorizer ClusterScaleUtils : Type} (getenv : string -> string)
    (authorize : Credentials -> Authorizer + error)
    (newClusterScaleUtils : gmap string string -> ClusterScaleUtils + error)
    (config : gmap string string)
    : AzureController Authorizer * ClusterScaleUtils * (Node -> string * option error) + error :=
  match init getenv authorize config with
  | inr err => inr ("cannot set config, " +:+ err)%string
  | inl controller =>
      match newClusterScaleUtils config with
      | inr err => inr err
      | inl clusterUtils => inl (controller, clusterUtils, azureNodeIDMap)
      end
  end.

(** An environment and an SDK for the examples: the three variables of
    the service principal are set; the client-credentials constructor
    returns its arguments, the environment one fails. *)
Definition demoEnv (name : string) : string :=
  if String.eqb name "ARM_TENANT_ID" then "t"
  else if String.eqb name "ARM_CLIENT_ID" then "c"
  else if String.eqb name "ARM_CLIENT_SECRET" then "s"
  else if String.eqb name "ARM_SUBSCRIPTION_ID" then "sub"
  else "".

Definition demoAuthorize (credentials : Credentials) : Credentials + error :=
  match credentials with
  | ClientCredentials _ _ _ => inl credentials
  | EnvironmentCredentials => inr "no settings"%string
  end.

(** * Properties *)

(** ** Facts about [int64] arithmetic *)

Lemma wrap_id z : Int64.in_range z -> Int64.wrap z = z.
Proof.
  unfold Int64.in_range, Int64.wrap, Int64.min_int64, Int64.max_int64.
  intros H. rewrite Z.mod_small; lia.
Qed.

Lemma wrap_in_range z : Int64.in_range (Int64.wrap z).
Proof.
  unfold Int64.in_range, Int64.wrap, Int64.min_int64, Int64.max_int64.
  pose proof (Z.mod_pos_bound (z + 2 ^ 63) (2 ^ 64) ltac:(lia)). lia.
Qed.

Lemma wrap_add_l a b : Int64.wrap (Int64.wrap a + b) = Int64.wrap (a + b).
Proof.
  unfold Int64.wrap.
  replace ((a + 2 ^ 63) mod 2 ^ 64 - 2 ^ 63 + b + 2 ^ 63)
    with ((a + 2 ^ 63) mod 2 ^ 64 + b) by lia.
  rewrite Zplus_mod_idemp_l. do 2 f_equal. lia.
Qed.

Lemma quot_pos m n :
  0 <= m -> Int64.in_range m -> 0 < n ->
  Int64.quot m n = Some (m / n) /\ Int64.rem m n = Some (m mod n).
Proof.
  intros Hm Hr Hn. unfold Int64.quot, Int64.rem.
  destruct (Z.eqb_spec n 0) as [->|_]; [lia|].
  rewrite Z.quot_div_nonneg, Z.rem_mod_nonneg by lia.
  pose proof (Z.mod_pos_bound m n Hn).
  pose proof (Z.div_pos m n Hm Hn).
  assert (m / n <= m) by (apply Z.div_le_upper_bound; nia).
  pose proof (Z.mod_le m n Hm Hn).
  unfold Int64.in_range, Int64.min_int64, Int64.max_int64 in *.
  rewrite !wrap_id; [done| |];
    unfold Int64.in_range, Int64.min_int64, Int64.max_int64; lia.
Qed.

(** ** The per-shard split *)

Lemma splitStep_spec modulo reminder :
  0 <= reminder -> Int64.in_range reminder ->
  (0 < reminder -> Int64.in_range (modulo + 1)) ->
  splitStep modulo reminder =
    (if 0 <? reminder then modulo + 1 else modulo, Z.max 0 (reminder - 1)).
Proof.
  intros H0 Hr Hm1. unfold splitStep, Int64.add, Int64.sub.
  destruct (Z.ltb_spec 0 reminder).
  - rewrite !wrap_id; [f_equal; lia | | auto].
    unfold Int64.in_range, Int64.min_int64, Int64.max_int64 in *. lia.
  - f_equal. lia.
Qed.

Lemma perShardCounts_length modulo reminder l :
  length (perShardCounts modulo reminder l) = length l.
Proof.
  revert reminder. induction l as [|v l IH]; intros reminder; [done|].
  simpl. destruct (splitStep modulo reminder). simpl. by rewrite IH.
Qed.

Lemma splitOk_next modulo reminder :
  splitOk modulo reminder -> splitOk modulo (Z.max 0 (reminder - 1)).
Proof.
  unfold splitOk, Int64.in_range, Int64.min_int64, Int64.max_int64.
  intros (? & ? & Hm). repeat split; lia.
Qed.

Lemma perShardCounts_lookup modulo l :
  forall reminder i,
    splitOk modulo reminder ->
    (i < length l)%nat ->
    perShardCounts modulo reminder l !! i =
      Some (if Z.of_nat i <? reminder then modulo + 1 else modulo).
Proof.
  induction l as [|v l IH]; intros reminder i Hok Hi.
  - simpl in Hi. lia.
  - pose proof (splitOk_next _ _ Hok) as Hok'. destruct Hok as (H0 & Hr & Hm1).
    simpl. rewrite splitStep_spec by done.
    destruct i as [|i]; [done|].
    simpl in Hi. simpl. rewrite IH by (done || lia).
    f_equal. destruct (Z.ltb_spec (Z.of_nat i) (Z.max 0 (reminder - 1)));
      destruct (Z.ltb_spec (Z.of_nat (S i)) reminder); lia || done.
Qed.

Lemma perShardCounts_sum modulo l :
  forall reminder,
    splitOk modulo reminder -> reminder <= Z.of_nat (length l) ->
    sumZ (perShardCounts modulo reminder l) = modulo * Z.of_nat (length l) + reminder.
Proof.
  induction l as [|v l IH]; intros reminder Hok Hle.
  - destruct Hok. simpl in *. lia.
  - pose proof (splitOk_next _ _ Hok) as Hok'. destruct Hok as (H0 & Hr & Hm1).
    simpl perShardCounts. rewrite splitStep_spec by done.
    unfold sumZ in *. simpl foldr. simpl length in *. rewrite IH by (done || lia).
    destruct (Z.ltb_spec 0 reminder); lia.
Qed.

(** Elements equal to [x] in the split. *)
Lemma perShardCounts_count modulo l x :
  forall reminder,
    splitOk modulo reminder -> reminder <= Z.of_nat (length l) ->
    Z.of_nat (length (filter (λ d, d = x) (perShardCounts modulo reminder l))) =
      (if decide (x = modulo + 1) then reminder else 0) +
      (if decide (x = modulo) then Z.of_nat (length l) - reminder else 0).
Proof.
  induction l as [|v l IH]; intros reminder Hok Hle.
  - destruct Hok. simpl in *. repeat case_decide; lia.
  - pose proof (splitOk_next _ _ Hok) as Hok'. destruct Hok as (H0 & Hr & Hm1).
    simpl perShardCounts. rewrite splitStep_spec by done.
    rewrite filter_cons. simpl length in *.
    destruct (Z.ltb_spec 0 reminder);
      repeat case_decide; simpl length; rewrite ?Nat2Z.inj_succ, IH by (done || lia);
        repeat case_decide; lia.
Qed.

Lemma perShardCounts_ge modulo l :
  forall reminder,
    splitOk modulo reminder ->
    Forall (λ d, modulo <= d) (perShardCounts modulo reminder l).
Proof.
  induction l as [|v l IH]; intros reminder Hok; [constructor|].
  pose proof (splitOk_next _ _ Hok) as Hok'. destruct Hok as (H0 & Hr & Hm1).
  simpl perShardCounts. rewrite splitStep_spec by done.
  constructor; [destruct (0 <? reminder); lia | by apply IH].
Qed.

Lemma splitOk_div m n :
  0 <= m -> Int64.in_range m -> 0 < n -> splitOk (m / n) (m mod n).
Proof.
  intros Hm Hr Hn.
  pose proof (Z.mod_pos_bound m n Hn). pose proof (Z.mod_le m n Hm Hn).
  unfold splitOk, Int64.in_range, Int64.min_int64, Int64.max_int64 in *.
  split_and!; try lia. intros Hpos.
  assert (2 <= n) by (destruct (Z.eq_dec n 1) as [->|]; [rewrite Z.mod_1_r in Hpos|]; lia).
  pose proof (Z.div_pos m n Hm Hn).
  assert (m / n <= m / 2) by (apply Z.div_le_compat_l; lia).
  assert (m / 2 * 2 <= m) by (pose proof (Z.mul_div_le m 2); lia).
  lia.
Qed.

Lemma ceilDiv_spec m n :
  0 < n -> 0 < m mod n -> ceilDiv m n = m / n + 1.
Proof.
  intros Hn Hr. unfold ceilDiv.
  pose proof (Z.mod_pos_bound m n Hn).
  assert (- m = (- (m / n) - 1) * n + (n - m mod n)) as Heq.
  { pose proof (Z.div_mod m n ltac:(lia)). lia. }
  rewrite Heq, Z.div_add_l by lia.
  rewrite (Z.div_small (n - m mod n) n) by lia. lia.
Qed.

(** C3. For a magnitude [m >= 0] and [n >= 1] scale sets, the split
    [modulo = m / n], [reminder = m % n] followed by the loop gives
    [m / n + 1] to the scale sets at indices [0 .. m mod n - 1] and [m / n]
    to the others: the counts add up to [m], each is at least the floor of
    [m / n], and when [m mod n > 0] exactly [m mod n] of them equal the
    ceiling of [m / n] (the rest equal the floor). *)
Theorem perShardDelta_even_split (m : Z) (vmScaleSetList : list string) :
  0 <= m -> Int64.in_range m -> (1 <= length vmScaleSetList)%nat ->
  let n := Z.of_nat (length vmScaleSetList) in
  exists deltas,
    perShardDelta m vmScaleSetList = inl deltas /\
    length deltas = length vmScaleSetList /\
    (forall i, (i < length vmScaleSetList)%nat ->
       deltas !! i = Some (if Z.of_nat i <? m mod n then m / n + 1 else m / n)) /\
    sumZ deltas = m /\
    Forall (fun d => m / n <= d) deltas /\
    (0 < m mod n ->
       Z.of_nat (length (filter (fun d => d = ceilDiv m n) deltas)) = m mod n /\
       Z.of_nat (length (filter (fun d => d = m / n) deltas)) = n - m mod n).
Proof.
  intros Hm Hr Hlen n.
  assert (Hn : 0 < n) by (subst n; lia).
  destruct (quot_pos m n Hm Hr Hn) as [Hq Hrem].
  pose proof (splitOk_div m n Hm Hr Hn) as Hok.
  pose proof (Z.mod_pos_bound m n Hn) as Hbound.
  exists (perShardCounts (m / n) (m mod n) vmScaleSetList).
  unfold perShardDelta. fold n. rewrite Hq, Hrem.
  split_and!.
  - done.
  - apply perShardCounts_length.
  - intros i Hi. by apply perShardCounts_lookup.
  - rewrite perShardCounts_sum by (done || (fold n; lia)). fold n.
    pose proof (Z.div_mod m n ltac:(lia)). lia.
  - by apply perShardCounts_ge.
  - intros Hpos. rewrite ceilDiv_spec by done.
    rewrite !perShardCounts_count by (done || (fold n; lia)). fold n.
    repeat case_decide; lia.
Qed.

Lemma perShardDelta_even_split_witness :
  perShardDelta 7 ["A"; "B"; "C"]%string = inl [3; 2; 2].
Proof.
  destruct (perShardDelta_even_split 7 ["A"; "B"; "C"]%string)
    as (deltas & -> & Hlen & Hnth & _).
  - lia.
  - unfold Int64.in_range, Int64.min_int64, Int64.max_int64. lia.
  - simpl. lia.
  - f_equal.
    destruct deltas as [|a [|b [|c [|? ?]]]]; try discriminate Hlen.
    pose proof (Hnth 0%nat ltac:(simpl; lia)) as H0.
    pose proof (Hnth 1%nat ltac:(simpl; lia)) as H1.
    pose proof (Hnth 2%nat ltac:(simpl; lia)) as H2.
    vm_compute in H0, H1, H2. congruence.
Defined.

(** ** The sequential part of [Scale] *)

Ltac run_unfold :=
  unfold index, fail in *; unfold bind, ret, emit, stop in *; cbn beta iota in *.

Lemma Split_length s sep : (1 <= length (Split s sep))%nat.
Proof.
  induction s as [|c s IH]; simpl; [lia|].
  destruct (Ascii.eqb c sep); simpl; [lia|].
  destruct (Split s sep); simpl; lia.
Qed.

(** The capacity loop only queries, and when it completes every
    [resourceGroupList[idx]] it read was in range. *)
Lemma totalCapacityLoop_spec w rgl vml :
  forall idx total tr tr' r,
    totalCapacityLoop w rgl idx vml total tr = (tr', r) ->
    exists evs, tr' = tr ++ evs /\ Forall isGet evs /\
      (forall total', r = inl total' ->
         forall i, (i < length vml)%nat -> is_Some (rgl !! (idx + i)%nat)).
Proof.
  induction vml as [|v vml IH]; intros idx total tr tr' r H; simpl in H.
  - run_unfold. injection H as <- <-. exists []. rewrite app_nil_r.
    split_and!; [done | constructor | simpl; intros; lia].
  - run_unfold. destruct (rgl !! idx) as [rg|] eqn:Hrg.
    + destruct (vmss_Get w rg v) as [capacity|err].
      * apply IH in H as (evs & -> & Hevs & Hidx).
        exists (EvGet rg v :: evs). rewrite <- app_assoc. split_and!; [done | by constructor |].
        intros total' Hr [|i] Hi.
        -- rewrite Nat.add_0_r. by eexists.
        -- replace (idx + S i)%nat with (S idx + i)%nat by lia.
           apply (Hidx total' Hr). simpl in Hi. lia.
      * injection H as <- <-. exists [EvGet rg v].
        split_and!; [done | by repeat constructor | discriminate].
    + injection H as <- <-. exists []. rewrite app_nil_r.
      split_and!; [done | constructor | discriminate].
Qed.

Lemma totalCapacityLoop_no_panic w rgl vml :
  forall idx total tr,
    (idx + length vml <= length rgl)%nat ->
    snd (totalCapacityLoop w rgl idx vml total tr) <> inr Panicked.
Proof.
  induction vml as [|v vml IH]; intros idx total tr Hlen; simpl.
  - run_unfold. simpl. discriminate.
  - run_unfold. simpl in Hlen.
    destruct (lookup_lt_is_Some_2 rgl idx ltac:(lia)) as [rg ->].
    destruct (vmss_Get w rg v); simpl; [apply IH; lia | discriminate].
Qed.


(** What [Scale] knows when it reaches the [switch]. *)
Lemma planScale_inl w count config tr0 pl :
  planScale w count config [] = (tr0, inl pl) ->
  count <> StrategyActionMetaValueDryRunCount w /\
  (exists s1 s2,
     config !! configKeyResourceGroupList = Some s1 /\
     config !! configKeyVMSSList = Some s2 /\
     resourceGroupList pl = Split s1 "," /\
     vmScaleSetList pl = Split s2 ",") /\
  totalCapacityLoop w (resourceGroupList pl) 0 (vmScaleSetList pl) 0 []
    = (tr0, inl (totalVMSSCapacity pl)) /\
  calculateScaleDirection (totalVMSSCapacity pl) count = (num pl, direction pl) /\
  Int64.quot (num pl) (Z.of_nat (length (vmScaleSetList pl))) = Some (modulo pl) /\
  Int64.rem (num pl) (Z.of_nat (length (vmScaleSetList pl))) = Some (reminder pl).
Proof.
  unfold planScale. intros H.
  destruct (Z.eqb_spec count (StrategyActionMetaValueDryRunCount w)) as [|Hdry];
    [discriminate|].
  destruct (config !! configKeyResourceGroupList) as [s1|]; [|discriminate].
  destruct (config !! configKeyVMSSList) as [s2|]; [|discriminate].
  unfold bind in H.
  destruct (totalCapacityLoop w (Split s1 ",") 0 (Split s2 ",") 0 []) as [tr [total|o]] eqn:Hloop;
    [|discriminate].
  destruct (calculateScaleDirection total count) as [m d] eqn:Hdir.
  destruct (Int64.quot m _) as [q|] eqn:Hq; [|discriminate].
  destruct (Int64.rem m _) as [r|] eqn:Hr; [|discriminate].
  unfold ret in H. injection H as <- <-. simpl.
  split_and!; eauto 10.
Qed.

Lemma planScale_in_range w count config tr0 pl :
  planScale w count config [] = (tr0, inl pl) ->
  (length (vmScaleSetList pl) <= length (resourceGroupList pl))%nat /\
  (1 <= length (vmScaleSetList pl))%nat /\
  Forall isGet tr0.
Proof.
  intros H. apply planScale_inl in H as (_ & (s1 & s2 & _ & _ & _ & Hv) & Hloop & _).
  apply totalCapacityLoop_spec in Hloop as (evs & -> & Hevs & Hidx).
  split_and!.
  - destruct (decide (length (vmScaleSetList pl) = 0)%nat) as [->|Hne]; [lia|].
    destruct (Hidx _ eq_refl (length (vmScaleSetList pl) - 1)%nat ltac:(lia)) as [rg Hrg].
    apply lookup_lt_Some in Hrg. lia.
  - rewrite Hv. apply Split_length.
  - done.
Qed.

(** ** Shard executors and the pool *)

Lemma executorStep_continue w g evs g' :
  executorStep w g = (evs, Some g') ->
  g_idx g' = g_idx g /\ g_req g' = g_req g /\
  Forall isExecutorEvent evs /\ donesOf evs = [] /\
  ((g_stage g = StRequest /\ g_stage g' <> StRequest /\
    requestsOf evs = [(g_idx g, g_req g)]) \/
   (g_stage g = StWait /\ g_stage g' = StDefer /\ requestsOf evs = [])).
Proof.
  unfold executorStep. destruct g as [idx req []]; simpl.
  - destruct (issue w req); intros [= <- <-]; simpl;
      (split_and!; [done | done | by repeat constructor | done | by left]).
  - destruct (WaitForCompletionRef w req); intros [= <- <-]; simpl;
      (split_and!; [done | done | by repeat constructor | done | by right]).
  - discriminate.
Qed.

Lemma executorStep_exit w g evs :
  executorStep w g = (evs, None) ->
  g_stage g = StDefer /\ evs = [EvDone (g_idx g)].
Proof.
  unfold executorStep. destruct g as [idx req []]; simpl.
  - destruct (issue w req); discriminate.
  - destruct (WaitForCompletionRef w req); discriminate.
  - by intros [= <-].
Qed.

Lemma unissued_app rs1 rs2 : unissued (rs1 ++ rs2) = unissued rs1 ++ unissued rs2.
Proof. apply omap_app. Qed.

Lemma requestsOf_app t1 t2 : requestsOf (t1 ++ t2) = requestsOf t1 ++ requestsOf t2.
Proof. apply omap_app. Qed.

Lemma donesOf_app t1 t2 : donesOf (t1 ++ t2) = donesOf t1 ++ donesOf t2.
Proof. apply omap_app. Qed.

Lemma logsOf_app t1 t2 : logsOf (t1 ++ t2) = logsOf t1 ++ logsOf t2.
Proof. apply omap_app. Qed.

Lemma executorStep_logs w g evs g' :
  executorStep w g = (evs, Some g') -> logsLeft w g = logsOf evs ++ logsLeft w g'.
Proof.
  unfold executorStep, logsLeft, failureLog. destruct g as [idx req []]; simpl.
  - destruct (issue w req); intros [= <- <-]; simpl; done.
  - destruct (WaitForCompletionRef w req); intros [= <- <-]; simpl; done.
  - discriminate.
Qed.

Lemma PoolInv_init w actions n tr0 : PoolInv w actions n tr0 (initPool actions n tr0).
Proof.
  exists []. simpl. rewrite app_nil_r. split_and!; try done.
  - by exists [].
  - lia.
Qed.

Lemma PoolInv_step w actions n tr0 p q :
  PoolInv w actions n tr0 p -> step w p q -> PoolInv w actions n tr0 q.
Proof.
  intros (evs & Htr & Hevs & Hreq & Hdone & [ran Hran] & Hwg & Hlog) Hstep.
  unfold PoolInv.
  destruct Hstep as [idx req rest rs c tr | rest rs c tr
                    | acts r1 g r2 c tr evs1 g' Hg | acts r1 g r2 c tr evs1 Hg];
    simpl in *; subst tr.
  - exists (evs ++ [EvGo idx req]).
    rewrite requestsOf_app, donesOf_app, logsOf_app, unissued_app, map_app, bind_app,
      !length_app.
    simpl. rewrite !app_nil_r. split_and!.
    + by rewrite app_assoc.
    + apply Forall_app. split; [done | by repeat constructor].
    + rewrite <- Hreq. by rewrite <- !app_assoc.
    + rewrite <- Hdone. by rewrite <- !app_assoc.
    + exists (ran ++ [MGo idx req]). by rewrite <- app_assoc.
    + lia.
    + rewrite <- Hlog. by rewrite <- !app_assoc.
  - exists evs. split_and!; try done.
    + exists (ran ++ [MDone]). by rewrite <- app_assoc.
    + lia.
  - pose proof (executorStep_logs _ _ _ _ Hg) as Hlogs.
    apply executorStep_continue in Hg as (Hidx & Hrq & Hex & Hd & Hcase).
    exists (evs ++ evs1).
    rewrite requestsOf_app, donesOf_app, logsOf_app, Hd, app_nil_r.
    rewrite !unissued_app, !map_app, !bind_app, !length_app in *. simpl in *.
    rewrite Hidx. split_and!; try done.
    + by rewrite app_assoc.
    + by apply Forall_app.
    + rewrite <- Hreq. destruct Hcase as [(Hs & Hs' & ->) | (Hs & Hs' & ->)].
      * rewrite Hs. destruct (g_stage g'); [done| |];
          rewrite <- !app_assoc; simpl; apply Permutation_app_head;
          apply Permutation_middle.
      * rewrite Hs, Hs', app_nil_r. done.
    + by exists ran.
    + rewrite <- Hlog, Hlogs. rewrite <- !app_assoc. apply Permutation_app_head.
      rewrite !app_assoc. do 3 apply Permutation_app_tail. apply Permutation_app_comm.
  - pose proof Hg as (Hs & ->)%executorStep_exit.
    exists (evs ++ [EvDone (g_idx g)]).
    rewrite requestsOf_app, donesOf_app, logsOf_app. simpl. rewrite !app_nil_r.
    rewrite !unissued_app, !map_app, !bind_app, !length_app in *. simpl in *.
    unfold logsLeft at 2 in Hlog. rewrite Hs in Hreq, Hlog. simpl in Hlog.
    split_and!; try done.
    + by rewrite app_assoc.
    + apply Forall_app. split; [done | by repeat constructor].
    + rewrite <- Hdone. rewrite <- !app_assoc. simpl. apply Permutation_app_head.
      apply Permutation_middle.
    + by exists ran.
    + lia.
Qed.

Lemma poolRun_inv w actions n tr0 p :
  poolRun w actions n tr0 p -> PoolInv w actions n tr0 p.
Proof.
  unfold poolRun. revert p. apply rtc_ind_r; [apply PoolInv_init|].
  intros y z _ Hstep Hinv. by eapply PoolInv_step.
Qed.

(** When [wg.Wait()] returns, every dispatched executor has issued its
    request once and has ended, and the errors logged are those of the
    executors that failed. *)
Lemma pool_joined w actions tr0 p :
  poolRun w actions (length actions) tr0 p -> joined p ->
  running p = [] /\
  exists evs, trace p = tr0 ++ evs /\ Forall isExecutorEvent evs /\
    requestsOf evs ≡ₚ dispatched actions /\
    donesOf evs ≡ₚ (dispatched actions).*1 /\
    logsOf evs ≡ₚ dispatched actions ≫= failureLog w.
Proof.
  intros Hrun [Hpend Hwg].
  apply poolRun_inv in Hrun as (evs & Htr & Hevs & Hreq & Hdone & _ & Hinv & Hlog).
  rewrite Hpend in *. simpl in *.
  assert (running p = []) as Hrs by (apply length_zero_iff_nil; lia).
  rewrite Hrs in *. simpl in *. rewrite !app_nil_r in *.
  split; [done|]. by exists evs.
Qed.

Lemma pool_not_panicking w actions n tr0 p :
  poolRun w actions n tr0 p -> MPanic ∉ actions -> ~ panicking p.
Proof.
  intros Hrun Hno [rest Hp].
  apply poolRun_inv in Hrun as (evs & _ & _ & _ & _ & [ran Hran] & _).
  apply Hno. rewrite Hran, Hp. set_solver.
Qed.

Lemma scaleOutLoop_in_range rgl modulo vml :
  forall reminder idx,
    (idx + length vml <= length rgl)%nat ->
    length (scaleOutLoop rgl modulo reminder idx vml) = length vml /\
    MPanic ∉ scaleOutLoop rgl modulo reminder idx vml.
Proof.
  induction vml as [|v vml IH]; intros reminder idx Hlen; simpl in *.
  - split; [done | set_solver].
  - destruct (splitStep modulo reminder) as [count reminder'].
    destruct (IH reminder' (S idx) ltac:(lia)) as [IHlen IHno].
    destruct (0 <? count).
    + destruct (lookup_lt_is_Some_2 rgl idx ltac:(lia)) as [rg ->]. simpl.
      split; [by rewrite IHlen|]. rewrite not_elem_of_cons. done.
    + simpl. split; [by rewrite IHlen|]. rewrite not_elem_of_cons. done.
Qed.

Lemma scaleInLoop_in_range rgl instanceIDs vml :
  forall idx,
    (idx + length vml <= length rgl)%nat ->
    length (scaleInLoop rgl instanceIDs idx vml) = length vml /\
    MPanic ∉ scaleInLoop rgl instanceIDs idx vml.
Proof.
  induction vml as [|v vml IH]; intros idx Hlen; simpl in *.
  - split; [done | set_solver].
  - destruct (IH (S idx) ltac:(lia)) as [IHlen IHno].
    destruct (0 <? length (instanceIDs !!! v))%nat.
    + destruct (lookup_lt_is_Some_2 rgl idx ltac:(lia)) as [rg ->]. simpl.
      split; [by rewrite IHlen|]. rewrite not_elem_of_cons. done.
    + simpl. split; [by rewrite IHlen|]. rewrite not_elem_of_cons. done.
Qed.

(** *** The run-to-completion schedule is an execution *)

Lemma runExecutor_eq w idx req :
  runExecutor w 3 {| g_idx := idx; g_req := req; g_stage := StRequest |} =
    match issue w req with
    | Some err => [EvRequest idx req; EvLogError idx (requestErrorMsg req) err; EvDone idx]
    | None =>
        match WaitForCompletionRef w req with
        | Some err =>
            [EvRequest idx req; EvWait idx req; EvLogError idx (waitErrorMsg req) err;
             EvDone idx]
        | None => [EvRequest idx req; EvWait idx req; EvDone idx]
        end
    end.
Proof.
  unfold runExecutor, executorStep. simpl.
  destruct (issue w req); simpl; [done|].
  destruct (WaitForCompletionRef w req); done.
Qed.

Lemma runExecutor_steps w acts idx req c tr :
  rtc (step w)
    {| pending := acts;
       running := [{| g_idx := idx; g_req := req; g_stage := StRequest |}];
       wg := c; trace := tr |}
    {| pending := acts; running := []; wg := c - 1;
       trace := tr ++ runExecutor w 3 {| g_idx := idx; g_req := req; g_stage := StRequest |} |}.
Proof.
  pose proof (step_executor w acts [] {| g_idx := idx; g_req := req; g_stage := StRequest |}
                [] c tr) as Hreq.
  pose proof (fun tr' => step_executor w acts [] {| g_idx := idx; g_req := req; g_stage := StWait |}
                [] c tr') as Hwait.
  pose proof (fun tr' => step_exit w acts [] {| g_idx := idx; g_req := req; g_stage := StDefer |}
                [] c tr' _ eq_refl) as Hexit.
  rewrite runExecutor_eq.
  simpl in *. unfold executorStep in *. simpl in *.
  destruct (issue w req) as [err|].
  - eapply rtc_l; [by apply Hreq|]. eapply rtc_l; [apply Hexit|].
    rewrite <- app_assoc. apply rtc_refl.
  - eapply rtc_l; [by apply Hreq|].
    destruct (WaitForCompletionRef w req) as [err|].
    + eapply rtc_l; [by apply Hwait|]. eapply rtc_l; [apply Hexit|].
      rewrite <- !app_assoc. apply rtc_refl.
    + eapply rtc_l; [by apply Hwait|]. eapply rtc_l; [apply Hexit|].
      rewrite <- !app_assoc. apply rtc_refl.
Qed.

Lemma runInOrder_steps w actions :
  forall c tr,
    rtc (step w) {| pending := actions; running := []; wg := c; trace := tr |}
                 (runInOrder w actions c tr).
Proof.
  induction actions as [|[idx req| |] rest IH]; intros c tr; simpl.
  - done.
  - eapply rtc_l; [apply step_go|]. simpl.
    etrans; [apply runExecutor_steps|].
    rewrite <- app_assoc. apply IH.
  - eapply rtc_l; [apply step_done|]. apply IH.
  - done.
Qed.

Lemma runInOrder_final w actions :
  forall c tr,
    (poolOutcome (runInOrder w actions c tr) = Panicked /\
     panicking (runInOrder w actions c tr)) \/
    (poolOutcome (runInOrder w actions c tr) = Returned None /\
     pending (runInOrder w actions c tr) = [] /\
     wg (runInOrder w actions c tr) = c - Z.of_nat (length actions)).
Proof.
  induction actions as [|[idx req| |] rest IH]; intros c tr; cbn [runInOrder].
  - right. split_and!; [done | done | simpl; lia].
  - destruct (IH (c - 1) (tr ++ EvGo idx req ::
       runExecutor w 3 {| g_idx := idx; g_req := req; g_stage := StRequest |}))
      as [?|(? & ? & Hwg)]; [by left | right].
    split_and!; [done | done | rewrite Hwg; simpl length; lia].
  - destruct (IH (c - 1) tr) as [?|(? & ? & Hwg)]; [by left | right].
    split_and!; [done | done | rewrite Hwg; simpl length; lia].
  - left. split; [done | by eexists].
Qed.

(** *** No deadlock: every pool state reached can be run to the join *)

Lemma executor_finishes w acts r1 g r2 c tr :
  exists evs,
    rtc (step w)
      {| pending := acts; running := r1 ++ g :: r2; wg := c; trace := tr |}
      {| pending := acts; running := r1 ++ r2; wg := c - 1; trace := tr ++ evs |}.
Proof.
  destruct g as [idx req st].
  assert (Hdefer : forall tr',
    rtc (step w)
      {| pending := acts;
         running := r1 ++ {| g_idx := idx; g_req := req; g_stage := StDefer |} :: r2;
         wg := c; trace := tr' |}
      {| pending := acts; running := r1 ++ r2; wg := c - 1;
         trace := tr' ++ [EvDone idx] |}).
  { intros tr'. apply rtc_once. by apply step_exit. }
  assert (Hwait : forall tr', exists evs,
    rtc (step w)
      {| pending := acts;
         running := r1 ++ {| g_idx := idx; g_req := req; g_stage := StWait |} :: r2;
         wg := c; trace := tr' |}
      {| pending := acts; running := r1 ++ r2; wg := c - 1; trace := tr' ++ evs |}).
  { intros tr'. destruct (WaitForCompletionRef w req) as [err|] eqn:Hw.
    - exists ([EvWait idx req; EvLogError idx (waitErrorMsg req) err] ++ [EvDone idx]).
      eapply rtc_l.
      + apply step_executor. unfold executorStep. simpl. rewrite Hw. reflexivity.
      + rewrite app_assoc. apply Hdefer.
    - exists ([EvWait idx req] ++ [EvDone idx]).
      eapply rtc_l.
      + apply step_executor. unfold executorStep. simpl. rewrite Hw. reflexivity.
      + rewrite app_assoc. apply Hdefer. }
  destruct st.
  - destruct (issue w req) as [err|] eqn:Hi.
    + exists ([EvRequest idx req; EvLogError idx (requestErrorMsg req) err] ++ [EvDone idx]).
      eapply rtc_l.
      * apply step_executor. unfold executorStep. simpl. rewrite Hi. reflexivity.
      * rewrite app_assoc. apply Hdefer.
    + destruct (Hwait (tr ++ [EvRequest idx req])) as [evs Hevs].
      exists ([EvRequest idx req] ++ evs).
      eapply rtc_l.
      * apply step_executor. unfold executorStep. simpl. rewrite Hi. reflexivity.
      * rewrite app_assoc. exact Hevs.
  - apply Hwait.
  - eexists. apply Hdefer.
Qed.

Lemma running_drain w acts rs :
  forall c tr, exists evs,
    rtc (step w)
      {| pending := acts; running := rs; wg := c; trace := tr |}
      {| pending := acts; running := []; wg := c - Z.of_nat (length rs);
         trace := tr ++ evs |}.
Proof.
  induction rs as [|g rs IH]; intros c tr.
  - exists []. simpl. rewrite app_nil_r, Z.sub_0_r. apply rtc_refl.
  - destruct (executor_finishes w acts [] g rs c tr) as [evs1 H1].
    destruct (IH (c - 1) (tr ++ evs1)) as [evs2 H2].
    exists (evs1 ++ evs2). simpl in H1. etrans; [exact H1|].
    rewrite app_assoc.
    replace (c - Z.of_nat (length (g :: rs))) with (c - 1 - Z.of_nat (length rs))
      by (simpl length; lia).
    exact H2.
Qed.

(** From every pool state an execution can reach, the run can go on
    until [wg.Wait()] returns, unless the dispatch loop panics. *)
Lemma pool_can_finish w actions tr0 p :
  poolRun w actions (length actions) tr0 p -> MPanic ∉ actions ->
  exists q, rtc (step w) p q /\ joined q.
Proof.
  intros Hrun Hno.
  pose proof (poolRun_inv _ _ _ _ _ Hrun) as (evs & Htr & _ & _ & _ & [ran Hran] & Hwg & _).
  destruct p as [acts rs c tr]. simpl in *.
  destruct (running_drain w acts rs c tr) as [evs1 H1].
  pose proof (runInOrder_steps w acts (c - Z.of_nat (length rs)) (tr ++ evs1)) as H2.
  exists (runInOrder w acts (c - Z.of_nat (length rs)) (tr ++ evs1)).
  split; [by etrans|].
  destruct (runInOrder_final w acts (c - Z.of_nat (length rs)) (tr ++ evs1))
    as [[_ [rest Hp]] | (_ & Hpend & Hfinal)].
  - exfalso. apply Hno. rewrite Hran.
    assert (Hsuffix : exists ran', acts = ran' ++ MPanic :: rest).
    { clear -Hp. revert Hp.
      generalize (c - Z.of_nat (length rs)) (tr ++ evs1).
      induction acts as [|[idx req| |] acts IH]; intros c' tr' Hp; simpl in Hp.
      - discriminate.
      - destruct (IH _ _ Hp) as [ran' ->]. by exists (MGo idx req :: ran').
      - destruct (IH _ _ Hp) as [ran' ->]. by exists (MDone :: ran').
      - injection Hp as <-. by exists []. }
    destruct Hsuffix as [ran' ->]. rewrite !elem_of_app, elem_of_cons. auto.
  - split; [done|]. rewrite Hfinal, Hwg, Hran, length_app. lia.
Qed.

(** *** The id collection and the preparation of [case "in"] *)

Lemma getRemoteIds_trace w rg v remoteIDs tr :
  exists r, getRemoteIds w rg v remoteIDs tr = (tr ++ [EvList rg v], inl r).
Proof.
  unfold getRemoteIds. run_unfold.
  destruct (vmssVMs_List w rg v); eauto.
Qed.

(** The collection only lists instances; when it completes it has
    listed every scale set, in order. *)
Lemma collectLoop_spec w rgl vml :
  forall idx remoteIDs tr tr' r,
    collectLoop w rgl idx vml remoteIDs tr = (tr', r) ->
    exists evs, tr' = tr ++ evs /\ Forall isList evs /\
      (forall remoteIDs', r = inl remoteIDs' ->
         evs = zip_with EvList (drop idx rgl) vml /\
         (idx + length vml <= length rgl \/ vml = [])%nat).
Proof.
  induction vml as [|v vml IH]; intros idx remoteIDs tr tr' r H; simpl in H.
  - run_unfold. injection H as <- <-. exists []. rewrite app_nil_r.
    split_and!; [done | constructor |].
    intros _ _. split; [by destruct (drop idx rgl) | by right].
  - unfold index, bind in H. destruct (rgl !! idx) as [rg|] eqn:Hrg.
    + unfold ret at 1 in H.
      destruct (getRemoteIds_trace w rg v remoteIDs tr) as [r0 Hr0]. rewrite Hr0 in H.
      destruct r0 as [remoteIDs1|err].
      * apply IH in H as (evs & -> & Hevs & Hok).
        exists (EvList rg v :: evs). rewrite <- app_assoc.
        split_and!; [done | by constructor |].
        intros remoteIDs' Hr. destruct (Hok _ Hr) as [-> Hlen].
        rewrite (drop_S _ _ _ Hrg). simpl. split; [done|]. left.
        apply lookup_lt_Some in Hrg. destruct Hlen as [Hlen | ->]; simpl; lia.
      * unfold fail, stop in H. injection H as <- <-. exists [EvList rg v].
        split_and!; [done | by repeat constructor | discriminate].
    + unfold stop in H. injection H as <- <-. exists []. rewrite app_nil_r.
      split_and!; [done | constructor | discriminate].
Qed.

Lemma collectLoop_no_panic w rgl vml :
  forall idx remoteIDs tr,
    (idx + length vml <= length rgl)%nat ->
    snd (collectLoop w rgl idx vml remoteIDs tr) <> inr Panicked.
Proof.
  induction vml as [|v vml IH]; intros idx remoteIDs tr Hlen; simpl.
  - run_unfold. simpl. discriminate.
  - unfold index, bind. simpl in Hlen.
    destruct (lookup_lt_is_Some_2 rgl idx ltac:(lia)) as [rg ->]. unfold ret at 1.
    destruct (getRemoteIds_trace w rg v remoteIDs tr) as [r0 ->].
    destruct r0; [apply IH; lia | unfold fail, stop; simpl; discriminate].
Qed.

Lemma scaleInPrepare_inl w config pl tr0 tr1 actions ids :
  scaleInPrepare w config pl tr0 = (tr1, inl (actions, ids)) ->
  exists trc remoteIDs instanceIDs,
    collectLoop w (resourceGroupList pl) 0 (vmScaleSetList pl) [] tr0
      = (trc, inl remoteIDs) /\
    tr1 = trc ++ [EvPreScaleIn remoteIDs (num pl)] /\
    RunPreScaleInTasksWithRemoteCheck w config remoteIDs (num pl) = inl ids /\
    correlate w (vmScaleSetList pl) ids ∅ = inl instanceIDs /\
    actions = scaleInLoop (resourceGroupList pl) instanceIDs 0 (vmScaleSetList pl).
Proof.
  unfold scaleInPrepare, bind. intros H.
  destruct (collectLoop _ _ _ _ _ _) as [trc [remoteIDs|o]] eqn:Hcl; [|discriminate].
  unfold emit in H.
  destruct (RunPreScaleInTasksWithRemoteCheck w config remoteIDs (num pl)) as [ids'|err]
    eqn:Hpre; [|discriminate].
  destruct (correlate w (vmScaleSetList pl) ids' ∅) as [instanceIDs|err] eqn:Hc;
    [|discriminate].
  unfold ret in H. injection H as <- <- <-.
  exists trc, remoteIDs, instanceIDs. done.
Qed.

Lemma scaleInPrepare_no_panic w config pl tr0 :
  (length (vmScaleSetList pl) <= length (resourceGroupList pl))%nat ->
  snd (scaleInPrepare w config pl tr0) <> inr Panicked.
Proof.
  intros Hlen. unfold scaleInPrepare, bind.
  pose proof (collectLoop_no_panic w (resourceGroupList pl) (vmScaleSetList pl)
                0 [] tr0 ltac:(simpl; lia)) as Hc.
  destruct (collectLoop _ _ _ _ _ _) as [trc [remoteIDs|o]];
    [|simpl in *; congruence].
  unfold emit.
  destruct (RunPreScaleInTasksWithRemoteCheck w config remoteIDs (num pl)); [|discriminate].
  destruct (correlate w (vmScaleSetList pl) _ ∅); discriminate.
Qed.

(** *** [Scale_seq] is one of the executions of [Scale] *)

Lemma ScaleOut_seq_exec w pl tr0 :
  (length (vmScaleSetList pl) <= length (resourceGroupList pl))%nat ->
  ScaleOut_exec w pl tr0 (fst (ScaleOut_seq w pl tr0)) (snd (ScaleOut_seq w pl tr0)).
Proof.
  intros Hlen. unfold ScaleOut_seq. simpl.
  set (actions := scaleOutLoop _ _ _ _ _).
  destruct (scaleOutLoop_in_range (resourceGroupList pl) (modulo pl) (vmScaleSetList pl)
              (reminder pl) 0%nat ltac:(simpl; lia)) as [Hl _]. fold actions in Hl.
  pose proof (runInOrder_steps w actions (Z.of_nat (length (vmScaleSetList pl))) tr0) as Hrun.
  destruct (runInOrder_final w actions (Z.of_nat (length (vmScaleSetList pl))) tr0)
    as [[-> Hp] | (-> & Hpend & Hwg)].
  - by apply ScaleOut_panicked.
  - apply ScaleOut_joined; [done|]. split; [done | lia].
Qed.

Lemma ScaleIn_seq_exec w config pl tr0 :
  (length (vmScaleSetList pl) <= length (resourceGroupList pl))%nat ->
  ScaleIn_exec w config pl tr0 (fst (ScaleIn_seq w config pl tr0))
               (snd (ScaleIn_seq w config pl tr0)).
Proof.
  intros Hlen. unfold ScaleIn_seq.
  destruct (scaleInPrepare w config pl tr0) as [tr1 [[actions ids]|o]] eqn:Hprep.
  - pose proof Hprep as Hprep'.
    apply scaleInPrepare_inl in Hprep' as (trc & remoteIDs & instanceIDs & _ & _ & _ & _ & ->).
    set (actions := scaleInLoop _ _ _ _) in *.
    destruct (scaleInLoop_in_range (resourceGroupList pl) instanceIDs (vmScaleSetList pl)
                0%nat ltac:(simpl; lia)) as [Hl _]. fold actions in Hl.
    pose proof (runInOrder_steps w actions (Z.of_nat (length (vmScaleSetList pl))) tr1) as Hrun.
    destruct (runInOrder_final w actions (Z.of_nat (length (vmScaleSetList pl))) tr1)
      as [[-> Hp] | (-> & Hpend & Hwg)].
    + by eapply ScaleIn_panicked.
    + eapply ScaleIn_joined; [done | done |]. split; [done | lia].
  - by apply ScaleIn_aborted.
Qed.

Lemma Scale_seq_exec w count config :
  Scale_exec w count config (fst (Scale_seq w count config))
             (snd (Scale_seq w count config)).
Proof.
  unfold Scale_seq.
  destruct (planScale w count config []) as [tr0 [pl|o]] eqn:Hplan.
  - destruct (planScale_in_range _ _ _ _ _ Hplan) as (Hlen & _ & _).
    destruct (String.eqb_spec (direction pl) "out") as [Hout|Hout].
    + eapply Scale_out; [done | done | by apply ScaleOut_seq_exec].
    + destruct (String.eqb_spec (direction pl) "in") as [Hin|Hin].
      * eapply Scale_in; [done | done | by apply ScaleIn_seq_exec].
      * by eapply Scale_default.
  - by apply Scale_stopped.
Qed.

(** ** Direction and magnitude *)

Lemma calculateScaleDirection_equal c : calculateScaleDirection c c = (0, ""%string).
Proof.
  unfold calculateScaleDirection. rewrite Z.ltb_irrefl.
  destruct (Z.gtb_spec c c); [lia | done].
Qed.

(** When the target equals the current total, [Scale] returns [nil]
    after the capacity queries and does nothing else. *)
Lemma Scale_no_change w count config tr0 pl tr o :
  planScale w count config [] = (tr0, inl pl) ->
  totalVMSSCapacity pl = count ->
  Scale_exec w count config tr o ->
  o = Returned None /\ tr = tr0 /\ Forall isGet tr.
Proof.
  intros Hplan Htotal Hexec.
  pose proof Hplan as (_ & _ & _ & Hdir & _)%planScale_inl.
  rewrite Htotal, calculateScaleDirection_equal in Hdir. injection Hdir as _ Hd.
  destruct (planScale_in_range _ _ _ _ _ Hplan) as (_ & _ & Hget).
  destruct Hexec as [tr o Hp | tr1 pl1 tr o Hp Houtd _ | tr1 pl1 tr o Hp Hind _
                    | tr1 pl1 Hp _ _]; rewrite Hplan in Hp.
  - discriminate.
  - injection Hp as <- <-. congruence.
  - injection Hp as <- <-. congruence.
  - by injection Hp as <- <-.
Qed.

(** C2. [calculateScaleDirection] on a current total [c] and a target
    [t]: for [t < c] the direction is "in" and the magnitude is the
    [int64] difference [c - t], which is the exact difference whenever
    that is representable; for [t > c] the direction is "out" and the
    magnitude is the target [t] itself; for [t = c] the direction is empty
    and the magnitude 0, and [Scale] then returns [nil] having made no
    call besides the capacity queries. *)
Theorem calculateScaleDirection_spec (c t : Z) :
  (t < c ->
     calculateScaleDirection c t = (Int64.sub c t, "in"%string) /\
     (Int64.in_range (c - t) -> Int64.sub c t = c - t)) /\
  (t > c -> calculateScaleDirection c t = (t, "out"%string)) /\
  (t = c ->
     calculateScaleDirection c t = (0, ""%string) /\
     forall w config tr0 pl tr o,
       planScale w t config [] = (tr0, inl pl) ->
       totalVMSSCapacity pl = c ->
       Scale_exec w t config tr o ->
       o = Returned None /\ tr = tr0 /\ Forall isGet tr).
Proof.
  split_and!.
  - intros Hlt. unfold calculateScaleDirection.
    destruct (Z.ltb_spec t c); [|lia]. split; [done|].
    intros Hr. unfold Int64.sub. by apply wrap_id.
  - intros Hgt. unfold calculateScaleDirection.
    destruct (Z.ltb_spec t c); [lia|].
    destruct (Z.gtb_spec t c); [done | lia].
  - intros ->. split; [apply calculateScaleDirection_equal|].
    intros w config tr0 pl tr o Hplan Htotal Hexec.
    by eapply Scale_no_change.
Qed.

Lemma calculateScaleDirection_spec_witness :
  calculateScaleDirection 12 9 = (3, "in"%string) /\
  calculateScaleDirection 3 10 = (10, "out"%string) /\
  calculateScaleDirection 12 12 = (0, ""%string) /\
  Scale_seq demoWorld 12 demoConfig
    = ([EvGet "rg" "A"; EvGet "rg" "B"; EvGet "rg" "C"], Returned None).
Proof.
  destruct (calculateScaleDirection_spec 12 9) as ((Hin & Hexact) & _); [lia|].
  destruct (calculateScaleDirection_spec 3 10) as (_ & Hout & _).
  destruct (calculateScaleDirection_spec 12 12) as (_ & _ & Hnone).
  destruct (Hnone eq_refl) as [Heq Hscale].
  split_and!.
  - rewrite Hin, Hexact; [reflexivity|].
    unfold Int64.in_range, Int64.min_int64, Int64.max_int64. lia.
  - apply Hout. lia.
  - exact Heq.
  - destruct (planScale demoWorld 12 demoConfig []) as [tr0 [pl|o]] eqn:Hplan;
      vm_compute in Hplan; [|discriminate].
    injection Hplan as <- <-.
    destruct (Hscale demoWorld demoConfig _ _ _ _ eq_refl eq_refl
                     (Scale_seq_exec demoWorld 12 demoConfig)) as (Ho & Htr & _).
    rewrite (surjective_pairing (Scale_seq demoWorld 12 demoConfig)), Ho, Htr.
    reflexivity.
Defined.

(** ** The shard count *)



(** ** The shape of the executions of the two branches *)

Lemma ScaleOut_exec_shape w pl tr0 tr o :
  (length (vmScaleSetList pl) <= length (resourceGroupList pl))%nat ->
  ScaleOut_exec w pl tr0 tr o ->
  o = Returned None /\
  exists evs, tr = tr0 ++ evs /\ Forall isExecutorEvent evs /\
    requestsOf evs ≡ₚ
      dispatched (scaleOutLoop (resourceGroupList pl) (modulo pl) (reminder pl) 0
                               (vmScaleSetList pl)) /\
    donesOf evs ≡ₚ
      (dispatched (scaleOutLoop (resourceGroupList pl) (modulo pl) (reminder pl) 0
                                (vmScaleSetList pl))).*1 /\
    logsOf evs ≡ₚ
      dispatched (scaleOutLoop (resourceGroupList pl) (modulo pl) (reminder pl) 0
                               (vmScaleSetList pl)) ≫= failureLog w.
Proof.
  intros Hlen Hexec.
  destruct (scaleOutLoop_in_range (resourceGroupList pl) (modulo pl) (vmScaleSetList pl)
              (reminder pl) 0%nat ltac:(simpl; lia)) as [Hl Hno].
  destruct Hexec as [p Hrun Hj | p Hrun Hp].
  - split; [done|]. rewrite <- Hl in Hrun.
    by destruct (pool_joined _ _ _ _ Hrun Hj) as (_ & evs & ? & ? & ? & ? & ?); exists evs.
  - by destruct (pool_not_panicking _ _ _ _ _ Hrun Hno).
Qed.

Lemma scaleInFinish_eq w config ids tr :
  finish (scaleInFinish w config ids tr) = (tr ++ [EvPostScaleIn ids], postOutcome w config ids).
Proof.
  unfold scaleInFinish, postOutcome. run_unfold.
  by destruct (RunPostScaleInTasks w config ids).
Qed.

(** The collection never ends [Scale] with a [nil] error. *)
Lemma collectLoop_not_nil w rgl vml :
  forall idx remoteIDs tr tr',
    collectLoop w rgl idx vml remoteIDs tr <> (tr', inr (Returned None)).
Proof.
  induction vml as [|v vml IH]; intros idx acc tr tr'; simpl.
  - run_unfold. discriminate.
  - unfold index, bind. destruct (rgl !! idx) as [rg|]; [|discriminate].
    unfold ret at 1.
    destruct (getRemoteIds_trace w rg v acc tr) as [r0 ->].
    destruct r0; [apply IH | discriminate].
Qed.

(** Every execution of [case "in"] is one of: aborted while collecting,
    aborted by the pre-scale-in tasks, aborted by the correlation, or
    complete, with all the executor events between the pre- and the
    post-scale-in tasks. *)
Lemma ScaleIn_exec_shape w config pl tr0 tr o :
  (length (vmScaleSetList pl) <= length (resourceGroupList pl))%nat ->
  ScaleIn_exec w config pl tr0 tr o ->
  exists trc r,
    collectLoop w (resourceGroupList pl) 0 (vmScaleSetList pl) [] tr0 = (tr0 ++ trc, r) /\
    Forall isList trc /\
    match r with
    | inr oc => tr = tr0 ++ trc /\ o = oc /\ exists err, oc = Returned (Some err)
    | inl remoteIDs =>
        trc = zip_with EvList (resourceGroupList pl) (vmScaleSetList pl) /\
        match RunPreScaleInTasksWithRemoteCheck w config remoteIDs (num pl) with
        | inr err =>
            tr = tr0 ++ trc ++ [EvPreScaleIn remoteIDs (num pl)] /\
            o = Returned (Some ("failed to perform pre-scale Nomad scale in tasks: " +:+ err)%string)
        | inl ids =>
            match correlate w (vmScaleSetList pl) ids ∅ with
            | inr err =>
                tr = tr0 ++ trc ++ [EvPreScaleIn remoteIDs (num pl)] /\
                o = Returned (Some err)
            | inl instanceIDs =>
                exists evs,
                  tr = tr0 ++ trc ++ [EvPreScaleIn remoteIDs (num pl)] ++ evs
                         ++ [EvPostScaleIn ids] /\
                  Forall isExecutorEvent evs /\
                  requestsOf evs ≡ₚ
                    dispatched (scaleInLoop (resourceGroupList pl) instanceIDs 0
                                            (vmScaleSetList pl)) /\
                  donesOf evs ≡ₚ
                    (dispatched (scaleInLoop (resourceGroupList pl) instanceIDs 0
                                             (vmScaleSetList pl))).*1 /\
                  o = postOutcome w config ids
            end
        end
    end.
Proof.
  intros Hlen Hexec.
  destruct (collectLoop w (resourceGroupList pl) 0 (vmScaleSetList pl) [] tr0)
    as [tr1 r] eqn:Hcl.
  pose proof (collectLoop_no_panic w (resourceGroupList pl) (vmScaleSetList pl) 0 [] tr0
                ltac:(simpl; lia)) as Hnp. rewrite Hcl in Hnp. simpl in Hnp.
  destruct (collectLoop_spec _ _ _ _ _ _ _ _ Hcl) as (trc & -> & Hlist & Hok).
  exists trc, r. split_and!; [done | done |].
  assert (Hprep : scaleInPrepare w config pl tr0 =
            match r with
            | inr oc => (tr0 ++ trc, inr oc)
            | inl remoteIDs =>
                match RunPreScaleInTasksWithRemoteCheck w config remoteIDs (num pl) with
                | inr err =>
                    ((tr0 ++ trc) ++ [EvPreScaleIn remoteIDs (num pl)],
                     inr (Returned (Some
                       ("failed to perform pre-scale Nomad scale in tasks: " +:+ err)%string)))
                | inl ids =>
                    match correlate w (vmScaleSetList pl) ids ∅ with
                    | inr err =>
                        ((tr0 ++ trc) ++ [EvPreScaleIn remoteIDs (num pl)],
                         inr (Returned (Some err)))
                    | inl instanceIDs =>
                        ((tr0 ++ trc) ++ [EvPreScaleIn remoteIDs (num pl)],
                         inl (scaleInLoop (resourceGroupList pl) instanceIDs 0
                                          (vmScaleSetList pl), ids))
                    end
                end
            end).
  { unfold scaleInPrepare, bind. rewrite Hcl. destruct r as [remoteIDs|oc]; [|done].
    unfold emit, fail, stop, ret.
    destruct (RunPreScaleInTasksWithRemoteCheck w config remoteIDs (num pl)); [|done].
    by destruct (correlate w (vmScaleSetList pl) _ ∅). }
  destruct r as [remoteIDs|oc].
  - destruct (Hok _ eq_refl) as [Hz _]. rewrite drop_0 in Hz. split; [done|].
    destruct (RunPreScaleInTasksWithRemoteCheck w config remoteIDs (num pl)) as [ids|err].
    + destruct (correlate w (vmScaleSetList pl) ids ∅) as [instanceIDs|err].
      * destruct (scaleInLoop_in_range (resourceGroupList pl) instanceIDs (vmScaleSetList pl)
                    0%nat ltac:(simpl; lia)) as [Hl Hno].
        destruct Hexec as [tr o Ha | tr1 actions ids1 p Hp Hrun Hj
                          | tr1 actions ids1 p Hp Hrun Hpanic]; rewrite Hprep in *.
        -- discriminate.
        -- injection Hp as <- <- <-. rewrite <- Hl in Hrun.
           destruct (pool_joined _ _ _ _ Hrun Hj) as (_ & evs & Htr & ? & ? & ? & _).
           exists evs. rewrite scaleInFinish_eq. simpl. rewrite Htr.
           rewrite <- !app_assoc. done.
        -- injection Hp as <- <- <-.
           by destruct (pool_not_panicking _ _ _ _ _ Hrun Hno).
      * destruct Hexec as [tr o Ha | ? ? ? ? Hp | ? ? ? ? Hp]; rewrite Hprep in *;
          [|discriminate..].
        injection Ha as <- <-. by rewrite <- app_assoc.
    + destruct Hexec as [tr o Ha | ? ? ? ? Hp | ? ? ? ? Hp]; rewrite Hprep in *;
        [|discriminate..].
      injection Ha as <- <-. by rewrite <- app_assoc.
  - destruct Hexec as [tr o Ha | ? ? ? ? Hp | ? ? ? ? Hp]; rewrite Hprep in *;
      [|discriminate..].
    injection Ha as <- <-. split_and!; [done | done |].
    destruct oc as [[err|]|]; [by eexists | | done].
    by apply collectLoop_not_nil in Hcl.
Qed.

Lemma Scale_exec_out w count config tr0 pl tr o :
  planScale w count config [] = (tr0, inl pl) -> direction pl = "out"%string ->
  Scale_exec w count config tr o -> ScaleOut_exec w pl tr0 tr o.
Proof.
  intros Hplan Hdir Hexec.
  destruct Hexec as [tr o Hp | tr1 pl1 tr o Hp _ Hout | tr1 pl1 tr o Hp Hind _
                    | tr1 pl1 Hp Hno _]; rewrite Hplan in Hp.
  - discriminate.
  - by injection Hp as <- <-.
  - injection Hp as <- <-. congruence.
  - injection Hp as <- <-. done.
Qed.

Lemma Scale_exec_in w count config tr0 pl tr o :
  planScale w count config [] = (tr0, inl pl) -> direction pl = "in"%string ->
  Scale_exec w count config tr o -> ScaleIn_exec w config pl tr0 tr o.
Proof.
  intros Hplan Hdir Hexec.
  destruct Hexec as [tr o Hp | tr1 pl1 tr o Hp Houtd _ | tr1 pl1 tr o Hp _ Hin
                    | tr1 pl1 Hp _ Hno]; rewrite Hplan in Hp.
  - discriminate.
  - injection Hp as <- <-. congruence.
  - by injection Hp as <- <-.
  - injection Hp as <- <-. done.
Qed.

Lemma requestsOf_gets tr : Forall isGet tr -> requestsOf tr = [].
Proof.
  induction 1 as [|e tr He _ IH]; [done|]. by destruct e.
Qed.

Lemma requestsOf_lists tr : Forall isList tr -> requestsOf tr = [].
Proof.
  induction 1 as [|e tr He _ IH]; [done|]. by destruct e.
Qed.

(** ** Executor failures *)

(** C1 as stated fails: the update of scale set B fails and [Scale]
    returns [nil]. *)
Lemma Scale_executor_failure_unreported :
  executorFails demoWorld (ReqUpdate "rg" "B" 5) /\
  exists tr,
    Scale_exec demoWorld 15 demoConfig tr (Returned None) /\
    (1%nat, ReqUpdate "rg" "B" 5) ∈ requestsOf tr.
Proof.
  split; [left; by eexists|].
  pose proof (Scale_seq_exec demoWorld 15 demoConfig) as H.
  destruct (Scale_seq demoWorld 15 demoConfig) as [tr o] eqn:Hr.
  vm_compute in Hr. injection Hr as <- <-.
  eexists. split; [exact H|]. vm_compute. set_solver.
Qed.

(** C1, amended. [scaleOut] and [scaleIn] return nothing: a failed
    request or wait is only logged by the executor, once, and the result
    of [Scale] does not depend on it. In every execution that reaches a
    dispatch loop, when [Scale] returns every dispatched executor, failed
    or not, has issued its request exactly once and has ended, and the
    error logs are those of the executors that failed; growing then
    returns [nil], and shrinking returns what the post-scale-in tasks
    return. *)
Theorem Scale_joins_all_executors w count config tr0 pl tr o :
  planScale w count config [] = (tr0, inl pl) ->
  Scale_exec w count config tr o ->
  (direction pl = "out"%string ->
     o = Returned None /\
     exists evs, tr = tr0 ++ evs /\ Forall isExecutorEvent evs /\
       requestsOf evs ≡ₚ
         dispatched (scaleOutLoop (resourceGroupList pl) (modulo pl) (reminder pl) 0
                                  (vmScaleSetList pl)) /\
       donesOf evs ≡ₚ
         (dispatched (scaleOutLoop (resourceGroupList pl) (modulo pl) (reminder pl) 0
                                   (vmScaleSetList pl))).*1 /\
       logsOf evs ≡ₚ
         dispatched (scaleOutLoop (resourceGroupList pl) (modulo pl) (reminder pl) 0
                                  (vmScaleSetList pl)) ≫= failureLog w) /\
  (direction pl = "in"%string ->
     forall tr1 actions ids,
       scaleInPrepare w config pl tr0 = (tr1, inl (actions, ids)) ->
       o = postOutcome w config ids /\
       exists evs, tr = tr1 ++ evs ++ [EvPostScaleIn ids] /\ Forall isExecutorEvent evs /\
         requestsOf evs ≡ₚ dispatched actions /\
         donesOf evs ≡ₚ (dispatched actions).*1 /\
         logsOf evs ≡ₚ dispatched actions ≫= failureLog w).
Proof.
  intros Hplan Hexec.
  destruct (planScale_in_range _ _ _ _ _ Hplan) as (Hlen & _ & _).
  split.
  - intros Hdir. apply (ScaleOut_exec_shape w pl tr0 tr o Hlen).
    by eapply Scale_exec_out.
  - intros Hdir tr1 actions ids Hprep.
    pose proof (Scale_exec_in _ _ _ _ _ _ _ Hplan Hdir Hexec) as Hin.
    pose proof Hprep as (trc & remoteIDs & instanceIDs & _ & _ & _ & _ & Hact)%scaleInPrepare_inl.
    destruct (scaleInLoop_in_range (resourceGroupList pl) instanceIDs (vmScaleSetList pl)
                0%nat ltac:(simpl; lia)) as [Hl Hno]. rewrite <- Hact in Hl, Hno.
    destruct Hin as [tr o Ha | tr2 actions2 ids2 p Hp Hrun Hj
                    | tr2 actions2 ids2 p Hp Hrun Hpanic]; rewrite Hprep in *.
    + discriminate.
    + injection Hp as <- <- <-. rewrite <- Hl in Hrun.
      destruct (pool_joined _ _ _ _ Hrun Hj) as (_ & evs & Htr & ? & ? & ? & ?).
      rewrite scaleInFinish_eq. simpl. split; [done|].
      exists evs. rewrite Htr, <- app_assoc. done.
    + injection Hp as <- <- <-.
      by destruct (pool_not_panicking _ _ _ _ _ Hrun Hno).
Qed.

Lemma Scale_joins_all_executors_witness :
  executorFails demoWorld (ReqUpdate "rg" "B" 5) /\
  snd (Scale_seq demoWorld 15 demoConfig) = Returned None /\
  requestsOf (fst (Scale_seq demoWorld 15 demoConfig)) ≡ₚ
    [(0%nat, ReqUpdate "rg" "A" 5); (1%nat, ReqUpdate "rg" "B" 5);
     (2%nat, ReqUpdate "rg" "C" 5)] /\
  logsOf (fst (Scale_seq demoWorld 15 demoConfig)) ≡ₚ
    [(1%nat, "failed to get the vmss update response: %v"%string, "quota exceeded"%string)].
Proof.
  split; [left; by eexists|].
  destruct (planScale demoWorld 15 demoConfig []) as [tr0 [pl|o]] eqn:Hplan;
    [|vm_compute in Hplan; discriminate].
  destruct (Scale_joins_all_executors demoWorld 15 demoConfig tr0 pl _ _ Hplan
              (Scale_seq_exec demoWorld 15 demoConfig)) as [Hout _].
  vm_compute in Hplan. injection Hplan as <- <-.
  destruct (Hout eq_refl) as (Ho & evs & Htr & _ & Hreq & _ & Hlogs).
  split; [exact Ho|]. split; [rewrite Htr, requestsOf_app; exact Hreq|].
  rewrite Htr, logsOf_app. exact Hlogs.
Defined.

(** ** Scale-in: order of the phases *)

(** C5. In every execution of the scale-in branch the trace is: the
    capacity queries; then the instance listings, one per scale set in
    order when the collection completes; then, only if the collection
    succeeded, the pre-scale-in tasks; then, only if these and the
    correlation succeeded, the events of the delete executors, each of
    which has issued its request once and has ended; and last the
    post-scale-in tasks. An error of the collection or of the
    pre-scale-in tasks ends [Scale] with that error and without any
    request. *)
Theorem scaleIn_phases_ordered w count config tr0 pl tr o :
  planScale w count config [] = (tr0, inl pl) ->
  direction pl = "in"%string ->
  Scale_exec w count config tr o ->
  Forall isGet tr0 /\
  exists trc r,
    collectLoop w (resourceGroupList pl) 0 (vmScaleSetList pl) [] tr0 = (tr0 ++ trc, r) /\
    Forall isList trc /\
    match r with
    | inr oc =>
        tr = tr0 ++ trc /\ requestsOf tr = [] /\ o = oc /\
        exists err, oc = Returned (Some err)
    | inl remoteIDs =>
        trc = zip_with EvList (resourceGroupList pl) (vmScaleSetList pl) /\
        match RunPreScaleInTasksWithRemoteCheck w config remoteIDs (num pl) with
        | inr err =>
            tr = tr0 ++ trc ++ [EvPreScaleIn remoteIDs (num pl)] /\
            requestsOf tr = [] /\
            o = Returned (Some ("failed to perform pre-scale Nomad scale in tasks: " +:+ err)%string)
        | inl ids =>
            match correlate w (vmScaleSetList pl) ids ∅ with
            | inr err =>
                tr = tr0 ++ trc ++ [EvPreScaleIn remoteIDs (num pl)] /\
                requestsOf tr = [] /\
                o = Returned (Some err)
            | inl instanceIDs =>
                exists evs,
                  tr = tr0 ++ trc ++ [EvPreScaleIn remoteIDs (num pl)] ++ evs
                         ++ [EvPostScaleIn ids] /\
                  Forall isExecutorEvent evs /\
                  requestsOf evs ≡ₚ
                    dispatched (scaleInLoop (resourceGroupList pl) instanceIDs 0
                                            (vmScaleSetList pl)) /\
                  donesOf evs ≡ₚ
                    (dispatched (scaleInLoop (resourceGroupList pl) instanceIDs 0
                                             (vmScaleSetList pl))).*1 /\
                  o = postOutcome w config ids
            end
        end
    end.
Proof.
  intros Hplan Hdir Hexec.
  destruct (planScale_in_range _ _ _ _ _ Hplan) as (Hlen & _ & Hget).
  split; [done|].
  pose proof (Scale_exec_in _ _ _ _ _ _ _ Hplan Hdir Hexec) as Hin.
  destruct (ScaleIn_exec_shape _ _ _ _ _ _ Hlen Hin) as (trc & r & Hcl & Hlist & Hshape).
  exists trc, r. split_and!; [done | done |].
  assert (Hq : requestsOf (tr0 ++ trc) = []).
  { by rewrite requestsOf_app, requestsOf_gets, requestsOf_lists. }
  destruct r as [remoteIDs|oc].
  - destruct Hshape as [Hz Hshape]. split; [done|].
    destruct (RunPreScaleInTasksWithRemoteCheck w config remoteIDs (num pl)) as [ids|err].
    + destruct (correlate w (vmScaleSetList pl) ids ∅) as [instanceIDs|err]; [done|].
      destruct Hshape as [-> ->]. split_and!; [done | | done].
      by rewrite app_assoc, requestsOf_app, Hq.
    + destruct Hshape as [-> ->]. split_and!; [done | | done].
      by rewrite app_assoc, requestsOf_app, Hq.
  - destruct Hshape as (-> & -> & Herr). done.
Qed.

Lemma scaleIn_phases_ordered_witness :
  exists evs,
    fst (Scale_seq demoWorld 9 demoConfig) =
      [EvGet "rg" "A"; EvGet "rg" "B"; EvGet "rg" "C"] ++
      [EvList "rg" "A"; EvList "rg" "B"; EvList "rg" "C"] ++
      [EvPreScaleIn ["A_0"; "A_1"; "B_0"; "B_1"; "C_0"; "C_1"]%string 3] ++
      evs ++
      [EvPostScaleIn (clearFirst ["A_0"; "A_1"; "B_0"; "B_1"; "C_0"; "C_1"]%string 3)].
Proof.
  destruct (planScale demoWorld 9 demoConfig []) as [tr0 [pl|o]] eqn:Hplan;
    [|vm_compute in Hplan; discriminate].
  assert (Hdir : direction pl = "in"%string).
  { vm_compute in Hplan. by injection Hplan as <- <-. }
  destruct (scaleIn_phases_ordered demoWorld 9 demoConfig tr0 pl _ _ Hplan Hdir
              (Scale_seq_exec demoWorld 9 demoConfig)) as (_ & trc & r & Hcl & _ & Hshape).
  vm_compute in Hplan. injection Hplan as <- <-.
  vm_compute in Hcl. injection Hcl as <- <-.
  vm_compute in Hshape. destruct Hshape as (_ & evs & Htr & _).
  exists evs. vm_compute. exact Htr.
Defined.

(** ** Scale-in: identifiers the correlation cannot read *)

Lemma LastIndex_none s c : ~ contains s c -> LastIndex s c = -1.
Proof.
  unfold contains. induction s as [|a s IH]; simpl; [done|].
  intros Hno. rewrite IH by tauto. simpl.
  destruct (Ascii.eqb_spec a c) as [->|]; [tauto | done].
Qed.

Lemma LastIndex_bound s c : -1 <= LastIndex s c < Z.of_nat (String.length s).
Proof.
  induction s as [|a s IH]; simpl; [lia|].
  destruct (Z.eqb_spec (LastIndex s c) (-1)); [destruct (Ascii.eqb a c)|]; lia.
Qed.

Lemma correlate_malformed w vml ids :
  forall instanceIDs node,
    node ∈ ids -> LastIndex (RemoteResourceID node) "_" = -1 ->
    correlate w vml ids instanceIDs = inr "failed to get instance-id from remoteId"%string.
Proof.
  induction ids as [|n ids IH]; intros m node Hin Hidx; [by apply elem_of_nil in Hin|].
  simpl. destruct (Z.eqb_spec (LastIndex (RemoteResourceID n) "_") (-1)) as [|Hne]; [done|].
  apply elem_of_cons in Hin as [->|Hin]; [done|]. by eapply IH.
Qed.

(** C6. If the pre-scale-in tasks return a node whose remote id has no
    ["_"], every execution of the scale-in ends with the error "failed to
    get instance-id from remoteId" right after the pre-scale-in tasks: no
    request was issued and the post-scale-in tasks are not run, whatever
    the other ids are. *)
Theorem malformed_id_aborts w count config tr0 pl trc remoteIDs ids node tr o :
  planScale w count config [] = (tr0, inl pl) ->
  direction pl = "in"%string ->
  collectLoop w (resourceGroupList pl) 0 (vmScaleSetList pl) [] tr0 = (trc, inl remoteIDs) ->
  RunPreScaleInTasksWithRemoteCheck w config remoteIDs (num pl) = inl ids ->
  node ∈ ids ->
  ~ contains (RemoteResourceID node) "_" ->
  Scale_exec w count config tr o ->
  o = Returned (Some "failed to get instance-id from remoteId"%string) /\
  tr = trc ++ [EvPreScaleIn remoteIDs (num pl)] /\
  requestsOf tr = [] /\
  (forall ids', EvPostScaleIn ids' ∉ tr).
Proof.
  intros Hplan Hdir Hcl Hpre Hin Hno Hexec.
  destruct (planScale_in_range _ _ _ _ _ Hplan) as (Hlen & _ & Hget).
  pose proof (Scale_exec_in _ _ _ _ _ _ _ Hplan Hdir Hexec) as Hexec'.
  destruct (ScaleIn_exec_shape _ _ _ _ _ _ Hlen Hexec') as (trc' & r & Hcl' & Hlist & Hshape).
  rewrite Hcl in Hcl'. injection Hcl' as -> <-.
  destruct Hshape as [_ Hshape]. rewrite Hpre in Hshape.
  rewrite (correlate_malformed w _ ids ∅ node Hin (LastIndex_none _ _ Hno)) in Hshape.
  destruct Hshape as (-> & ->). rewrite <- app_assoc.
  split_and!; [done | done | |].
  { by rewrite !requestsOf_app, requestsOf_gets, requestsOf_lists. }
  intros ids' Hel. rewrite !elem_of_app in Hel.
  destruct Hel as [Hel|[Hel|Hel]].
  - rewrite Forall_forall in Hget. by apply Hget in Hel.
  - rewrite Forall_forall in Hlist. by apply Hlist in Hel.
  - by apply list_elem_of_singleton in Hel.
Qed.

Lemma malformed_id_aborts_witness :
  snd (Scale_seq malformedWorld 9 demoConfig)
    = Returned (Some "failed to get instance-id from remoteId"%string) /\
  requestsOf (fst (Scale_seq malformedWorld 9 demoConfig)) = [].
Proof.
  destruct (planScale malformedWorld 9 demoConfig []) as [tr0 [pl|o]] eqn:Hplan;
    [|vm_compute in Hplan; discriminate].
  pose proof Hplan as Hplan'. vm_compute in Hplan'. injection Hplan' as <- <-.
  set (bogus := {| NomadNodeID := "n2"; RemoteResourceID := "bogus" |}).
  assert (Hno : ~ contains (RemoteResourceID bogus) "_").
  { unfold contains. simpl. intros H.
    repeat (destruct H as [H|H]; [discriminate H|]). exact H. }
  assert (Hin : bogus ∈ [ {| NomadNodeID := "n1"; RemoteResourceID := "A_0" |}; bogus ])
    by set_solver.
  destruct (malformed_id_aborts malformedWorld 9 demoConfig _ _
              ([EvGet "rg" "A"; EvGet "rg" "B"; EvGet "rg" "C";
                EvList "rg" "A"; EvList "rg" "B"; EvList "rg" "C"])
              ["A_0"; "A_1"; "B_0"; "B_1"; "C_0"; "C_1"]%string
              _ bogus _ _ Hplan eq_refl eq_refl eq_refl Hin Hno
              (Scale_seq_exec malformedWorld 9 demoConfig))
    as (Ho & _ & Hq & _).
  split; [exact Ho | exact Hq].
Defined.

(** ** Scale-in: identifiers of no configured scale set *)

Lemma LastIndex_some s c : contains s c -> LastIndex s c <> -1.
Proof.
  unfold contains. induction s as [|a s IH]; simpl; [done|].
  pose proof (LastIndex_bound s c).
  intros [->|Hin].
  - rewrite Ascii.eqb_refl. destruct (Z.eqb_spec (LastIndex s c) (-1)); lia.
  - destruct (Z.eqb_spec (LastIndex s c) (-1)); [by apply IH in Hin | lia].
Qed.

Lemma matchLoop_unmatched w prefix instanceID vml :
  forall instanceIDs,
    (forall v, v ∈ vml -> EqualFold w prefix v = false) ->
    matchLoop w prefix instanceID vml instanceIDs = instanceIDs.
Proof.
  induction vml as [|v vml IH]; intros m Hno; [done|].
  simpl. rewrite (Hno v) by set_solver. apply IH. intros v' ?. apply Hno. set_solver.
Qed.

Lemma correlate_skip w vml node ids1 ids2 :
  LastIndex (RemoteResourceID node) "_" <> -1 ->
  (forall v, v ∈ vml ->
     EqualFold w (sliceTo (RemoteResourceID node)
                          (Z.to_nat (LastIndex (RemoteResourceID node) "_"))) v = false) ->
  forall instanceIDs,
    correlate w vml (ids1 ++ node :: ids2) instanceIDs
      = correlate w vml (ids1 ++ ids2) instanceIDs.
Proof.
  intros Hidx Hno. induction ids1 as [|n ids1 IH]; intros m; simpl.
  - destruct (Z.eqb_spec (LastIndex (RemoteResourceID node) "_") (-1)); [done|].
    by rewrite matchLoop_unmatched.
  - destruct (_ =? -1); [done | apply IH].
Qed.

(** C10. A cleared remote id that has a ["_"] but whose prefix matches
    no configured scale set under [EqualFold] changes nothing in the
    correlation: the delete requests are those of the other cleared ids,
    no error is raised for it, and [Scale] returns what the post-scale-in
    tasks return, [nil] when they succeed. *)
Theorem unmatched_id_skipped w count config tr0 pl trc remoteIDs ids1 node ids2
    instanceIDs tr o :
  planScale w count config [] = (tr0, inl pl) ->
  direction pl = "in"%string ->
  collectLoop w (resourceGroupList pl) 0 (vmScaleSetList pl) [] tr0 = (trc, inl remoteIDs) ->
  RunPreScaleInTasksWithRemoteCheck w config remoteIDs (num pl)
    = inl (ids1 ++ node :: ids2) ->
  contains (RemoteResourceID node) "_" ->
  (forall v, v ∈ vmScaleSetList pl ->
     EqualFold w (sliceTo (RemoteResourceID node)
                          (Z.to_nat (LastIndex (RemoteResourceID node) "_"))) v = false) ->
  correlate w (vmScaleSetList pl) (ids1 ++ ids2) ∅ = inl instanceIDs ->
  Scale_exec w count config tr o ->
  correlate w (vmScaleSetList pl) (ids1 ++ node :: ids2) ∅ = inl instanceIDs /\
  o = postOutcome w config (ids1 ++ node :: ids2) /\
  (RunPostScaleInTasks w config (ids1 ++ node :: ids2) = None -> o = Returned None) /\
  exists evs,
    tr = trc ++ [EvPreScaleIn remoteIDs (num pl)] ++ evs
           ++ [EvPostScaleIn (ids1 ++ node :: ids2)] /\
    Forall isExecutorEvent evs /\
    requestsOf evs ≡ₚ
      dispatched (scaleInLoop (resourceGroupList pl) instanceIDs 0 (vmScaleSetList pl)).
Proof.
  intros Hplan Hdir Hcl Hpre Hsep Hno Hcorr Hexec.
  assert (Hcorr' : correlate w (vmScaleSetList pl) (ids1 ++ node :: ids2) ∅ = inl instanceIDs).
  { rewrite correlate_skip; [done | by apply LastIndex_some | done]. }
  destruct (planScale_in_range _ _ _ _ _ Hplan) as (Hlen & _ & _).
  pose proof (Scale_exec_in _ _ _ _ _ _ _ Hplan Hdir Hexec) as Hexec'.
  destruct (ScaleIn_exec_shape _ _ _ _ _ _ Hlen Hexec') as (trc' & r & Hcl' & _ & Hshape).
  rewrite Hcl in Hcl'. injection Hcl' as -> <-.
  destruct Hshape as [_ Hshape]. rewrite Hpre, Hcorr' in Hshape.
  destruct Hshape as (evs & -> & Hevs & Hreq & _ & ->).
  split_and!; [done | done | |].
  - intros Hpost. unfold postOutcome. by rewrite Hpost.
  - exists evs. rewrite <- !app_assoc. done.
Qed.

Lemma unmatched_id_skipped_witness :
  snd (Scale_seq strangerWorld 9 demoConfig) = Returned None /\
  exists evs,
    fst (Scale_seq strangerWorld 9 demoConfig) =
      [EvGet "rg" "A"; EvGet "rg" "B"; EvGet "rg" "C";
       EvList "rg" "A"; EvList "rg" "B"; EvList "rg" "C"] ++
      [EvPreScaleIn ["A_0"; "A_1"; "B_0"; "B_1"; "C_0"; "C_1"]%string 3] ++ evs ++
      [EvPostScaleIn [ {| NomadNodeID := "n1"; RemoteResourceID := "A_0" |};
                       {| NomadNodeID := "n2"; RemoteResourceID := "other_7" |} ]] /\
    requestsOf evs ≡ₚ [(0%nat, ReqDeleteInstances "rg" "A" ["0"%string])].
Proof.
  destruct (planScale strangerWorld 9 demoConfig []) as [tr0 [pl|o]] eqn:Hplan;
    [|vm_compute in Hplan; discriminate].
  pose proof Hplan as Hplan'. vm_compute in Hplan'. injection Hplan' as <- <-.
  set (other := {| NomadNodeID := "n2"; RemoteResourceID := "other_7" |}).
  set (first := {| NomadNodeID := "n1"; RemoteResourceID := "A_0" |}).
  assert (Hsep : contains (RemoteResourceID other) "_").
  { unfold contains. simpl. tauto. }
  assert (Hno : forall v, v ∈ ["A"; "B"; "C"]%string ->
            EqualFold strangerWorld
              (sliceTo (RemoteResourceID other)
                       (Z.to_nat (LastIndex (RemoteResourceID other) "_"))) v = false).
  { intros v Hv.
    repeat (apply elem_of_cons in Hv as [->|Hv]; [reflexivity|]).
    by apply elem_of_nil in Hv. }
  assert (Hcorr : correlate strangerWorld ["A"; "B"; "C"]%string ([first] ++ []) ∅
                    = inl {[ "A"%string := ["0"%string] ]}).
  { reflexivity. }
  destruct (unmatched_id_skipped strangerWorld 9 demoConfig _ _
              ([EvGet "rg" "A"; EvGet "rg" "B"; EvGet "rg" "C";
                EvList "rg" "A"; EvList "rg" "B"; EvList "rg" "C"])
              ["A_0"; "A_1"; "B_0"; "B_1"; "C_0"; "C_1"]%string
              [first] other [] _ _ _ Hplan eq_refl eq_refl eq_refl Hsep Hno Hcorr
              (Scale_seq_exec strangerWorld 9 demoConfig))
    as (_ & _ & Ho & evs & Htr & _ & Hreq).
  split; [exact (Ho eq_refl)|]. exists evs. split; [exact Htr|].
  rewrite Hreq. vm_compute. reflexivity.
Defined.

(** ** The two configuration lists *)

Lemma planScale_no_panic w count config s1 s2 :
  config !! configKeyResourceGroupList = Some s1 ->
  config !! configKeyVMSSList = Some s2 ->
  (length (Split s2 ",") <= length (Split s1 ","))%nat ->
  snd (planScale w count config []) <> inr Panicked.
Proof.
  intros H1 H2 Hlen. unfold planScale. rewrite H1, H2.
  destruct (count =? _); [simpl; discriminate|]. unfold bind.
  pose proof (totalCapacityLoop_no_panic w (Split s1 ",") (Split s2 ",") 0 0 []
                ltac:(simpl; lia)) as Hnp.
  destruct (totalCapacityLoop _ _ _ _ _ _) as [tr [total|o]]; [|simpl in *; congruence].
  destruct (calculateScaleDirection total count) as [m d].
  unfold Int64.quot, Int64.rem. pose proof (Split_length s2 ",").
  destruct (Z.eqb_spec (Z.of_nat (length (Split s2 ","))) 0); [lia|].
  simpl. discriminate.
Qed.

Lemma Scale_exec_returns w count config tr o :
  snd (planScale w count config []) <> inr Panicked ->
  Scale_exec w count config tr o -> o <> Panicked.
Proof.
  intros Hnp Hexec.
  destruct Hexec as [tr o Hp | tr0 pl tr o Hp _ Hout | tr0 pl tr o Hp _ Hin
                    | tr0 pl Hp _ _].
  - rewrite Hp in Hnp. simpl in Hnp. congruence.
  - destruct (planScale_in_range _ _ _ _ _ Hp) as (Hlen & _ & _).
    by destruct (ScaleOut_exec_shape _ _ _ _ _ Hlen Hout) as [-> _].
  - destruct (planScale_in_range _ _ _ _ _ Hp) as (Hlen & _ & _).
    destruct (ScaleIn_exec_shape _ _ _ _ _ _ Hlen Hin) as (trc & r & _ & _ & Hshape).
    destruct r as [remoteIDs|oc].
    + destruct Hshape as [_ Hshape].
      destruct (RunPreScaleInTasksWithRemoteCheck w config remoteIDs (num pl)) as [ids|err].
      * destruct (correlate w (vmScaleSetList pl) ids ∅).
        -- destruct Hshape as (evs & _ & _ & _ & _ & ->). unfold postOutcome.
           by destruct (RunPostScaleInTasks w config ids).
        -- by destruct Hshape as [_ ->].
      * by destruct Hshape as [_ ->].
    + by destruct Hshape as (_ & -> & err & ->).
  - done.
Qed.

(** The loops of [Scale] read the resource-group list only at the
    indices of the scale sets. *)
Lemma totalCapacityLoop_scopes w rgl rgl' vml :
  forall idx total tr,
    (forall i, (i < length vml)%nat -> rgl !! (idx + i)%nat = rgl' !! (idx + i)%nat) ->
    totalCapacityLoop w rgl idx vml total tr = totalCapacityLoop w rgl' idx vml total tr.
Proof.
  induction vml as [|v vml IH]; intros idx total tr Hagree; [done|].
  cbn [totalCapacityLoop]. run_unfold.
  pose proof (Hagree 0%nat ltac:(simpl; lia)) as H0. rewrite Nat.add_0_r in H0.
  rewrite <- H0. destruct (rgl !! idx) as [rg|]; [|done].
  destruct (vmss_Get w rg v); [|done].
  apply IH. intros i Hi. replace (S idx + i)%nat with (idx + S i)%nat by lia.
  apply Hagree. simpl. lia.
Qed.

Lemma collectLoop_scopes w rgl rgl' vml :
  forall idx remoteIDs tr,
    (forall i, (i < length vml)%nat -> rgl !! (idx + i)%nat = rgl' !! (idx + i)%nat) ->
    collectLoop w rgl idx vml remoteIDs tr = collectLoop w rgl' idx vml remoteIDs tr.
Proof.
  induction vml as [|v vml IH]; intros idx remoteIDs tr Hagree; [done|].
  cbn [collectLoop]. run_unfold.
  pose proof (Hagree 0%nat ltac:(simpl; lia)) as H0. rewrite Nat.add_0_r in H0.
  rewrite <- H0. destruct (rgl !! idx) as [rg|]; [|done].
  destruct (getRemoteIds w rg v remoteIDs tr) as [tr' [[remoteIDs'|err]|o]]; [|done..].
  apply IH. intros i Hi. replace (S idx + i)%nat with (idx + S i)%nat by lia.
  apply Hagree. simpl. lia.
Qed.

Lemma scaleOutLoop_scopes rgl rgl' modulo vml :
  forall reminder idx,
    (forall i, (i < length vml)%nat -> rgl !! (idx + i)%nat = rgl' !! (idx + i)%nat) ->
    scaleOutLoop rgl modulo reminder idx vml = scaleOutLoop rgl' modulo reminder idx vml.
Proof.
  induction vml as [|v vml IH]; intros reminder idx Hagree; [done|].
  cbn [scaleOutLoop].
  pose proof (Hagree 0%nat ltac:(simpl; lia)) as H0. rewrite Nat.add_0_r in H0.
  rewrite <- H0.
  assert (forall r, scaleOutLoop rgl modulo r (S idx) vml
                    = scaleOutLoop rgl' modulo r (S idx) vml) as Hrest.
  { intros r. apply IH. intros i Hi.
    replace (S idx + i)%nat with (idx + S i)%nat by lia. apply Hagree. simpl. lia. }
  destruct (splitStep modulo reminder) as [count reminder'].
  by rewrite Hrest.
Qed.

Lemma scaleInLoop_scopes rgl rgl' instanceIDs vml :
  forall idx,
    (forall i, (i < length vml)%nat -> rgl !! (idx + i)%nat = rgl' !! (idx + i)%nat) ->
    scaleInLoop rgl instanceIDs idx vml = scaleInLoop rgl' instanceIDs idx vml.
Proof.
  induction vml as [|v vml IH]; intros idx Hagree; [done|].
  cbn [scaleInLoop].
  pose proof (Hagree 0%nat ltac:(simpl; lia)) as H0. rewrite Nat.add_0_r in H0.
  rewrite <- H0, (IH (S idx)); [done|].
  intros i Hi. replace (S idx + i)%nat with (idx + S i)%nat by lia.
  apply Hagree. simpl. lia.
Qed.

(** [Scale] up to the [switch] on two configurations whose
    resource-group lists agree at the indices of the scale sets: the same
    calls and the same plan, the resource-group list apart. *)
Lemma planScale_scopes w count config config' s1 s1' s2 :
  config !! configKeyResourceGroupList = Some s1 ->
  config' !! configKeyResourceGroupList = Some s1' ->
  config !! configKeyVMSSList = Some s2 ->
  config' !! configKeyVMSSList = Some s2 ->
  (forall i, (i < length (Split s2 ","))%nat -> Split s1 "," !! i = Split s1' "," !! i) ->
  planScale w count config' [] =
    match planScale w count config [] with
    | (tr, inl pl) =>
        (tr, inl {| resourceGroupList := Split s1' ",";
                    vmScaleSetList := vmScaleSetList pl;
                    totalVMSSCapacity := totalVMSSCapacity pl;
                    num := num pl; direction := direction pl;
                    modulo := modulo pl; reminder := reminder pl |})
    | (tr, inr o) => (tr, inr o)
    end.
Proof.
  intros H1 H1' H2 H2' Hagree. unfold planScale. rewrite H1, H1', H2, H2'.
  destruct (count =? StrategyActionMetaValueDryRunCount w); [done|].
  unfold bind.
  rewrite <- (totalCapacityLoop_scopes w (Split s1 ",") (Split s1' ",")) by done.
  destruct (totalCapacityLoop w (Split s1 ",") 0 (Split s2 ",") 0 []) as [tr [total|o]];
    [|done].
  destruct (calculateScaleDirection total count) as [n d].
  by destruct (Int64.quot n (Z.of_nat (length (Split s2 ",")))),
             (Int64.rem n (Z.of_nat (length (Split s2 ",")))).
Qed.

(** The executions of [Scale] on two such configurations are the same,
    as long as the Nomad tasks, which receive the configuration, answer
    alike on both. *)
Lemma Scale_exec_scopes w count config config' s1 s1' s2 tr o :
  config !! configKeyResourceGroupList = Some s1 ->
  config' !! configKeyResourceGroupList = Some s1' ->
  config !! configKeyVMSSList = Some s2 ->
  config' !! configKeyVMSSList = Some s2 ->
  (forall i, (i < length (Split s2 ","))%nat -> Split s1 "," !! i = Split s1' "," !! i) ->
  (forall remoteIDs n,
     RunPreScaleInTasksWithRemoteCheck w config remoteIDs n
       = RunPreScaleInTasksWithRemoteCheck w config' remoteIDs n) ->
  (forall ids, RunPostScaleInTasks w config ids = RunPostScaleInTasks w config' ids) ->
  Scale_exec w count config tr o -> Scale_exec w count config' tr o.
Proof.
  intros H1 H1' H2 H2' Hagree Hpre Hpost Hexec.
  pose proof (planScale_scopes w count config config' s1 s1' s2 H1 H1' H2 H2' Hagree)
    as Hplan'.
  assert (forall tr0 pl, planScale w count config [] = (tr0, inl pl) ->
            resourceGroupList pl = Split s1 "," /\ vmScaleSetList pl = Split s2 ",")
    as Hlists.
  { intros tr0 pl Hp. apply planScale_inl in Hp as (_ & (t1 & t2 & Ht1 & Ht2 & -> & ->) & _).
    rewrite H1 in Ht1. rewrite H2 in Ht2. by injection Ht1 as <-; injection Ht2 as <-. }
  destruct Hexec as [tr o Hp | tr0 pl tr o Hp Hdir Hout | tr0 pl tr o Hp Hdir Hin
                    | tr0 pl Hp Hd1 Hd2]; rewrite Hp in Hplan'.
  - by apply Scale_stopped.
  - destruct (Hlists _ _ Hp) as [Hrgl Hvml].
    eapply Scale_out; [exact Hplan' | exact Hdir |].
    assert (scaleOutLoop (Split s1' ",") (modulo pl) (reminder pl) 0 (vmScaleSetList pl)
            = scaleOutLoop (resourceGroupList pl) (modulo pl) (reminder pl) 0
                           (vmScaleSetList pl)) as Hloop.
    { symmetry. rewrite Hrgl. apply scaleOutLoop_scopes. by rewrite Hvml. }
    destruct Hout as [p Hrun Hj | p Hrun Hp'].
    + apply ScaleOut_joined; [|done]. cbn [resourceGroupList vmScaleSetList modulo reminder].
      by rewrite Hloop.
    + apply ScaleOut_panicked; [|done].
      cbn [resourceGroupList vmScaleSetList modulo reminder]. by rewrite Hloop.
  - destruct (Hlists _ _ Hp) as [Hrgl Hvml].
    eapply Scale_in; [exact Hplan' | exact Hdir |].
    set (pl' := {| resourceGroupList := Split s1' ","; vmScaleSetList := vmScaleSetList pl;
                   totalVMSSCapacity := totalVMSSCapacity pl; num := num pl;
                   direction := direction pl; modulo := modulo pl;
                   reminder := reminder pl |}).
    assert (scaleInPrepare w config' pl' tr0 = scaleInPrepare w config pl tr0) as Hprep.
    { unfold scaleInPrepare. run_unfold. cbn [resourceGroupList vmScaleSetList num pl'].
      rewrite Hrgl.
      rewrite <- (collectLoop_scopes w (Split s1 ",") (Split s1' ",")) by (by rewrite Hvml).
      destruct (collectLoop w (Split s1 ",") 0 (vmScaleSetList pl) [] tr0)
        as [trc [remoteIDs|oc]]; [|done].
      rewrite <- Hpre.
      destruct (RunPreScaleInTasksWithRemoteCheck w config remoteIDs (num pl)) as [ids|err];
        [|done].
      destruct (correlate w (vmScaleSetList pl) ids ∅) as [instanceIDs|err]; [|done].
      by rewrite (scaleInLoop_scopes (Split s1 ",") (Split s1' ",")) by (by rewrite Hvml). }
    assert (forall ids tr1, scaleInFinish w config' ids tr1 = scaleInFinish w config ids tr1)
      as Hfin.
    { intros ids tr1. unfold scaleInFinish. run_unfold. by rewrite Hpost. }
    destruct Hin as [tr o Hab | tr1 actions ids p Hprep0 Hrun Hj | tr1 actions ids p Hprep0 Hrun Hp'].
    + apply ScaleIn_aborted. by rewrite Hprep.
    + rewrite <- (Hfin ids (trace p)).
      eapply ScaleIn_joined; [by rewrite Hprep | exact Hrun | exact Hj].
    + eapply ScaleIn_panicked; [by rewrite Hprep | exact Hrun | exact Hp'].
  - by apply Scale_default with (pl := {| resourceGroupList := Split s1' ",";
                                          vmScaleSetList := vmScaleSetList pl;
                                          totalVMSSCapacity := totalVMSSCapacity pl;
                                          num := num pl; direction := direction pl;
                                          modulo := modulo pl; reminder := reminder pl |}).
Qed.

(** Every execution of [Scale] starts with the calls made up to the
    [switch]. *)
Lemma Scale_exec_prefix w count config tr o :
  Scale_exec w count config tr o ->
  exists evs, tr = fst (planScale w count config []) ++ evs.
Proof.
  intros Hexec.
  destruct Hexec as [tr o Hp | tr0 pl tr o Hp Hdir Hout | tr0 pl tr o Hp Hdir Hin
                    | tr0 pl Hp Hd1 Hd2]; rewrite Hp; cbn [fst].
  - exists []. by rewrite app_nil_r.
  - destruct (planScale_in_range _ _ _ _ _ Hp) as (Hlen & _).
    destruct (ScaleOut_exec_shape _ _ _ _ _ Hlen Hout) as (_ & evs & -> & _).
    by exists evs.
  - destruct (planScale_in_range _ _ _ _ _ Hp) as (Hlen & _).
    destruct (ScaleIn_exec_shape _ _ _ _ _ _ Hlen Hin) as (trc & r & _ & _ & Hshape).
    destruct r as [remoteIDs|oc]; [|destruct Hshape as (-> & _); by exists trc].
    destruct Hshape as [_ Hshape].
    destruct (RunPreScaleInTasksWithRemoteCheck w config remoteIDs (num pl)) as [ids|err];
      [|destruct Hshape as [-> _]; by eexists].
    destruct (correlate w (vmScaleSetList pl) ids ∅);
      [destruct Hshape as (evs & -> & _) | destruct Hshape as [-> _]]; by eexists.
  - exists []. by rewrite app_nil_r.
Qed.

Lemma totalCapacityLoop_first w rg rgl v vml total tr :
  exists rest r,
    totalCapacityLoop w (rg :: rgl) 0 (v :: vml) total tr = (tr ++ EvGet rg v :: rest, r).
Proof.
  cbn [totalCapacityLoop]. run_unfold.
  change ((rg :: rgl) !! 0%nat) with (Some rg). cbn beta iota.
  destruct (vmss_Get w rg v) as [capacity|err]; [|by eexists [], _].
  destruct (totalCapacityLoop w (rg :: rgl) 1 vml (Int64.add total capacity)
                              (tr ++ [EvGet rg v])) as [tr' r] eqn:Hloop.
  apply totalCapacityLoop_spec in Hloop as (evs & -> & _).
  exists evs, r. by rewrite <- app_assoc.
Qed.

(** With both lists in the configuration, whatever their lengths, the
    first thing [Scale] does is the capacity query of the first scale
    set. *)
Lemma Scale_exec_first_call w count config s1 s2 tr o :
  count <> StrategyActionMetaValueDryRunCount w ->
  config !! configKeyResourceGroupList = Some s1 ->
  config !! configKeyVMSSList = Some s2 ->
  Scale_exec w count config tr o ->
  exists rg v rest,
    Split s1 "," !! 0%nat = Some rg /\ Split s2 "," !! 0%nat = Some v /\
    tr = EvGet rg v :: rest.
Proof.
  intros Hdry H1 H2 Hexec.
  destruct (Scale_exec_prefix _ _ _ _ _ Hexec) as [evs ->].
  unfold planScale.
  destruct (Z.eqb_spec count (StrategyActionMetaValueDryRunCount w)); [done|].
  rewrite H1, H2.
  pose proof (Split_length s1 ",") as Hl1. pose proof (Split_length s2 ",") as Hl2.
  destruct (Split s1 ",") as [|rg rgl]; [simpl in Hl1; lia|].
  destruct (Split s2 ",") as [|v vml]; [simpl in Hl2; lia|].
  exists rg, v. unfold bind.
  destruct (totalCapacityLoop_first w rg rgl v vml 0 []) as (rest & r & ->).
  exists (rest ++ evs). split_and!; [done..|].
  destruct r as [total|oc]; [|done].
  destruct (calculateScaleDirection total count) as [m d].
  by destruct (Int64.quot m (Z.of_nat (length (v :: vml)))),
              (Int64.rem m (Z.of_nat (length (v :: vml)))).
Qed.

(** C9 as stated fails: two resource groups for one scale set, and
    [Scale] issues the update and returns [nil]. *)
Lemma Scale_accepts_longer_scope_list :
  length (Split "rg1,rg2" ",") <> length (Split "A" ",") /\
  exists tr,
    Scale_exec demoWorld 15 longScopeConfig tr (Returned None) /\
    requestsOf tr = [(0%nat, ReqUpdate "rg1" "A" 15)].
Proof.
  split; [simpl; lia|].
  pose proof (Scale_seq_exec demoWorld 15 longScopeConfig) as H.
  destruct (Scale_seq demoWorld 15 longScopeConfig) as [tr o] eqn:Hr.
  vm_compute in Hr. injection Hr as <- <-.
  eexists. split; [exact H | reflexivity].
Qed.

(** C9, amended. [Scale] never compares the lengths of the two lists.
    With a target count other than the dry-run value it fails before any
    call exactly when one of the two list parameters is missing from the
    configuration; with both lists there, whatever their lengths, its
    first action is the capacity query of the first scale set. It reads
    the resource-group list only at the indices of the scale sets: two
    configurations with the same scale sets whose resource-group lists
    agree on these entries have the same executions (as long as the Nomad
    tasks, which receive the configuration, answer alike on both), so
    the entries beyond the scale sets are ignored. When the
    resource-group list has at least as many entries as the scale-set
    list, every [resourceGroupList[idx]] is read within the list and
    [Scale] returns. *)
Theorem Scale_lists_not_compared w count config :
  (count <> StrategyActionMetaValueDryRunCount w ->
   config !! configKeyResourceGroupList = None \/ config !! configKeyVMSSList = None ->
   forall tr o,
     Scale_exec w count config tr o ->
     tr = [] /\
     exists key, o = Returned (Some ("required config param " +:+ key +:+ " not found")%string)) /\
  (forall tr err,
     Scale_exec w count config tr (Returned (Some err)) -> tr = [] ->
     config !! configKeyResourceGroupList = None \/ config !! configKeyVMSSList = None) /\
  (forall s1 s2,
     count <> StrategyActionMetaValueDryRunCount w ->
     config !! configKeyResourceGroupList = Some s1 ->
     config !! configKeyVMSSList = Some s2 ->
     forall tr o,
       Scale_exec w count config tr o ->
       exists rg v rest,
         Split s1 "," !! 0%nat = Some rg /\ Split s2 "," !! 0%nat = Some v /\
         tr = EvGet rg v :: rest) /\
  (forall config' s1 s1' s2,
     config !! configKeyResourceGroupList = Some s1 ->
     config' !! configKeyResourceGroupList = Some s1' ->
     config !! configKeyVMSSList = Some s2 ->
     config' !! configKeyVMSSList = Some s2 ->
     take (length (Split s2 ",")) (Split s1 ",")
       = take (length (Split s2 ",")) (Split s1' ",") ->
     (forall remoteIDs n,
        RunPreScaleInTasksWithRemoteCheck w config remoteIDs n
          = RunPreScaleInTasksWithRemoteCheck w config' remoteIDs n) ->
     (forall ids, RunPostScaleInTasks w config ids = RunPostScaleInTasks w config' ids) ->
     forall tr o, Scale_exec w count config tr o <-> Scale_exec w count config' tr o) /\
  (forall s1 s2,
     config !! configKeyResourceGroupList = Some s1 ->
     config !! configKeyVMSSList = Some s2 ->
     (length (Split s2 ",") <= length (Split s1 ","))%nat ->
     forall tr o, Scale_exec w count config tr o -> o <> Panicked).
Proof.
  split_and!.
  - intros Hdry Hmiss tr o Hexec.
    assert (Hplan : exists key, planScale w count config [] =
              ([], inr (Returned (Some ("required config param " +:+ key +:+ " not found")%string)))).
    { unfold planScale. destruct (Z.eqb_spec count (StrategyActionMetaValueDryRunCount w));
        [done|].
      destruct (config !! configKeyResourceGroupList) as [s1|]; [|by eexists].
      destruct Hmiss as [Hmiss | ->]; [done | by eexists]. }
    destruct Hplan as [key Hplan].
    destruct Hexec as [tr o Hp | tr0 pl tr o Hp _ _ | tr0 pl tr o Hp _ _ | tr0 pl Hp _ _];
      rewrite Hplan in Hp; [|discriminate..].
    injection Hp as <- <-. eauto.
  - intros tr err Hexec ->.
    destruct (config !! configKeyResourceGroupList) as [s1|] eqn:H1; [|by left].
    destruct (config !! configKeyVMSSList) as [s2|] eqn:H2; [|by right].
    exfalso.
    destruct (Z.eq_dec count (StrategyActionMetaValueDryRunCount w)) as [Hdry|Hdry].
    + assert (planScale w count config [] = ([], inr (Returned None))) as Hplan.
      { unfold planScale. by destruct (Z.eqb_spec count (StrategyActionMetaValueDryRunCount w)). }
      inversion Hexec as [tr o Hp | tr0 pl tr o Hp _ _ | tr0 pl tr o Hp _ _ | tr0 pl Hp _ _];
        rewrite Hplan in Hp; discriminate.
    + by destruct (Scale_exec_first_call _ _ _ _ _ _ _ Hdry H1 H2 Hexec)
        as (rg & v & rest & _ & _ & ?).
  - intros s1 s2 Hdry H1 H2 tr o Hexec. by eapply Scale_exec_first_call.
  - intros config' s1 s1' s2 H1 H1' H2 H2' Htake Hpre Hpost tr o.
    assert (forall i, (i < length (Split s2 ","))%nat ->
                      Split s1 "," !! i = Split s1' "," !! i) as Hagree.
    { intros i Hi. rewrite <- (lookup_take_lt (Split s1 ",") _ i Hi), Htake.
      by apply lookup_take_lt. }
    split.
    + by apply (Scale_exec_scopes w count config config' s1 s1' s2).
    + apply (Scale_exec_scopes w count config' config s1' s1 s2); try done.
      intros i Hi. symmetry. by apply Hagree.
  - intros s1 s2 H1 H2 Hlen tr o. apply Scale_exec_returns. by eapply planScale_no_panic.
Qed.

Lemma Scale_lists_not_compared_witness :
  snd (Scale_seq demoWorld 15 longScopeConfig) <> Panicked /\
  snd (Scale_seq demoWorld 15 ∅)
    = Returned (Some "required config param resource_group_list not found"%string) /\
  Scale_exec demoWorld 15
    {[ configKeyResourceGroupList := "rg1"%string; configKeyVMSSList := "A"%string ]}
    (fst (Scale_seq demoWorld 15 longScopeConfig))
    (snd (Scale_seq demoWorld 15 longScopeConfig)) /\
  exists rest, fst (Scale_seq demoWorld 15 longScopeConfig) = EvGet "rg1" "A" :: rest.
Proof.
  destruct (Scale_lists_not_compared demoWorld 15 longScopeConfig)
    as (_ & _ & Hfirst & Hsame & Hlong).
  destruct (Scale_lists_not_compared demoWorld 15 ∅) as (Hmiss & _).
  split_and!.
  - apply (Hlong "rg1,rg2"%string "A"%string eq_refl eq_refl ltac:(simpl; lia)
             _ _ (Scale_seq_exec demoWorld 15 longScopeConfig)).
  - destruct (Hmiss ltac:(simpl; lia) (or_introl eq_refl) _ _
                (Scale_seq_exec demoWorld 15 ∅)) as [_ [key Hkey]].
    reflexivity.
  - apply (Hsame
             {[ configKeyResourceGroupList := "rg1"%string; configKeyVMSSList := "A"%string ]}
             "rg1,rg2"%string "rg1"%string "A"%string);
      [reflexivity | reflexivity | reflexivity | reflexivity | reflexivity
      | reflexivity | reflexivity |].
    apply Scale_seq_exec.
  - destruct (Hfirst "rg1,rg2"%string "A"%string ltac:(simpl; lia) eq_refl eq_refl _ _
                (Scale_seq_exec demoWorld 15 longScopeConfig))
      as (rg & v & rest & Hrg & Hv & Htr).
    injection Hrg as <-. injection Hv as <-. by exists rest.
Defined.

(** ** Remote ids: format, then split at the last separator *)

Lemma LastIndex_format s i c :
  ~ contains i c -> LastIndex (s +:+ String c i) c = Z.of_nat (String.length s).
Proof.
  intros Hno. induction s as [|a s IH]; simpl.
  - rewrite (LastIndex_none _ _ Hno). simpl. by rewrite Ascii.eqb_refl.
  - rewrite IH. destruct (Z.eqb_spec (Z.of_nat (String.length s)) (-1)); lia.
Qed.

Lemma sliceTo_app s t : sliceTo (s +:+ t) (String.length s) = s.
Proof.
  induction s as [|a s IH]; simpl; [by destruct t | by rewrite IH].
Qed.

Lemma sliceFrom_app s t : sliceFrom (s +:+ t) (String.length s) = t.
Proof. induction s as [|a s IH]; simpl; [by destruct t | done]. Qed.

Lemma sliceFrom_app_S s c t : sliceFrom (s +:+ String c t) (S (String.length s)) = t.
Proof. induction s as [|a s IH]; simpl; [by destruct t | done]. Qed.

(** Splitting a formatted remote id at its last ["_"] gives back the
    scale-set name and the instance id. *)
Lemma formatRemoteID_split s i :
  ~ contains i "_" ->
  LastIndex (formatRemoteID s i) "_" = Z.of_nat (String.length s) /\
  sliceTo (formatRemoteID s i) (Z.to_nat (LastIndex (formatRemoteID s i) "_")) = s /\
  sliceFrom (formatRemoteID s i) (Z.to_nat (LastIndex (formatRemoteID s i) "_" + 1)) = i.
Proof.
  intros Hno. change (formatRemoteID s i) with (s +:+ String "_" i).
  rewrite LastIndex_format by done. split_and!.
  - done.
  - by rewrite Nat2Z.id, sliceTo_app.
  - replace (Z.to_nat (Z.of_nat (String.length s) + 1)) with (S (String.length s)) by lia.
    apply sliceFrom_app_S.
Qed.

Lemma matchLoop_single w prefix instanceID vml1 s vml2 instanceIDs :
  EqualFold w prefix s = true ->
  (forall v, v ∈ vml1 ++ vml2 -> EqualFold w prefix v = false) ->
  matchLoop w prefix instanceID (vml1 ++ s :: vml2) instanceIDs
    = <[s := (instanceIDs !!! s) ++ [instanceID]]> instanceIDs.
Proof.
  intros Hs Hno. revert instanceIDs.
  induction vml1 as [|v vml1 IH]; intros m; simpl.
  - rewrite Hs. by apply matchLoop_unmatched.
  - rewrite (Hno v) by (apply elem_of_cons; by left).
    apply IH. intros v' Hv'. apply Hno. apply elem_of_cons. by right.
Qed.

(** C4. A remote id is [vmScaleSet + "_" + instanceID]. For every
    scale-set name [s], with or without underscores, and every instance
    id [i] without underscore, the last ["_"] of the formatted id is the
    one inserted, the text before it is [s] and the text after it is [i];
    and when [s] is the one configured name that [EqualFold] matches with
    [s], the correlation of that id assigns exactly [i] to [s] and
    nothing to any other scale set. *)
Theorem remoteID_roundtrip w s i :
  ~ contains i "_" ->
  LastIndex (formatRemoteID s i) "_" = Z.of_nat (String.length s) /\
  sliceTo (formatRemoteID s i) (Z.to_nat (LastIndex (formatRemoteID s i) "_")) = s /\
  sliceFrom (formatRemoteID s i) (Z.to_nat (LastIndex (formatRemoteID s i) "_" + 1)) = i /\
  (forall vml1 vml2 nodeID,
     EqualFold w s s = true ->
     (forall v, v ∈ vml1 ++ vml2 -> EqualFold w s v = false) ->
     correlate w (vml1 ++ s :: vml2)
               [{| NomadNodeID := nodeID; RemoteResourceID := formatRemoteID s i |}] ∅
       = inl {[ s := [i] ]}).
Proof.
  intros Hno. destruct (formatRemoteID_split s i Hno) as (Hidx & Hpre & Hsuf).
  split_and!; [done | done | done |].
  intros vml1 vml2 nodeID Hrefl Hothers. simpl.
  destruct (Z.eqb_spec (LastIndex (formatRemoteID s i) "_") (-1)) as [Heq|_]; [lia|].
  rewrite Hpre, Hsuf, matchLoop_single by done.
  by rewrite lookup_total_empty.
Qed.

Lemma remoteID_roundtrip_witness :
  formatRemoteID "web_gpu" "3" = "web_gpu_3"%string /\
  sliceTo "web_gpu_3" (Z.to_nat (LastIndex "web_gpu_3" "_")) = "web_gpu"%string /\
  sliceFrom "web_gpu_3" (Z.to_nat (LastIndex "web_gpu_3" "_" + 1)) = "3"%string /\
  correlate demoWorld ["web"; "web_gpu"]%string
            [{| NomadNodeID := "n"; RemoteResourceID := "web_gpu_3" |}] ∅
    = inl {[ "web_gpu"%string := ["3"%string] ]}.
Proof.
  assert (Hno : ~ contains "3" "_").
  { unfold contains. simpl. intros [H|H]; [discriminate H | exact H]. }
  destruct (remoteID_roundtrip demoWorld "web_gpu" "3" Hno) as (_ & Hpre & Hsuf & Hcorr).
  split_and!; [reflexivity | exact Hpre | exact Hsuf |].
  apply (Hcorr ["web"%string] [] "n"%string eq_refl).
  intros v Hv. apply elem_of_cons in Hv as [->|Hv]; [reflexivity|].
  by apply elem_of_nil in Hv.
Defined.

(** ** Status aggregation *)

Lemma FormatInt_nonempty z : (0 < String.length (FormatInt z))%nat.
Proof.
  unfold FormatInt. destruct z as [|p|p]; simpl; [lia| |lia].
  pose proof (DecimalPos.Unsigned.to_uint_nonnil p).
  destruct (Pos.to_uint p); simpl; (done || lia).
Qed.

(** The accumulator of the loop on the digits of a decimal number. *)
Lemma of_uint_acc_ge d : forall acc, Z.pos acc <= Z.pos (Pos.of_uint_acc d acc).
Proof.
  induction d as [|d IH|d IH|d IH|d IH|d IH|d IH|d IH|d IH|d IH|d IH]; intros acc;
    cbn [Pos.of_uint_acc]; [lia|..];
    match goal with
    | |- _ <= Z.pos (Pos.of_uint_acc _ ?a) => specialize (IH a); lia
    end.
Qed.

Lemma parseUintLoop_acc d :
  forall acc,
    Z.pos (Pos.of_uint_acc d acc) <= 2 ^ 64 - 1 ->
    parseUintLoop (NilEmpty.string_of_uint d) (Z.pos acc)
      = NumOk (Z.pos (Pos.of_uint_acc d acc)).
Proof.
  induction d as [|d IH|d IH|d IH|d IH|d IH|d IH|d IH|d IH|d IH|d IH]; intros acc Hle;
    cbn [Pos.of_uint_acc NilEmpty.string_of_uint parseUintLoop] in *; [done|..];
    match goal with
    | |- context [digitOf ?c] =>
        let v := eval vm_compute in (digitOf c) in change (digitOf c) with v
    end;
    cbv beta iota;
    change ((2 ^ 64 - 1) / 10 + 1) with 1844674407370955162;
    match type of Hle with
    | Z.pos (Pos.of_uint_acc _ ?a) <= _ =>
        pose proof (of_uint_acc_ge d a) as Hge;
        destruct (Z.geb_spec (Z.pos acc) 1844674407370955162); [lia|];
        match goal with
        | |- (if ?n >? _ then _ else _) = _ =>
            replace n with (Z.pos a) by lia;
            destruct (Z.gtb_spec (Z.pos a) (2 ^ 64 - 1)); [lia|]
        end;
        apply IH; exact Hle
    end.
Qed.

(** On the decimal form of a number that fits [uint64], [ParseUint]
    returns the number. *)
Lemma ParseUint_to_uint p :
  Z.pos p <= 2 ^ 64 - 1 ->
  ParseUint (NilEmpty.string_of_uint (Pos.to_uint p)) = NumOk (Z.pos p).
Proof.
  intros Hle.
  pose proof (DecimalPos.Unsigned.of_to p) as Hof.
  pose proof (DecimalPos.Unsigned.to_uint_nonnil p) as Hnil.
  assert (forall d, Z.of_N (Pos.of_uint d) <= 2 ^ 64 - 1 ->
                    parseUintLoop (NilEmpty.string_of_uint d) 0
                      = NumOk (Z.of_N (Pos.of_uint d))) as Hloop.
  { clear. induction d as [|d IH|d IH|d IH|d IH|d IH|d IH|d IH|d IH|d IH|d IH]; intros Hle;
      cbn [Pos.of_uint NilEmpty.string_of_uint parseUintLoop] in *; [done|..];
      match goal with
      | |- context [digitOf ?c] =>
          let v := eval vm_compute in (digitOf c) in change (digitOf c) with v
      end;
      cbv beta iota; change (0 >=? (2 ^ 64 - 1) / 10 + 1) with false; cbv iota.
    all: match goal with
         | |- context [0 * 10 + ?k >? ?m] =>
             change (0 * 10 + k >? m) with false; cbv iota
         end.
    1: by apply IH.
    all: apply parseUintLoop_acc; exact Hle. }
  specialize (Hloop (Pos.to_uint p)). rewrite Hof in Hloop. specialize (Hloop Hle).
  unfold ParseUint.
  destruct (NilEmpty.string_of_uint (Pos.to_uint p)) eqn:Hs; [|exact Hloop].
  destruct (Pos.to_uint p); done.
Qed.

Lemma ParseInt_FormatInt z : Int64.in_range z -> ParseInt (FormatInt z) = z.
Proof.
  unfold Int64.in_range, Int64.min_int64, Int64.max_int64. intros Hr.
  unfold FormatInt. destruct z as [|p|p]; [reflexivity | |].
  - cbn [Z.to_int NilZero.string_of_int NilZero.string_of_uint].
    pose proof (ParseUint_to_uint p ltac:(lia)) as Hp.
    pose proof (DecimalPos.Unsigned.to_uint_nonnil p) as Hnil.
    unfold ParseInt.
    destruct (Pos.to_uint p) as [|d|d|d|d|d|d|d|d|d|d] eqn:Hd; [done|..];
      cbn [NilZero.string_of_uint NilEmpty.string_of_uint] in *;
      rewrite Hp; (destruct (Z.geb_spec (Z.pos p) (2 ^ 63)); [lia | done]).
  - cbn [Z.to_int NilZero.string_of_int].
    pose proof (ParseUint_to_uint p ltac:(lia)) as Hp.
    pose proof (DecimalPos.Unsigned.to_uint_nonnil p) as Hnil.
    unfold ParseInt.
    replace (NilZero.string_of_uint (Pos.to_uint p))
      with (NilEmpty.string_of_uint (Pos.to_uint p))
      by (by destruct (Pos.to_uint p)).
    rewrite Hp. destruct (Z.gtb_spec (Z.pos p) (2 ^ 63)); [lia | done].
Qed.

Lemma maxTime_ge a l : a <= maxTime a l.
Proof.
  unfold maxTime. revert a. induction l as [|x l IH]; intros a; simpl; [lia|].
  specialize (IH (Z.max a x)). lia.
Qed.

Lemma maxTime_max a b l : b <= a -> maxTime a l = Z.max a (maxTime b l).
Proof.
  unfold maxTime. revert a b. induction l as [|x l IH]; intros a b Hle; simpl; [lia|].
  rewrite (IH (Z.max a x) (Z.max b x)) by lia.
  pose proof (maxTime_ge (Z.max b x) l). unfold maxTime in *. lia.
Qed.

Lemma maxTime_app a l1 l2 : maxTime a (l1 ++ l2) = maxTime (maxTime a l1) l2.
Proof. unfold maxTime. apply foldl_app. Qed.

Lemma maxTime_in_range a l :
  Int64.in_range a -> Forall Int64.in_range l -> Int64.in_range (maxTime a l).
Proof.
  unfold maxTime. intros Ha Hl. revert a Ha.
  induction Hl as [|x l Hx _ IH]; intros a Ha; simpl; [done|].
  apply IH. unfold Int64.in_range in *. lia.
Qed.

Lemma summaryLoop_spec codes status :
  summaryLoop codes status =
    {| Ready := Ready status && forallb (fun code => String.eqb code succeeded) codes;
       Count := Count status; Meta := Meta status |}.
Proof.
  revert status. induction codes as [|code codes IH]; intros [r c m]; simpl.
  - by rewrite andb_true_r.
  - rewrite IH. destruct (String.eqb code succeeded); simpl; [done|].
    by rewrite andb_false_r.
Qed.

Lemma omap_Time_cons s statuses :
  omap Time (s :: statuses) =
    match Time s with
    | Some t => t :: omap Time statuses
    | None => omap Time statuses
    end.
Proof. reflexivity. Qed.

Lemma maxTime_cons a t l : maxTime a (t :: l) = maxTime (Z.max a t) l.
Proof. reflexivity. Qed.

Lemma statusesLoop_spec w statuses :
  forall latestTime status,
    statusesLoop w statuses latestTime status =
      {| Ready := Ready status
                  && forallb (fun s => String.eqb (Code s) succeeded) statuses;
         Count := Count status;
         Meta :=
           if maxTime latestTime (omap Time statuses) >? latestTime
           then <[TargetStatusMetaKeyLastEvent w :=
                    FormatInt (maxTime latestTime (omap Time statuses))]> (Meta status)
           else Meta status |}.
Proof.
  induction statuses as [|s statuses IH]; intros latest status.
  - cbn [statusesLoop forallb]. rewrite andb_true_r.
    change (maxTime latest (omap Time [])) with latest.
    destruct (Z.gtb_spec latest latest); [lia | by destruct status].
  - cbn [statusesLoop forallb].
    set (status1 := if negb (String.eqb (Code s) succeeded)
                    then setReady false status else status).
    assert (H1 : forall b, Ready status1 && b
                           = Ready status && (String.eqb (Code s) succeeded && b)).
    { intros b. subst status1. destruct (String.eqb (Code s) succeeded); simpl; [done|].
      by rewrite andb_false_r. }
    assert (H2 : Count status1 = Count status).
    { subst status1. by destruct (String.eqb (Code s) succeeded). }
    assert (H3 : Meta status1 = Meta status).
    { subst status1. by destruct (String.eqb (Code s) succeeded). }
    clearbody status1. rewrite omap_Time_cons.
    destruct (Time s) as [t|].
    + rewrite maxTime_cons.
      pose proof (maxTime_ge (Z.max latest t) (omap Time statuses)) as Hge.
      destruct (Z.gtb_spec t latest) as [Hgt|Hle].
      * rewrite IH. cbn [Ready Count Meta setMeta]. rewrite H1, H2, H3.
        replace (Z.max latest t) with t in * by lia.
        f_equal.
        destruct (Z.gtb_spec (maxTime t (omap Time statuses)) latest); [|lia].
        destruct (Z.gtb_spec (maxTime t (omap Time statuses)) t).
        -- by rewrite insert_insert_eq.
        -- by replace (maxTime t (omap Time statuses)) with t by lia.
      * rewrite IH. rewrite H1, H2, H3.
        by replace (Z.max latest t) with latest by lia.
    + rewrite IH. by rewrite H1, H2, H3.
Qed.

(** [processInstanceView] on the fresh status of one scale set. *)
Lemma processInstanceView_spec w instanceView capacity :
  processInstanceView w instanceView {| Ready := true; Count := capacity; Meta := ∅ |} =
    {| Ready := viewReady instanceView;
       Count := capacity;
       Meta :=
         if maxTime Int64.min_int64 (knownTimes instanceView) >? Int64.min_int64
         then {[ TargetStatusMetaKeyLastEvent w :=
                   FormatInt (maxTime Int64.min_int64 (knownTimes instanceView)) ]}
         else ∅ |}.
Proof.
  unfold processInstanceView. rewrite statusesLoop_spec, summaryLoop_spec.
  cbn [Ready Count Meta]. unfold viewReady, knownTimes.
  by rewrite insert_empty.
Qed.

(** One scale set merged by the code is [mergeView] of what it
    reported. *)
Lemma mergeStatus_spec w instanceView capacity ready total latest :
  Forall Int64.in_range (knownTimes instanceView) ->
  Int64.in_range latest ->
  mergeStatus w
    (processInstanceView w instanceView {| Ready := true; Count := capacity; Meta := ∅ |})
    (ready, total, latest)
  = mergeView (ready, total, latest) (capacity, instanceView).
Proof.
  intros Htimes Hlatest. rewrite processInstanceView_spec.
  unfold mergeStatus, mergeView. cbn [Ready Count Meta fst snd].
  set (M := maxTime Int64.min_int64 (knownTimes instanceView)).
  assert (HM : Int64.in_range M).
  { apply maxTime_in_range; [|done].
    unfold Int64.in_range, Int64.min_int64, Int64.max_int64. lia. }
  assert (Hmax : maxTime latest (knownTimes instanceView) = Z.max latest M).
  { apply maxTime_max. apply Hlatest. }
  rewrite Hmax. f_equal; [f_equal|].
  - destruct ready, (viewReady instanceView); done.
  - destruct (Z.gtb_spec M Int64.min_int64) as [Hgt|Hle].
    + rewrite lookup_total_singleton_eq.
      pose proof (FormatInt_nonempty M) as Hlen.
      destruct (Nat.ltb_spec 0 (String.length (FormatInt M))); [|lia].
      rewrite ParseInt_FormatInt by done.
      destruct (Z.gtb_spec M latest); lia.
    + rewrite lookup_total_empty. simpl.
      destruct HM as [HM _]. destruct Hlatest as [Hl _]. lia.
Qed.

Lemma mergeView_in_range acc view :
  Int64.in_range acc.2 ->
  Forall Int64.in_range (knownTimes view.2) ->
  Int64.in_range (mergeView acc view).2.
Proof.
  destruct acc as [[ready total] latest]. simpl. intros Hl Ht.
  by apply maxTime_in_range.
Qed.

(** The loop of [Status] visits every scale set and folds [mergeView]. *)
Lemma statusLoop_spec w rgl vml :
  forall idx views acc tr,
    length views = length vml ->
    (forall i v view,
       vml !! i = Some v -> views !! i = Some view ->
       exists rg, rgl !! (idx + i)%nat = Some rg /\
                  vmss_Get w rg v = inl view.1 /\
                  vmss_GetInstanceView w rg v = inl view.2) ->
    Forall (fun view => Forall Int64.in_range (knownTimes view.2)) views ->
    Int64.in_range acc.2 ->
    statusLoop w rgl idx vml acc tr =
      (tr ++ statusCalls (drop idx rgl) vml, inl (foldl mergeView acc views)).
Proof.
  induction vml as [|v vml IH]; intros idx views acc tr Hlen Hget Htimes Hacc.
  - destruct views; [|done]. simpl. unfold ret, statusCalls.
    destruct (drop idx rgl); simpl; by rewrite app_nil_r.
  - destruct views as [|view views]; [done|].
    destruct (Hget 0%nat v view eq_refl eq_refl) as (rg & Hrg & Hcap & Hview).
    rewrite Nat.add_0_r in Hrg.
    apply Forall_cons in Htimes as [Ht Htimes].
    cbn [statusLoop]. run_unfold. rewrite Hrg, Hcap, Hview.
    destruct acc as [[ready total] latest].
    rewrite mergeStatus_spec by done.
    rewrite (IH (S idx) views); [| by injection Hlen | | done |].
    + rewrite (drop_S _ _ _ Hrg). unfold statusCalls. simpl.
      by rewrite <- !app_assoc.
    + intros i v' view' Hv' Hview'.
      replace (S idx + i)%nat with (idx + S i)%nat by lia.
      by apply (Hget (S i)).
    + by apply mergeView_in_range.
Qed.

Lemma wrap_wrap z : Int64.wrap (Int64.wrap z) = Int64.wrap z.
Proof. apply wrap_id, wrap_in_range. Qed.

Lemma foldl_mergeView views :
  forall ready total latest,
    foldl mergeView (ready, Int64.wrap total, latest) views =
      (ready && forallb (fun view => viewReady view.2) views,
       Int64.wrap (total + sumZ views.*1),
       maxTime latest (concat (map (fun view => knownTimes view.2) views))).
Proof.
  induction views as [|[cap iv] views IH]; intros ready total latest.
  - simpl. by rewrite andb_true_r, Z.add_0_r.
  - cbn [foldl mergeView fst snd]. unfold Int64.add. rewrite wrap_add_l, IH.
    cbn [forallb map concat fmap list_fmap fst snd]. rewrite maxTime_app.
    rewrite andb_assoc.
    replace (total + sumZ (cap :: views.*1)) with (total + cap + sumZ views.*1);
      [done | unfold sumZ; cbn [foldr]; lia].
Qed.

(** C7. When the node pool is ready and every scale set answers,
    [Status] queries every scale set in order, whatever the readiness of
    the earlier ones, and returns: [Ready], the conjunction over the
    scale sets of "every code of the VM statuses summary and of the
    instance-view statuses is ProvisioningState/succeeded"; [Count], the
    [int64] sum of the capacities (the exact sum when it is
    representable); and as last event the greatest populated event time
    over all scale sets, with the least [int64] when none is populated. *)
Theorem Status_aggregates w config s1 s2
    (views : list (Z * VirtualMachineScaleSetInstanceView)) :
  IsPoolReady w config = inl true ->
  config !! configKeyResourceGroupList = Some s1 ->
  config !! configKeyVMSSList = Some s2 ->
  length views = length (Split s2 ",") ->
  (forall i v view,
     Split s2 "," !! i = Some v -> views !! i = Some view ->
     exists rg, Split s1 "," !! i = Some rg /\
                vmss_Get w rg v = inl view.1 /\
                vmss_GetInstanceView w rg v = inl view.2) ->
  Forall (fun view => Forall Int64.in_range (knownTimes view.2)) views ->
  Status w config [] =
    (EvIsPoolReady :: statusCalls (Split s1 ",") (Split s2 ","),
     inl {| Ready := forallb (fun view => viewReady view.2) views;
            Count := Int64.wrap (sumZ views.*1);
            Meta := {[ TargetStatusMetaKeyLastEvent w :=
                         FormatInt (maxTime Int64.min_int64
                           (concat (map (fun view => knownTimes view.2) views))) ]} |}) /\
  (Int64.in_range (sumZ views.*1) -> Int64.wrap (sumZ views.*1) = sumZ views.*1) /\
  length (statusCalls (Split s1 ",") (Split s2 ",")) = (2 * length views)%nat /\
  (concat (map (fun view => knownTimes view.2) views) = [] ->
   maxTime Int64.min_int64 (concat (map (fun view => knownTimes view.2) views))
     = Int64.min_int64).
Proof.
  intros Hpool H1 H2 Hlen Hget Htimes.
  split_and!.
  - assert (Hmin : Int64.in_range (true, 0, Int64.min_int64).2).
    { simpl. unfold Int64.in_range, Int64.min_int64, Int64.max_int64. lia. }
    unfold Status. run_unfold. rewrite Hpool, H1, H2. cbn [negb].
    rewrite (statusLoop_spec w (Split s1 ",") (Split s2 ",") 0 views _ _ Hlen Hget Htimes Hmin).
    change (true, 0, Int64.min_int64) with (true, Int64.wrap 0, Int64.min_int64).
    rewrite foldl_mergeView. by rewrite drop_0.
  - apply wrap_id.
  - assert (Hle : (length (Split s2 ",") <= length (Split s1 ","))%nat).
    { destruct (decide (length views = 0)%nat) as [Hz|Hnz]; [lia|].
      destruct (lookup_lt_is_Some_2 (Split s2 ",") (length views - 1)%nat ltac:(lia))
        as [v Hv].
      destruct (lookup_lt_is_Some_2 views (length views - 1)%nat ltac:(lia))
        as [view Hview].
      destruct (Hget _ _ _ Hv Hview) as (rg & Hrg & _).
      apply lookup_lt_Some in Hrg. lia. }
    rewrite Hlen. clear -Hle. revert Hle. generalize (Split s1 ","). unfold statusCalls.
    induction (Split s2 ",") as [|v vml IH]; intros rgl Hle.
    + by destruct rgl.
    + destruct rgl as [|rg rgl]; [simpl in Hle; lia|].
      cbn [zip_with concat length app]. simpl in Hle. rewrite IH by lia. lia.
  - by intros ->.
Qed.

Lemma Status_aggregates_witness :
  Status demoWorld demoConfig [] =
    ([EvIsPoolReady;
      EvGet "rg" "A"; EvGetInstanceView "rg" "A";
      EvGet "rg" "B"; EvGetInstanceView "rg" "B";
      EvGet "rg" "C"; EvGetInstanceView "rg" "C"],
     inl {| Ready := false; Count := 12;
            Meta := {[ "nomad_autoscaler.last_event"%string := "200"%string ]} |}).
Proof.
  set (quiet := {| StatusesSummary := [succeeded];
                   Statuses := [ {| Code := succeeded; Time := Some 100 |};
                                 {| Code := succeeded; Time := None |} ] |}).
  set (busy := {| StatusesSummary := ["ProvisioningState/updating"%string];
                  Statuses := [ {| Code := succeeded; Time := Some 200 |} ] |}).
  assert (Hget : forall i v view,
            Split "A,B,C" "," !! i = Some v ->
            [(4, quiet); (4, busy); (4, quiet)] !! i = Some view ->
            exists rg, Split "rg,rg,rg" "," !! i = Some rg /\
                       vmss_Get demoWorld rg v = inl view.1 /\
                       vmss_GetInstanceView demoWorld rg v = inl view.2).
  { intros [|[|[|i]]] v view; simpl; intros [= <-] [= <-];
      exists "rg"%string; split_and!; reflexivity. }
  assert (Htimes : Forall (fun view => Forall Int64.in_range (knownTimes view.2))
                          [(4, quiet); (4, busy); (4, quiet)]).
  { repeat constructor; simpl; vm_compute; discriminate. }
  destruct (Status_aggregates demoWorld demoConfig "rg,rg,rg" "A,B,C"
              [(4, quiet); (4, busy); (4, quiet)]
              eq_refl eq_refl eq_refl eq_refl Hget Htimes) as (Heq & _).
  rewrite Heq. reflexivity.
Defined.

(** ** The scale-out loop hands the split to the executors *)

Lemma scaleOutLoop_counts rgl modulo vml :
  forall reminder idx i v rg c,
    (idx + length vml <= length rgl)%nat ->
    vml !! i = Some v -> rgl !! (idx + i)%nat = Some rg ->
    perShardCounts modulo reminder vml !! i = Some c ->
    scaleOutLoop rgl modulo reminder idx vml !! i =
      Some (if 0 <? c then MGo (idx + i) (ReqUpdate rg v c) else MDone).
Proof.
  induction vml as [|v0 vml IH]; intros reminder idx i v rg c Hlen Hv Hrg Hc; [done|].
  simpl in *. destruct (splitStep modulo reminder) as [count reminder'].
  destruct (lookup_lt_is_Some_2 rgl idx ltac:(lia)) as [rg0 Hrg0].
  destruct i as [|i]; simpl in *.
  - injection Hv as ->. injection Hc as ->. rewrite Nat.add_0_r in *.
    rewrite Hrg in Hrg0. injection Hrg0 as <-.
    destruct (0 <? c); [by rewrite Hrg | done].
  - replace (idx + S i)%nat with (S idx + i)%nat in * by lia.
    assert (Hrec := IH reminder' (S idx) i v rg c ltac:(lia) Hv Hrg Hc).
    destruct (0 <? count); [by rewrite Hrg0 | done].
Qed.

(** * Properties of the rest of the plugin *)

(** ** [Scale]: what it does before the [switch] *)

(** X1. A dry run ([action.Count] is the dry-run value) returns [nil]
    without any call, whatever the configuration holds. *)
Theorem Scale_dry_run w config tr o :
  Scale_exec w (StrategyActionMetaValueDryRunCount w) config tr o ->
  tr = [] /\ o = Returned None.
Proof.
  intros Hexec.
  assert (Hplan : planScale w (StrategyActionMetaValueDryRunCount w) config []
                  = ([], inr (Returned None))).
  { unfold planScale. by rewrite Z.eqb_refl. }
  destruct Hexec as [tr o Hp | tr0 pl tr o Hp _ _ | tr0 pl tr o Hp _ _ | tr0 pl Hp _ _];
    rewrite Hplan in Hp; [|discriminate..].
  by injection Hp as <- <-.
Qed.

Lemma Scale_dry_run_witness :
  Scale_seq demoWorld (-1) ∅ = ([], Returned None).
Proof.
  destruct (Scale_dry_run demoWorld ∅ _ _ (Scale_seq_exec demoWorld (-1) ∅)) as [Htr Ho].
  rewrite (surjective_pairing (Scale_seq demoWorld (-1) ∅)). by rewrite Htr, Ho.
Defined.

(** The capacity loop stops at the first scale set whose query fails. *)
Lemma totalCapacityLoop_first_failure w rgl :
  forall k vml idx total tr v rg err,
    (forall i, (i < k)%nat ->
       exists rg' v' capacity,
         rgl !! (idx + i)%nat = Some rg' /\ vml !! i = Some v' /\
         vmss_Get w rg' v' = inl capacity) ->
    vml !! k = Some v -> rgl !! (idx + k)%nat = Some rg ->
    vmss_Get w rg v = inr err ->
    totalCapacityLoop w rgl idx vml total tr =
      (tr ++ zip_with EvGet (take (S k) (drop idx rgl)) (take (S k) vml),
       inr (Returned (Some ("failed to get Azure vmss: " +:+ err)%string))).
Proof.
  induction k as [|k IH]; intros vml idx total tr v rg err Hbefore Hv Hrg Herr.
  - destruct vml as [|v0 vml]; [done|]. injection Hv as ->.
    rewrite Nat.add_0_r in Hrg. cbn [totalCapacityLoop]. run_unfold.
    rewrite Hrg, Herr. rewrite (drop_S _ _ _ Hrg). by destruct (drop 1 rgl).
  - destruct vml as [|v0 vml]; [done|]. simpl in Hv.
    destruct (Hbefore 0%nat ltac:(lia)) as (rg0 & v0' & c0 & Hrg0 & Hv0 & Hget0).
    rewrite Nat.add_0_r in Hrg0. injection Hv0 as <-.
    cbn [totalCapacityLoop]. run_unfold. rewrite Hrg0, Hget0.
    rewrite (IH vml (S idx) _ _ v rg err); [| |done| |done].
    + rewrite (drop_S _ _ _ Hrg0). cbn [take zip_with]. by rewrite <- app_assoc.
    + intros i Hi. destruct (Hbefore (S i) ltac:(lia)) as (rg' & v' & c' & ? & ? & ?).
      exists rg', v', c'. replace (S idx + i)%nat with (idx + S i)%nat by lia. done.
    + by replace (S idx + k)%nat with (idx + S k)%nat by lia.
Qed.

Lemma zip_with_EvGet_isGet l1 l2 : Forall isGet (zip_with EvGet l1 l2).
Proof.
  revert l2. induction l1 as [|a l1 IH]; intros [|b l2]; simpl; try constructor;
    [done | apply IH].
Qed.

(** X2. When the capacity query of a scale set fails and those of the
    scale sets before it succeed, [Scale] returns "failed to get Azure
    vmss: ..." with that error; it has queried the scale sets up to the
    failing one, none after it, and has issued no request. *)
Theorem Scale_capacity_failure w count config s1 s2 k v rg err tr o :
  count <> StrategyActionMetaValueDryRunCount w ->
  config !! configKeyResourceGroupList = Some s1 ->
  config !! configKeyVMSSList = Some s2 ->
  (forall i, (i < k)%nat ->
     exists rg' v' capacity,
       Split s1 "," !! i = Some rg' /\ Split s2 "," !! i = Some v' /\
       vmss_Get w rg' v' = inl capacity) ->
  Split s2 "," !! k = Some v -> Split s1 "," !! k = Some rg ->
  vmss_Get w rg v = inr err ->
  Scale_exec w count config tr o ->
  o = Returned (Some ("failed to get Azure vmss: " +:+ err)%string) /\
  tr = zip_with EvGet (take (S k) (Split s1 ",")) (take (S k) (Split s2 ",")) /\
  requestsOf tr = [].
Proof.
  intros Hdry H1 H2 Hbefore Hv Hrg Herr Hexec.
  assert (Hplan : planScale w count config [] =
            (zip_with EvGet (take (S k) (Split s1 ",")) (take (S k) (Split s2 ",")),
             inr (Returned (Some ("failed to get Azure vmss: " +:+ err)%string)))).
  { unfold planScale. destruct (Z.eqb_spec count (StrategyActionMetaValueDryRunCount w));
      [done|]. rewrite H1, H2. unfold bind.
    by rewrite (totalCapacityLoop_first_failure w _ k _ 0%nat 0 [] v rg err). }
  destruct Hexec as [tr o Hp | tr0 pl tr o Hp _ _ | tr0 pl tr o Hp _ _ | tr0 pl Hp _ _];
    rewrite Hplan in Hp; [|discriminate..].
  injection Hp as <- <-. split_and!; [done | done |].
  apply requestsOf_gets, zip_with_EvGet_isGet.
Qed.

Lemma Scale_capacity_failure_witness :
  Scale_seq failingGetWorld 15 demoConfig =
    ([EvGet "rg" "A"; EvGet "rg" "B"],
     Returned (Some "failed to get Azure vmss: timeout"%string)).
Proof.
  assert (Hbefore : forall i, (i < 1)%nat ->
            exists rg' v' capacity,
              Split "rg,rg,rg" "," !! i = Some rg' /\ Split "A,B,C" "," !! i = Some v' /\
              vmss_Get failingGetWorld rg' v' = inl capacity).
  { intros [|i] Hi; [|lia]. by exists "rg"%string, "A"%string, 4. }
  destruct (Scale_capacity_failure failingGetWorld 15 demoConfig "rg,rg,rg" "A,B,C"
              1%nat "B" "rg" "timeout" _ _ ltac:(simpl; lia) eq_refl eq_refl Hbefore
              eq_refl eq_refl eq_refl (Scale_seq_exec failingGetWorld 15 demoConfig))
    as (Ho & Htr & _).
  rewrite (surjective_pairing (Scale_seq failingGetWorld 15 demoConfig)).
  by rewrite Ho, Htr.
Defined.

(** ** [Scale], growing: the update requests *)

Lemma sumZ_app l1 l2 : sumZ (l1 ++ l2) = sumZ l1 + sumZ l2.
Proof. unfold sumZ. induction l1 as [|x l1 IH]; simpl; lia. Qed.

Lemma sumZ_Permutation l1 l2 : l1 ≡ₚ l2 -> sumZ l1 = sumZ l2.
Proof. unfold sumZ. induction 1; simpl; lia. Qed.

Lemma sumZ_cons x l : sumZ (x :: l) = x + sumZ l.
Proof. reflexivity. Qed.

Lemma dispatched_go idx req actions :
  dispatched (MGo idx req :: actions) = (idx, req) :: dispatched actions.
Proof. reflexivity. Qed.

Lemma dispatched_done actions : dispatched (MDone :: actions) = dispatched actions.
Proof. reflexivity. Qed.

(** Every executor the scale-out loop starts is an update of the scale
    set at its index, in the resource group at the same index, to the
    positive count of that iteration. *)
Lemma scaleOutLoop_dispatched rgl modulo vml :
  forall reminder idx0 idx req,
    (idx, req) ∈ dispatched (scaleOutLoop rgl modulo reminder idx0 vml) ->
    exists rg v c,
      req = ReqUpdate rg v c /\ (idx0 <= idx)%nat /\
      rgl !! idx = Some rg /\ vml !! (idx - idx0)%nat = Some v /\
      perShardCounts modulo reminder vml !! (idx - idx0)%nat = Some c /\ 0 < c.
Proof.
  induction vml as [|v0 vml IH]; intros reminder idx0 idx req Hin; simpl in *.
  - by apply elem_of_nil in Hin.
  - destruct (splitStep modulo reminder) as [count reminder'].
    assert (Hrest : (idx, req) ∈ dispatched (scaleOutLoop rgl modulo reminder' (S idx0) vml) ->
              exists rg v c,
                req = ReqUpdate rg v c /\ (idx0 <= idx)%nat /\
                rgl !! idx = Some rg /\ (v0 :: vml) !! (idx - idx0)%nat = Some v /\
                (count :: perShardCounts modulo reminder' vml) !! (idx - idx0)%nat = Some c /\
                0 < c).
    { intros H. destruct (IH _ _ _ _ H) as (rg & v & c & -> & Hle & Hrg & Hv & Hc & Hpos).
      exists rg, v, c. replace (idx - idx0)%nat with (S (idx - S idx0)) by lia.
      split_and!; (done || lia). }
    destruct (Z.ltb_spec 0 count) as [Hpos|Hnp].
    + destruct (rgl !! idx0) as [rg0|] eqn:Hrg0.
      * cbn [dispatched omap list_omap] in Hin. apply elem_of_cons in Hin as [[= -> ->]|Hin].
        -- exists rg0, v0, count. rewrite Nat.sub_diag. by split_and!.
        -- by apply Hrest.
      * by apply elem_of_nil in Hin.
    + by apply Hrest.
Qed.

(** When no count is negative, the capacities the loop asks for add up
    to the sum of all the counts. *)
Lemma scaleOutLoop_capacity_sum rgl modulo vml :
  forall reminder idx0,
    (idx0 + length vml <= length rgl)%nat ->
    Forall (fun c => 0 <= c) (perShardCounts modulo reminder vml) ->
    sumZ ((fun r => requestCapacity r.2)
            <$> dispatched (scaleOutLoop rgl modulo reminder idx0 vml))
      = sumZ (perShardCounts modulo reminder vml).
Proof.
  induction vml as [|v0 vml IH]; intros reminder idx0 Hlen Hnn; [done|].
  cbn [scaleOutLoop perShardCounts] in *. simpl length in Hlen.
  destruct (splitStep modulo reminder) as [count reminder'].
  apply Forall_cons in Hnn as [Hc Hnn].
  specialize (IH reminder' (S idx0) ltac:(lia) Hnn).
  rewrite sumZ_cons.
  destruct (Z.ltb_spec 0 count) as [Hpos|Hnp].
  - destruct (lookup_lt_is_Some_2 rgl idx0 ltac:(lia)) as [rg0 ->].
    rewrite dispatched_go, fmap_cons, sumZ_cons, IH. done.
  - rewrite dispatched_done, IH. lia.
Qed.

(** X3. Growing to a target [count >= 0]: every request [Scale] issues
    is an update of the scale set at some index, in the resource group at
    the same index of the other list, to the share of that index in the
    even split of the target, which is positive; and the capacities
    requested add up to the target. Scale sets whose share is zero get
    no request. *)
Theorem Scale_out_requests w count config tr0 pl tr o :
  planScale w count config [] = (tr0, inl pl) ->
  direction pl = "out"%string ->
  0 <= count -> Int64.in_range count ->
  Scale_exec w count config tr o ->
  (forall idx req,
     (idx, req) ∈ requestsOf tr ->
     exists rg v c,
       req = ReqUpdate rg v c /\
       resourceGroupList pl !! idx = Some rg /\
       vmScaleSetList pl !! idx = Some v /\ 0 < c /\
       c = (if Z.of_nat idx <? count mod Z.of_nat (length (vmScaleSetList pl))
            then count / Z.of_nat (length (vmScaleSetList pl)) + 1
            else count / Z.of_nat (length (vmScaleSetList pl)))) /\
  sumZ ((fun r => requestCapacity r.2) <$> requestsOf tr) = count.
Proof.
  intros Hplan Hdir Hnn Hrange Hexec.
  destruct (planScale_in_range _ _ _ _ _ Hplan) as (Hlen & Hpos & Hget).
  pose proof Hplan as (_ & _ & _ & Hcalc & Hq & Hr)%planScale_inl.
  assert (Hnum : num pl = count).
  { unfold calculateScaleDirection in Hcalc.
    destruct (count <? totalVMSSCapacity pl); [injection Hcalc as _ Hd; congruence|].
    destruct (count >? totalVMSSCapacity pl); injection Hcalc as Hn Hd; congruence. }
  rewrite Hnum in Hq, Hr.
  set (n := Z.of_nat (length (vmScaleSetList pl))) in *.
  assert (Hn : 0 < n) by (subst n; lia).
  destruct (quot_pos count n Hnn Hrange Hn) as [Hq' Hr'].
  rewrite Hq' in Hq. rewrite Hr' in Hr. injection Hq as Hmod. injection Hr as Hrem.
  pose proof (splitOk_div count n Hnn Hrange Hn) as Hok.
  rewrite Hmod, Hrem in Hok.
  pose proof (Scale_exec_out _ _ _ _ _ _ _ Hplan Hdir Hexec) as Hout.
  destruct (ScaleOut_exec_shape _ _ _ _ _ Hlen Hout) as (_ & evs & -> & _ & Hreq & _).
  rewrite requestsOf_app, (requestsOf_gets _ Hget). simpl.
  split.
  - intros idx req Hin. rewrite Hreq in Hin.
    apply scaleOutLoop_dispatched in Hin as (rg & v & c & -> & _ & Hrg & Hv & Hshare & Hc).
    rewrite Nat.sub_0_r in Hv, Hshare.
    rewrite (perShardCounts_lookup _ _ _ _ Hok (lookup_lt_Some _ _ _ Hv)) in Hshare.
    injection Hshare as Hshare. fold n. rewrite Hmod, Hrem.
    by exists rg, v, c.
  - rewrite (sumZ_Permutation _ _ (fmap_Permutation _ _ _ Hreq)).
    rewrite scaleOutLoop_capacity_sum.
    + rewrite perShardCounts_sum by (done || (pose proof (Z.mod_pos_bound count n Hn); lia)).
      fold n. rewrite <- Hmod, <- Hrem. pose proof (Z.div_mod count n ltac:(lia)). lia.
    + simpl. lia.
    + eapply Forall_impl; [by apply perShardCounts_ge|].
      intros c Hc. simpl in Hc. pose proof (Z.div_pos count n Hnn Hn). lia.
Qed.

Lemma Scale_out_requests_witness :
  sumZ ((fun r => requestCapacity r.2) <$> requestsOf (fst (Scale_seq demoWorld 14 demoConfig)))
    = 14.
Proof.
  destruct (planScale demoWorld 14 demoConfig []) as [tr0 [pl|o]] eqn:Hplan;
    [|vm_compute in Hplan; discriminate].
  assert (Hdir : direction pl = "out"%string).
  { vm_compute in Hplan. by injection Hplan as <- <-. }
  assert (Hr : Int64.in_range 14).
  { unfold Int64.in_range, Int64.min_int64, Int64.max_int64. lia. }
  exact (proj2 (Scale_out_requests demoWorld 14 demoConfig tr0 pl _ _ Hplan Hdir
                  ltac:(lia) Hr (Scale_seq_exec demoWorld 14 demoConfig))).
Defined.

(** ** [Scale], shrinking: what is deleted *)

Lemma classic_contains s c : contains s c \/ ~ contains s c.
Proof.
  unfold contains. induction (list_ascii_of_string s) as [|a l IH]; simpl; [tauto|].
  destruct (Ascii.eqb_spec a c); tauto.
Qed.

Lemma matchLoop_sound w prefix instanceID vml :
  forall instanceIDs v i,
    i ∈ (matchLoop w prefix instanceID vml instanceIDs !!! v : list string) ->
    i ∈ (instanceIDs !!! v : list string) \/
    (v ∈ vml /\ EqualFold w prefix v = true /\ i = instanceID).
Proof.
  induction vml as [|v0 vml IH]; intros m v i Hin; simpl in Hin; [by left|].
  apply IH in Hin as [Hin|(Hv & He & ->)].
  - destruct (EqualFold w prefix v0) eqn:He; [|by left].
    destruct (decide (v0 = v)) as [->|Hne].
    + rewrite lookup_total_insert_eq in Hin. apply elem_of_app in Hin as [Hin|Hin].
      * by left.
      * apply list_elem_of_singleton in Hin as ->. right.
        split_and!; [apply elem_of_cons; by left | done | done].
    + rewrite lookup_total_insert_ne in Hin by done. by left.
  - right. split_and!; [apply elem_of_cons; by right | done | done].
Qed.

(** Whatever the correlation assigns to a scale set is the instance id
    of a returned node whose prefix matches that scale set. *)
Lemma correlate_sound w vml ids :
  forall m0 m v i,
    correlate w vml ids m0 = inl m ->
    i ∈ (m !!! v : list string) ->
    i ∈ (m0 !!! v : list string) \/
    (v ∈ vml /\ exists node,
       node ∈ ids /\ LastIndex (RemoteResourceID node) "_" <> -1 /\
       EqualFold w (decodeRemoteID (RemoteResourceID node)).1 v = true /\
       (decodeRemoteID (RemoteResourceID node)).2 = i).
Proof.
  induction ids as [|node ids IH]; intros m0 m v i Hc Hin; simpl in Hc.
  - injection Hc as <-. by left.
  - destruct (Z.eqb_spec (LastIndex (RemoteResourceID node) "_") (-1)) as [|Hidx];
      [discriminate|].
    destruct (IH _ _ _ _ Hc Hin) as [Hin'|(Hv & node' & Hn & ? & ? & ?)].
    + apply matchLoop_sound in Hin' as [Hin'|(Hv & He & ->)]; [by left|].
      right. split; [done|]. exists node.
      split_and!; [apply elem_of_cons; by left | done | done | done].
    + right. split; [done|]. exists node'.
      split_and!; [apply elem_of_cons; by right | done | done | done].
Qed.

(** Every executor the scale-in loop starts deletes the non-empty list
    correlated to the scale set at its index, in the resource group at
    the same index. *)
Lemma scaleInLoop_dispatched rgl instanceIDs vml :
  forall idx0 idx req,
    (idx, req) ∈ dispatched (scaleInLoop rgl instanceIDs idx0 vml) ->
    exists rg v,
      req = ReqDeleteInstances rg v (instanceIDs !!! v) /\ (idx0 <= idx)%nat /\
      rgl !! idx = Some rg /\ vml !! (idx - idx0)%nat = Some v /\
      (instanceIDs !!! v : list string) <> [].
Proof.
  induction vml as [|v0 vml IH]; intros idx0 idx req Hin; cbn [scaleInLoop] in Hin.
  - by apply elem_of_nil in Hin.
  - assert (Hrest : (idx, req) ∈ dispatched (scaleInLoop rgl instanceIDs (S idx0) vml) ->
              exists rg v,
                req = ReqDeleteInstances rg v (instanceIDs !!! v) /\ (idx0 <= idx)%nat /\
                rgl !! idx = Some rg /\ (v0 :: vml) !! (idx - idx0)%nat = Some v /\
                (instanceIDs !!! v : list string) <> []).
    { intros H. destruct (IH _ _ _ H) as (rg & v & -> & Hle & Hrg & Hv & Hne).
      exists rg, v. replace (idx - idx0)%nat with (S (idx - S idx0)) by lia.
      split_and!; (done || lia). }
    destruct (Nat.ltb_spec 0 (length (instanceIDs !!! v0 : list string))) as [Hpos|Hnp].
    + destruct (rgl !! idx0) as [rg0|] eqn:Hrg0.
      * rewrite dispatched_go in Hin. apply elem_of_cons in Hin as [[= -> ->]|Hin].
        -- exists rg0, v0. rewrite Nat.sub_diag. split_and!; try done.
           intros Hnil. rewrite Hnil in Hpos. simpl in Hpos. lia.
        -- by apply Hrest.
      * by apply elem_of_nil in Hin.
    + rewrite dispatched_done in Hin. by apply Hrest.
Qed.

(** X4. Shrinking never deletes an instance the pre-scale-in tasks did
    not return: every request [Scale] issues deletes, from the scale set
    at some index and in the resource group at the same index, a
    non-empty list of instance ids, each of which is the text after the
    last ["_"] of a returned remote id whose text before it matches that
    scale set under [EqualFold]. *)
Theorem Scale_in_deletes_only_cleared w count config tr0 pl trc remoteIDs ids tr o :
  planScale w count config [] = (tr0, inl pl) ->
  direction pl = "in"%string ->
  collectLoop w (resourceGroupList pl) 0 (vmScaleSetList pl) [] tr0 = (trc, inl remoteIDs) ->
  RunPreScaleInTasksWithRemoteCheck w config remoteIDs (num pl) = inl ids ->
  Scale_exec w count config tr o ->
  forall idx req,
    (idx, req) ∈ requestsOf tr ->
    exists rg v instanceIDs,
      req = ReqDeleteInstances rg v instanceIDs /\
      resourceGroupList pl !! idx = Some rg /\
      vmScaleSetList pl !! idx = Some v /\
      instanceIDs <> [] /\
      forall i, i ∈ instanceIDs ->
        exists node,
          node ∈ ids /\ contains (RemoteResourceID node) "_" /\
          EqualFold w (decodeRemoteID (RemoteResourceID node)).1 v = true /\
          (decodeRemoteID (RemoteResourceID node)).2 = i.
Proof.
  intros Hplan Hdir Hcl Hpre Hexec idx req Hin.
  destruct (planScale_in_range _ _ _ _ _ Hplan) as (Hlen & _ & Hget).
  pose proof (Scale_exec_in _ _ _ _ _ _ _ Hplan Hdir Hexec) as Hexec'.
  destruct (ScaleIn_exec_shape _ _ _ _ _ _ Hlen Hexec') as (trc' & r & Hcl' & Hlist & Hshape).
  rewrite Hcl in Hcl'. injection Hcl' as -> <-.
  destruct Hshape as [_ Hshape]. rewrite Hpre in Hshape.
  pose proof (requestsOf_gets _ Hget) as Hq0.
  pose proof (requestsOf_lists _ Hlist) as Hq1.
  destruct (correlate w (vmScaleSetList pl) ids ∅) as [m|err] eqn:Hcorr.
  - destruct Hshape as (evs & -> & _ & Hreq & _).
    rewrite !requestsOf_app, Hq0, Hq1 in Hin. simpl in Hin.
    rewrite app_nil_r, Hreq in Hin.
    apply scaleInLoop_dispatched in Hin as (rg & v & -> & _ & Hrg & Hv & Hne).
    rewrite Nat.sub_0_r in Hv. exists rg, v, (m !!! v). split_and!; try done.
    intros i Hi. destruct (correlate_sound _ _ _ _ _ _ _ Hcorr Hi) as [Hi'|(_ & node & ? & Hidx & ? & ?)].
    + rewrite lookup_total_empty in Hi'. by apply elem_of_nil in Hi'.
    + exists node. split_and!; try done.
      destruct (classic_contains (RemoteResourceID node) "_") as [Hc|Hc]; [done|].
      by apply LastIndex_none in Hc.
  - destruct Hshape as [-> _]. rewrite !requestsOf_app, Hq0, Hq1 in Hin.
    by apply elem_of_nil in Hin.
Qed.

Lemma Scale_in_deletes_only_cleared_witness :
  exists node,
    node ∈ clearFirst ["A_0"; "A_1"; "B_0"; "B_1"; "C_0"; "C_1"]%string 3 /\
    contains (RemoteResourceID node) "_" /\
    EqualFold demoWorld (decodeRemoteID (RemoteResourceID node)).1 "A" = true /\
    (decodeRemoteID (RemoteResourceID node)).2 = "1"%string.
Proof.
  destruct (planScale demoWorld 9 demoConfig []) as [tr0 [pl|o]] eqn:Hplan;
    [|vm_compute in Hplan; discriminate].
  pose proof Hplan as Hplan'. vm_compute in Hplan'. injection Hplan' as <- <-.
  assert (Hin : (0%nat, ReqDeleteInstances "rg" "A" ["0"; "1"]%string)
                  ∈ requestsOf (fst (Scale_seq demoWorld 9 demoConfig))).
  { vm_compute. apply elem_of_cons. by left. }
  destruct (Scale_in_deletes_only_cleared demoWorld 9 demoConfig _ _
              ([EvGet "rg" "A"; EvGet "rg" "B"; EvGet "rg" "C";
                EvList "rg" "A"; EvList "rg" "B"; EvList "rg" "C"])
              ["A_0"; "A_1"; "B_0"; "B_1"; "C_0"; "C_1"]%string
              _ _ _ Hplan eq_refl eq_refl eq_refl
              (Scale_seq_exec demoWorld 9 demoConfig) _ _ Hin)
    as (rg & v & iids & Heq & _ & _ & _ & Hall).
  injection Heq as <- <- <-.
  apply (Hall "1"%string). apply elem_of_cons. right. apply elem_of_cons. by left.
Defined.

(** ** [getRemoteIds] *)

Lemma powerStateLoop_spec vmScaleSet instanceID statuses remoteIDs :
  powerStateLoop vmScaleSet instanceID statuses remoteIDs =
    match List.find (fun s => HasPrefix (Code s) "PowerState/") statuses with
    | Some s =>
        if String.eqb (Code s) "PowerState/running"
        then remoteIDs ++ [formatRemoteID vmScaleSet instanceID]
        else remoteIDs
    | None => remoteIDs
    end.
Proof.
  induction statuses as [|s statuses IH]; simpl; [done|].
  by destruct (HasPrefix (Code s) "PowerState/").
Qed.

Lemma valuesLoop_spec vmScaleSet values :
  forall remoteIDs,
    valuesLoop vmScaleSet values remoteIDs =
      remoteIDs ++ map (fun vm => formatRemoteID vmScaleSet (InstanceID vm))
                       (List.filter isRunning values).
Proof.
  unfold valuesLoop.
  induction values as [|vm values IH]; intros remoteIDs; simpl; [by rewrite app_nil_r|].
  rewrite IH, powerStateLoop_spec. unfold isRunning.
  destruct (List.find _ (vmStatuses vm)) as [s|]; [|done].
  destruct (String.eqb (Code s) "PowerState/running"); [|done].
  simpl. by rewrite <- app_assoc.
Qed.

Lemma runningIDs_cons vmScaleSet values next pages :
  runningIDs vmScaleSet ((values, next) :: pages) =
    map (fun vm => formatRemoteID vmScaleSet (InstanceID vm)) (List.filter isRunning values)
    ++ runningIDs vmScaleSet pages.
Proof.
  unfold runningIDs. rewrite bind_cons. simpl. by rewrite List.filter_app, map_app.
Qed.

Lemma pagerLoop_ok vmScaleSet pages :
  pagesOk pages ->
  forall remoteIDs,
    pagerLoop vmScaleSet pages remoteIDs = inl (remoteIDs ++ runningIDs vmScaleSet pages).
Proof.
  induction 1 as [|[values next] pages Hnext _ IH]; intros remoteIDs; simpl.
  - unfold runningIDs. simpl. by rewrite app_nil_r.
  - simpl in Hnext. subst next. rewrite IH, valuesLoop_spec, runningIDs_cons.
    by rewrite <- app_assoc.
Qed.

Lemma pagerLoop_error vmScaleSet good values err rest :
  pagesOk good ->
  forall remoteIDs,
    pagerLoop vmScaleSet (good ++ (values, Some err) :: rest) remoteIDs =
      inr ("failed to list instances in VMSS: " +:+ err)%string.
Proof.
  induction 1 as [|[values0 next] good Hnext _ IH]; intros remoteIDs; simpl; [done|].
  simpl in Hnext. subst next. apply IH.
Qed.

(** X5. When the listing of a scale set succeeds on every page,
    [getRemoteIds] returns the ids it was given followed by
    [<scale set>_<instance id>] for exactly the VMs whose first
    ["PowerState/"] status is ["PowerState/running"], in page order; VMs
    in another power state, or with no power state, are left out. *)
Theorem getRemoteIds_running_only w resourceGroup vmScaleSet pages remoteIDs tr :
  vmssVMs_List w resourceGroup vmScaleSet = inl pages ->
  pagesOk pages ->
  getRemoteIds w resourceGroup vmScaleSet remoteIDs tr =
    (tr ++ [EvList resourceGroup vmScaleSet],
     inl (inl (remoteIDs ++ runningIDs vmScaleSet pages))).
Proof.
  intros Hlist Hok. unfold getRemoteIds. run_unfold. rewrite Hlist.
  by rewrite pagerLoop_ok.
Qed.

(** X6. [getRemoteIds] fails when the listing fails or when moving past
    any page fails; in the second case the ids collected from that page
    and the pages before it are dropped with it: nothing is returned but
    the error. *)
Theorem getRemoteIds_errors w resourceGroup vmScaleSet remoteIDs tr :
  (forall err,
     vmssVMs_List w resourceGroup vmScaleSet = inr err ->
     getRemoteIds w resourceGroup vmScaleSet remoteIDs tr =
       (tr ++ [EvList resourceGroup vmScaleSet],
        inl (inr ("failed to query VMSS instances: " +:+ err)%string))) /\
  (forall good values err rest,
     vmssVMs_List w resourceGroup vmScaleSet = inl (good ++ (values, Some err) :: rest) ->
     pagesOk good ->
     getRemoteIds w resourceGroup vmScaleSet remoteIDs tr =
       (tr ++ [EvList resourceGroup vmScaleSet],
        inl (inr ("failed to list instances in VMSS: " +:+ err)%string))).
Proof.
  split.
  - intros err Hlist. unfold getRemoteIds. run_unfold. by rewrite Hlist.
  - intros good values err rest Hlist Hok. unfold getRemoteIds. run_unfold.
    rewrite Hlist. by rewrite pagerLoop_error.
Qed.

Lemma getRemoteIds_running_only_witness :
  getRemoteIds listWorld "rg" "A" ["x"%string] [] =
    ([EvList "rg" "A"], inl (inl ["x"; "A_0"; "A_3"]%string)).
Proof.
  apply (getRemoteIds_running_only listWorld "rg" "A"
           [ ([runningVM "0"; deallocatedVM "1"; statelessVM "2"], None);
             ([runningVM "3"], None) ] ["x"%string] [] eq_refl).
  by repeat constructor.
Defined.

Lemma getRemoteIds_errors_witness :
  getRemoteIds listWorld "rg" "C" ["x"%string] [] =
    ([EvList "rg" "C"], inl (inr "failed to query VMSS instances: not found"%string)) /\
  getRemoteIds listWorld "rg" "B" ["x"%string] [] =
    ([EvList "rg" "B"], inl (inr "failed to list instances in VMSS: throttled"%string)).
Proof.
  destruct (getRemoteIds_errors listWorld "rg" "C" ["x"%string] []) as [Hquery _].
  destruct (getRemoteIds_errors listWorld "rg" "B" ["x"%string] []) as [_ Hpage].
  split.
  - apply (Hquery "not found"%string eq_refl).
  - apply (Hpage [] [runningVM "0"] "throttled"%string [([runningVM "1"], None)] eq_refl).
    constructor.
Defined.

(** ** From the collected ids back to the scale sets *)

(** The correlation from any starting map, under the same hypotheses. *)
Lemma correlate_partition_aux w vml ids :
  NoDup vml ->
  (forall v v', v ∈ vml -> v' ∈ vml -> (EqualFold w v v' = true <-> v = v')) ->
  Forall (fun node => exists v i,
            RemoteResourceID node = formatRemoteID v i /\ v ∈ vml /\ ~ contains i "_") ids ->
  forall m0, exists m,
    correlate w vml ids m0 = inl m /\
    forall v, (m !!! v : list string) = (m0 !!! v) ++ clearedFor v ids.
Proof.
  intros Hnd Hfold Hids.
  induction Hids as [|node ids (v0 & i0 & Hr & Hv0 & Hi0) _ IH]; intros m0.
  - exists m0. split; [done|]. intros v. unfold clearedFor. simpl. by rewrite app_nil_r.
  - destruct (formatRemoteID_split v0 i0 Hi0) as (Hidx & Hpre & Hsuf).
    assert (Hdec : decodeRemoteID (RemoteResourceID node) = (v0, i0)).
    { unfold decodeRemoteID. by rewrite Hr, Hpre, Hsuf. }
    assert (Hmatch : matchLoop w v0 i0 vml m0 = <[v0 := (m0 !!! v0) ++ [i0]]> m0).
    { destruct (list_elem_of_split _ _ Hv0) as (l1 & l2 & ->).
      apply matchLoop_single.
      - apply Hfold; [done | done | done].
      - intros v' Hv'. destruct (EqualFold w v0 v') eqn:He; [|done].
        exfalso. apply NoDup_app in Hnd as (_ & Hdis & Hnd2).
        apply NoDup_cons in Hnd2 as [Hnot2 _].
        assert (v0 = v') as <-.
        { apply Hfold; [done | | done].
          apply elem_of_app in Hv' as [?|?]; apply elem_of_app;
            [by left | right; apply elem_of_cons; by right]. }
        apply elem_of_app in Hv' as [H1|H2]; [|done].
        apply (Hdis _ H1). apply elem_of_cons. by left. }
    destruct (IH (<[v0 := (m0 !!! v0) ++ [i0]]> m0)) as (m & Hm & Hlook).
    exists m. split.
    + cbn [correlate]. rewrite Hr, Hidx.
      destruct (Z.eqb_spec (Z.of_nat (String.length v0)) (-1)); [lia|].
      rewrite <- Hidx, Hpre, Hsuf, Hmatch. done.
    + intros v. rewrite Hlook. unfold clearedFor, decodedNodes.
      rewrite fmap_cons, Hdec, filter_cons. simpl.
      destruct (decide (v0 = v)) as [->|Hne].
      * rewrite lookup_total_insert_eq. simpl. by rewrite <- app_assoc.
      * by rewrite lookup_total_insert_ne.
Qed.

(** X7. When the configured scale-set names are distinct, also under
    [EqualFold], and every returned remote id is the formatted id of a
    configured scale set and an underscore-free instance id, the
    correlation succeeds and gives each scale set exactly the instance
    ids of its own returned nodes, in the order returned. *)
Theorem correlate_partition w vml ids :
  NoDup vml ->
  (forall v v', v ∈ vml -> v' ∈ vml -> (EqualFold w v v' = true <-> v = v')) ->
  Forall (fun node => exists v i,
            RemoteResourceID node = formatRemoteID v i /\ v ∈ vml /\ ~ contains i "_") ids ->
  exists m,
    correlate w vml ids ∅ = inl m /\
    (forall v, (m !!! v : list string) = clearedFor v ids) /\
    (forall v, v ∉ vml -> (m !!! v : list string) = []).
Proof.
  intros Hnd Hfold Hids.
  destruct (correlate_partition_aux w vml ids Hnd Hfold Hids ∅) as (m & Hm & Hlook).
  exists m. split; [done|].
  assert (Hall : forall v, (m !!! v : list string) = clearedFor v ids).
  { intros v. by rewrite Hlook, lookup_total_empty. }
  split; [done|]. intros v Hv. rewrite Hall. unfold clearedFor, decodedNodes.
  clear Hm Hlook Hall. induction Hids as [|node ids (v0 & i0 & Hr & Hv0 & Hi0) _ IH]; [done|].
  assert (Hdec : decodeRemoteID (RemoteResourceID node) = (v0, i0)).
  { destruct (formatRemoteID_split v0 i0 Hi0) as (_ & Hpre & Hsuf).
    unfold decodeRemoteID. by rewrite Hr, Hpre, Hsuf. }
  rewrite fmap_cons, Hdec, filter_cons. simpl.
  destruct (decide (v0 = v)) as [->|_]; [done | exact IH].
Qed.

Lemma correlate_partition_witness :
  exists m,
    correlate demoWorld ["web"; "web_gpu"]%string
      [ {| NomadNodeID := "n1"; RemoteResourceID := "web_gpu_3" |};
        {| NomadNodeID := "n2"; RemoteResourceID := "web_7" |};
        {| NomadNodeID := "n3"; RemoteResourceID := "web_gpu_5" |} ] ∅ = inl m /\
    (m !!! "web_gpu"%string : list string) = ["3"; "5"]%string /\
    (m !!! "web"%string : list string) = ["7"%string].
Proof.
  assert (Hnd : NoDup ["web"; "web_gpu"]%string).
  { apply NoDup_cons. split; [|apply NoDup_singleton].
    intros H. by apply list_elem_of_singleton in H. }
  assert (Hfold : forall v v', v ∈ ["web"; "web_gpu"]%string -> v' ∈ ["web"; "web_gpu"]%string ->
                    (EqualFold demoWorld v v' = true <-> v = v')).
  { intros v v' Hv Hv'.
    repeat (apply elem_of_cons in Hv as [->|Hv]);
      repeat (apply elem_of_cons in Hv' as [->|Hv']);
      try (by apply elem_of_nil in Hv); try (by apply elem_of_nil in Hv');
      split; (done || discriminate). }
  assert (Hno : forall i, i ∈ ["3"; "7"; "5"]%string -> ~ contains i "_").
  { intros i Hi. unfold contains.
    repeat (apply elem_of_cons in Hi as [->|Hi]); try (by apply elem_of_nil in Hi);
      simpl; intros [H|H]; (discriminate H || exact H). }
  destruct (correlate_partition demoWorld ["web"; "web_gpu"]%string
              [ {| NomadNodeID := "n1"; RemoteResourceID := "web_gpu_3" |};
                {| NomadNodeID := "n2"; RemoteResourceID := "web_7" |};
                {| NomadNodeID := "n3"; RemoteResourceID := "web_gpu_5" |} ] Hnd Hfold)
    as (m & Hm & Hlook & _).
  - repeat constructor.
    + exists "web_gpu"%string, "3"%string. split_and!; [done | | apply Hno].
      * apply elem_of_cons. right. apply elem_of_cons. by left.
      * apply elem_of_cons. by left.
    + exists "web"%string, "7"%string. split_and!; [done | | apply Hno].
      * apply elem_of_cons. by left.
      * apply elem_of_cons. right. apply elem_of_cons. by left.
    + exists "web_gpu"%string, "5"%string. split_and!; [done | | apply Hno].
      * apply elem_of_cons. right. apply elem_of_cons. by left.
      * do 2 (apply elem_of_cons; right). apply elem_of_cons. by left.
  - exists m. split; [exact Hm|]. rewrite !Hlook. split; reflexivity.
Defined.

(** ** [Scale], shrinking: the candidates and the count handed over *)

Lemma collectLoop_ok w rgl vml :
  forall idx remoteIDs tr,
    (idx + length vml <= length rgl)%nat ->
    listingsOk w (drop idx rgl) vml ->
    collectLoop w rgl idx vml remoteIDs tr =
      (tr ++ zip_with EvList (drop idx rgl) vml,
       inl (remoteIDs ++ collectedIDs w (drop idx rgl) vml)).
Proof.
  induction vml as [|v vml IH]; intros idx acc tr Hlen Hok.
  - simpl. unfold ret, collectedIDs. destruct (drop idx rgl); simpl; by rewrite !app_nil_r.
  - simpl in Hlen. destruct (lookup_lt_is_Some_2 rgl idx ltac:(lia)) as [rg Hrg].
    rewrite (drop_S _ _ _ Hrg) in *.
    destruct (Hok 0%nat rg v eq_refl eq_refl) as (pages & Hlist & Hpages).
    cbn [collectLoop]. unfold getRemoteIds. run_unfold.
    rewrite Hrg, Hlist, (pagerLoop_ok v pages Hpages).
    rewrite IH; [| lia |].
    + unfold collectedIDs, listedIDs. cbn [zip_with concat]. rewrite Hlist.
      by rewrite <- !app_assoc.
    + intros i rg' v' Hrg' Hv'. by apply (Hok (S i)).
Qed.

(** X8. When [Scale] shrinks and every listing succeeds, the
    pre-scale-in tasks are called once all scale sets are listed, with
    the remote ids of all running instances of all scale sets, in
    scale-set order, and with the count [current total - target]. *)
Theorem Scale_in_drain_request w count config tr0 pl tr o :
  planScale w count config [] = (tr0, inl pl) ->
  direction pl = "in"%string ->
  listingsOk w (resourceGroupList pl) (vmScaleSetList pl) ->
  Scale_exec w count config tr o ->
  count < totalVMSSCapacity pl /\
  num pl = Int64.sub (totalVMSSCapacity pl) count /\
  exists rest,
    tr = tr0 ++ zip_with EvList (resourceGroupList pl) (vmScaleSetList pl)
           ++ EvPreScaleIn (collectedIDs w (resourceGroupList pl) (vmScaleSetList pl))
                           (num pl) :: rest.
Proof.
  intros Hplan Hdir Hok Hexec.
  destruct (planScale_in_range _ _ _ _ _ Hplan) as (Hlen & _ & _).
  pose proof Hplan as (_ & _ & _ & Hcalc & _)%planScale_inl.
  assert (Hnum : count < totalVMSSCapacity pl /\
                 num pl = Int64.sub (totalVMSSCapacity pl) count).
  { unfold calculateScaleDirection in Hcalc.
    destruct (Z.ltb_spec count (totalVMSSCapacity pl)); [by injection Hcalc as <- _|].
    destruct (count >? totalVMSSCapacity pl); injection Hcalc as _ Hd; congruence. }
  destruct Hnum as [Hlt Hnum]. split_and!; [done | done |].
  pose proof (Scale_exec_in _ _ _ _ _ _ _ Hplan Hdir Hexec) as Hexec'.
  destruct (ScaleIn_exec_shape _ _ _ _ _ _ Hlen Hexec') as (trc & r & Hcl & _ & Hshape).
  rewrite (collectLoop_ok w _ _ 0 [] tr0) in Hcl by (simpl; lia || done).
  rewrite drop_0 in Hcl. injection Hcl as Htrc <-. apply app_inv_head in Htrc as <-.
  destruct Hshape as [_ Hshape]. simpl in Hshape.
  destruct (RunPreScaleInTasksWithRemoteCheck w config _ (num pl)) as [ids|err].
  - destruct (correlate w (vmScaleSetList pl) ids ∅).
    + destruct Hshape as (evs & -> & _). by eexists.
    + destruct Hshape as [-> _]. by eexists.
  - destruct Hshape as [-> _]. by eexists.
Qed.

Lemma Scale_in_drain_request_witness :
  exists rest,
    fst (Scale_seq demoWorld 9 demoConfig) =
      [EvGet "rg" "A"; EvGet "rg" "B"; EvGet "rg" "C"] ++
      [EvList "rg" "A"; EvList "rg" "B"; EvList "rg" "C"] ++
      EvPreScaleIn ["A_0"; "A_1"; "B_0"; "B_1"; "C_0"; "C_1"]%string 3 :: rest.
Proof.
  destruct (planScale demoWorld 9 demoConfig []) as [tr0 [pl|o]] eqn:Hplan;
    [|vm_compute in Hplan; discriminate].
  pose proof Hplan as Hplan'. vm_compute in Hplan'. injection Hplan' as <- <-.
  assert (Hok : listingsOk demoWorld ["rg"; "rg"; "rg"]%string ["A"; "B"; "C"]%string).
  { intros i rg v _ _. eexists. split; [reflexivity|]. by repeat constructor. }
  destruct (Scale_in_drain_request demoWorld 9 demoConfig _ _ _ _ Hplan eq_refl Hok
              (Scale_seq_exec demoWorld 9 demoConfig)) as (_ & _ & rest & Htr).
  exists rest. exact Htr.
Defined.

(** ** [Scale], shrinking: each cleared node is deleted from its own scale set *)

Lemma collectedIDs_wellformed w :
  instanceIDsPlain w ->
  forall rgl vml r,
    r ∈ collectedIDs w rgl vml ->
    exists v i, r = formatRemoteID v i /\ v ∈ vml /\ ~ contains i "_".
Proof.
  intros Hplain rgl. induction rgl as [|rg rgl IH]; intros [|v vml] r Hin;
    try (by apply elem_of_nil in Hin).
  unfold collectedIDs in Hin. cbn [zip_with concat] in Hin.
  apply elem_of_app in Hin as [Hin|Hin].
  - unfold listedIDs in Hin.
    destruct (vmssVMs_List w rg v) as [pages|err] eqn:Hlist; [|by apply elem_of_nil in Hin].
    unfold runningIDs in Hin. apply list_elem_of_In, in_map_iff in Hin as (vm & <- & Hvm).
    apply filter_In in Hvm as [Hvm _]. apply list_elem_of_In in Hvm.
    exists v, (InstanceID vm). split_and!; [done | apply elem_of_cons; by left |].
    by eapply Hplain.
  - destruct (IH vml r Hin) as (v' & i & -> & Hv' & Hi).
    exists v', i. split_and!; [done | apply elem_of_cons; by right | done].
Qed.

Lemma scaleInLoop_complete rgl instanceIDs vml :
  forall idx0 i v,
    (idx0 + length vml <= length rgl)%nat ->
    vml !! i = Some v -> (instanceIDs !!! v : list string) <> [] ->
    exists rg,
      rgl !! (idx0 + i)%nat = Some rg /\
      (idx0 + i, ReqDeleteInstances rg v (instanceIDs !!! v))%nat
        ∈ dispatched (scaleInLoop rgl instanceIDs idx0 vml).
Proof.
  induction vml as [|v0 vml IH]; intros idx0 i v Hlen Hv Hne; [done|].
  simpl in Hlen. cbn [scaleInLoop].
  destruct (lookup_lt_is_Some_2 rgl idx0 ltac:(lia)) as [rg0 Hrg0]. rewrite Hrg0.
  destruct i as [|i].
  - injection Hv as ->. rewrite Nat.add_0_r. exists rg0. split; [done|].
    destruct (Nat.ltb_spec 0 (length (instanceIDs !!! v : list string))) as [Hpos|Hnp].
    + rewrite dispatched_go. apply elem_of_cons. by left.
    + destruct (instanceIDs !!! v : list string); [done | simpl in Hnp; lia].
  - simpl in Hv. destruct (IH (S idx0) i v ltac:(lia) Hv Hne) as (rg & Hrg & Hin).
    replace (idx0 + S i)%nat with (S idx0 + i)%nat by lia.
    exists rg. split; [done|].
    destruct (0 <? length (instanceIDs !!! v0 : list string))%nat.
    + rewrite dispatched_go. apply elem_of_cons. by right.
    + by rewrite dispatched_done.
Qed.

(** X9. Shrinking, when every listing succeeds, listed instance ids
    have no underscore and the scale-set names are distinct, also under
    [EqualFold]: if the pre-scale-in tasks return only remote ids they
    were given, [Scale] does not fail on an identifier, every delete
    request carries exactly the instance ids of the returned nodes of its
    own scale set, every scale set with a returned node gets its request,
    and the result is that of the post-scale-in tasks. *)
Theorem Scale_in_round_trip w count config tr0 pl ids tr o :
  planScale w count config [] = (tr0, inl pl) ->
  direction pl = "in"%string ->
  listingsOk w (resourceGroupList pl) (vmScaleSetList pl) ->
  instanceIDsPlain w ->
  NoDup (vmScaleSetList pl) ->
  (forall v v', v ∈ vmScaleSetList pl -> v' ∈ vmScaleSetList pl ->
     (EqualFold w v v' = true <-> v = v')) ->
  RunPreScaleInTasksWithRemoteCheck w config
    (collectedIDs w (resourceGroupList pl) (vmScaleSetList pl)) (num pl) = inl ids ->
  Forall (fun node => RemoteResourceID node
                        ∈ collectedIDs w (resourceGroupList pl) (vmScaleSetList pl)) ids ->
  Scale_exec w count config tr o ->
  o = postOutcome w config ids /\
  (forall idx req,
     (idx, req) ∈ requestsOf tr ->
     exists rg v,
       req = ReqDeleteInstances rg v (clearedFor v ids) /\
       resourceGroupList pl !! idx = Some rg /\ vmScaleSetList pl !! idx = Some v) /\
  (forall idx v,
     vmScaleSetList pl !! idx = Some v -> clearedFor v ids <> [] ->
     exists rg,
       resourceGroupList pl !! idx = Some rg /\
       (idx, ReqDeleteInstances rg v (clearedFor v ids)) ∈ requestsOf tr).
Proof.
  intros Hplan Hdir Hok Hplain Hnd Hfold Hpre Hsub Hexec.
  destruct (planScale_in_range _ _ _ _ _ Hplan) as (Hlen & _ & Hget).
  pose proof (Scale_exec_in _ _ _ _ _ _ _ Hplan Hdir Hexec) as Hexec'.
  destruct (ScaleIn_exec_shape _ _ _ _ _ _ Hlen Hexec') as (trc & r & Hcl & Hlist & Hshape).
  rewrite (collectLoop_ok w _ _ 0 [] tr0) in Hcl by (simpl; lia || done).
  rewrite drop_0 in Hcl. injection Hcl as Htrc <-. apply app_inv_head in Htrc as <-.
  destruct Hshape as [_ Hshape]. simpl in Hshape. rewrite Hpre in Hshape.
  assert (Hwf : Forall (fun node => exists v i,
                    RemoteResourceID node = formatRemoteID v i /\
                    v ∈ vmScaleSetList pl /\ ~ contains i "_") ids).
  { eapply Forall_impl; [exact Hsub|]. intros node Hnode. simpl in Hnode.
    by eapply collectedIDs_wellformed. }
  destruct (correlate_partition_aux w (vmScaleSetList pl) ids Hnd Hfold Hwf ∅)
    as (m & Hm & Hlook).
  rewrite Hm in Hshape. destruct Hshape as (evs & -> & _ & Hreq & _ & ->).
  assert (Hm' : forall v, (m !!! v : list string) = clearedFor v ids).
  { intros v. rewrite Hlook. by rewrite lookup_total_empty. }
  assert (Hq : requestsOf (tr0 ++ zip_with EvList (resourceGroupList pl) (vmScaleSetList pl)
                              ++ [EvPreScaleIn (collectedIDs w (resourceGroupList pl)
                                                  (vmScaleSetList pl)) (num pl)]
                              ++ evs ++ [EvPostScaleIn ids])
               ≡ₚ dispatched (scaleInLoop (resourceGroupList pl) m 0 (vmScaleSetList pl))).
  { rewrite !requestsOf_app, (requestsOf_gets _ Hget), (requestsOf_lists _ Hlist). simpl.
    by rewrite app_nil_r. }
  split_and!; [done | |].
  - intros idx req Hin. rewrite Hq in Hin.
    apply scaleInLoop_dispatched in Hin as (rg & v & -> & _ & Hrg & Hv & _).
    rewrite Nat.sub_0_r in Hv. exists rg, v. by rewrite Hm'.
  - intros idx v Hv Hne. rewrite <- Hm' in Hne.
    destruct (scaleInLoop_complete (resourceGroupList pl) m (vmScaleSetList pl) 0 idx v
                ltac:(simpl; lia) Hv Hne) as (rg & Hrg & Hin).
    simpl in Hrg, Hin. exists rg. split; [done|]. rewrite Hq, <- Hm'. done.
Qed.

Lemma Scale_in_round_trip_witness :
  snd (Scale_seq demoWorld 9 demoConfig) = Returned None /\
  (0%nat, ReqDeleteInstances "rg" "A" ["0"; "1"]%string)
    ∈ requestsOf (fst (Scale_seq demoWorld 9 demoConfig)).
Proof.
  destruct (planScale demoWorld 9 demoConfig []) as [tr0 [pl|o]] eqn:Hplan;
    [|vm_compute in Hplan; discriminate].
  pose proof Hplan as Hplan'. vm_compute in Hplan'. injection Hplan' as <- <-.
  assert (Hok : listingsOk demoWorld ["rg"; "rg"; "rg"]%string ["A"; "B"; "C"]%string).
  { intros i rg v _ _. eexists. split; [reflexivity|]. by repeat constructor. }
  assert (Hplain : instanceIDsPlain demoWorld).
  { intros rg v pages vm [= <-] Hvm. unfold contains.
    repeat (apply elem_of_cons in Hvm as [->|Hvm]); try (by apply elem_of_nil in Hvm);
      simpl; intros [H|H]; (discriminate H || exact H). }
  assert (Hnd : NoDup ["A"; "B"; "C"]%string).
  { repeat (apply NoDup_cons; split; [|]); try apply NoDup_nil_2;
      intros H; repeat (apply elem_of_cons in H as [H|H]; [discriminate H|]);
      by apply elem_of_nil in H. }
  assert (Hfold : forall v v', v ∈ ["A"; "B"; "C"]%string -> v' ∈ ["A"; "B"; "C"]%string ->
                    (EqualFold demoWorld v v' = true <-> v = v')).
  { intros v v' Hv Hv'.
    repeat (apply elem_of_cons in Hv as [->|Hv]);
      repeat (apply elem_of_cons in Hv' as [->|Hv']);
      try (by apply elem_of_nil in Hv); try (by apply elem_of_nil in Hv');
      split; (done || discriminate). }
  assert (Hsub : Forall (fun node => RemoteResourceID node
                           ∈ collectedIDs demoWorld ["rg"; "rg"; "rg"]%string
                                          ["A"; "B"; "C"]%string)
                        (clearFirst ["A_0"; "A_1"; "B_0"; "B_1"; "C_0"; "C_1"]%string 3)).
  { repeat constructor; vm_compute;
      repeat (first [apply elem_of_list_here | apply elem_of_list_further]). }
  destruct (Scale_in_round_trip demoWorld 9 demoConfig _ _ _ _ _ Hplan eq_refl Hok Hplain
              Hnd Hfold eq_refl Hsub (Scale_seq_exec demoWorld 9 demoConfig))
    as (Ho & _ & Hall).
  split; [exact Ho|].
  destruct (Hall 0%nat "A"%string eq_refl) as (rg & Hrg & Hin).
  - vm_compute. discriminate.
  - injection Hrg as <-. exact Hin.
Defined.

(** ** The WaitGroup *)

(** X10. Whatever the interleaving of the executors with the dispatch
    loop and with each other, in both branches of [Scale] the WaitGroup
    counter never goes below zero and [wg.Wait()] can always still
    return: the run can be continued until every executor has ended. *)
Theorem Scale_wait_never_blocks w count config tr0 pl :
  planScale w count config [] = (tr0, inl pl) ->
  (forall p,
     poolRun w (scaleOutLoop (resourceGroupList pl) (modulo pl) (reminder pl) 0
                             (vmScaleSetList pl))
             (length (vmScaleSetList pl)) tr0 p ->
     0 <= wg p /\ exists q, rtc (step w) p q /\ joined q) /\
  (forall tr1 actions ids p,
     scaleInPrepare w config pl tr0 = (tr1, inl (actions, ids)) ->
     poolRun w actions (length (vmScaleSetList pl)) tr1 p ->
     0 <= wg p /\ exists q, rtc (step w) p q /\ joined q).
Proof.
  intros Hplan.
  destruct (planScale_in_range _ _ _ _ _ Hplan) as (Hlen & _ & _).
  split.
  - intros p Hrun.
    destruct (scaleOutLoop_in_range (resourceGroupList pl) (modulo pl) (vmScaleSetList pl)
                (reminder pl) 0%nat ltac:(simpl; lia)) as [Hl Hno].
    rewrite <- Hl in Hrun. split.
    + pose proof (poolRun_inv _ _ _ _ _ Hrun) as (_ & _ & _ & _ & _ & _ & Hwg & _). lia.
    + by eapply pool_can_finish.
  - intros tr1 actions ids p Hprep Hrun.
    apply scaleInPrepare_inl in Hprep as (trc & remoteIDs & m & _ & _ & _ & _ & ->).
    destruct (scaleInLoop_in_range (resourceGroupList pl) m (vmScaleSetList pl)
                0%nat ltac:(simpl; lia)) as [Hl Hno].
    rewrite <- Hl in Hrun. split.
    + pose proof (poolRun_inv _ _ _ _ _ Hrun) as (_ & _ & _ & _ & _ & _ & Hwg & _). lia.
    + by eapply pool_can_finish.
Qed.

Lemma Scale_wait_never_blocks_witness :
  exists q,
    rtc (step demoWorld)
        (initPool [MGo 0 (ReqUpdate "rg" "A" 5); MGo 1 (ReqUpdate "rg" "B" 5);
                   MGo 2 (ReqUpdate "rg" "C" 5)] 3
                  [EvGet "rg" "A"; EvGet "rg" "B"; EvGet "rg" "C"]) q /\
    joined q.
Proof.
  destruct (planScale demoWorld 15 demoConfig []) as [tr0 [pl|o]] eqn:Hplan;
    [|vm_compute in Hplan; discriminate].
  destruct (Scale_wait_never_blocks demoWorld 15 demoConfig tr0 pl Hplan) as [Hout _].
  vm_compute in Hplan. injection Hplan as <- <-.
  destruct (Hout _ (rtc_refl _ _)) as [_ Hq]. exact Hq.
Defined.

(** ** [Status]: a failing query *)

(** The loop of [Status] stops at the first scale set one of whose two
    queries fails. *)
Lemma statusLoop_first_failure w rgl :
  forall k vml idx acc tr v rg,
    (forall i, (i < k)%nat ->
       exists rg' v' capacity instanceView,
         rgl !! (idx + i)%nat = Some rg' /\ vml !! i = Some v' /\
         vmss_Get w rg' v' = inl capacity /\
         vmss_GetInstanceView w rg' v' = inl instanceView) ->
    vml !! k = Some v -> rgl !! (idx + k)%nat = Some rg ->
    (forall err,
       vmss_Get w rg v = inr err ->
       statusLoop w rgl idx vml acc tr =
         (tr ++ statusCalls (take k (drop idx rgl)) (take k vml) ++ [EvGet rg v],
          inr (Returned (Some ("failed to get Azure ScaleSet: " +:+ err)%string)))) /\
    (forall capacity err,
       vmss_Get w rg v = inl capacity ->
       vmss_GetInstanceView w rg v = inr err ->
       statusLoop w rgl idx vml acc tr =
         (tr ++ statusCalls (take k (drop idx rgl)) (take k vml)
             ++ [EvGet rg v; EvGetInstanceView rg v],
          inr (Returned (Some ("failed to get Azure ScaleSet Instance View: " +:+ err)%string)))).
Proof.
  induction k as [|k IH]; intros vml idx acc tr v rg Hbefore Hv Hrg.
  - destruct vml as [|v0 vml]; [done|]. injection Hv as ->.
    rewrite Nat.add_0_r in Hrg. rewrite !take_0.
    split.
    + intros err Herr. cbn [statusLoop]. run_unfold. by rewrite Hrg, Herr.
    + intros capacity err Hget Herr. cbn [statusLoop]. run_unfold.
      rewrite Hrg, Hget, Herr. by rewrite <- app_assoc.
  - destruct vml as [|v0 vml]; [done|]. simpl in Hv.
    destruct (Hbefore 0%nat ltac:(lia)) as (rg0 & v0' & c0 & iv0 & Hrg0 & Hv0 & Hget0 & Hiv0).
    rewrite Nat.add_0_r in Hrg0. injection Hv0 as <-.
    assert (Hbefore' : forall i, (i < k)%nat ->
              exists rg' v' capacity instanceView,
                rgl !! (S idx + i)%nat = Some rg' /\ vml !! i = Some v' /\
                vmss_Get w rg' v' = inl capacity /\
                vmss_GetInstanceView w rg' v' = inl instanceView).
    { intros i Hi. destruct (Hbefore (S i) ltac:(lia)) as (rg' & v' & c' & iv' & ? & ? & ? & ?).
      exists rg', v', c', iv'. replace (S idx + i)%nat with (idx + S i)%nat by lia. done. }
    assert (Hrg' : rgl !! (S idx + k)%nat = Some rg).
    { by replace (S idx + k)%nat with (idx + S k)%nat by lia. }
    destruct (IH vml (S idx)
                (mergeStatus w (processInstanceView w iv0
                                  {| Ready := true; Count := c0; Meta := ∅ |}) acc)
                ((tr ++ [EvGet rg0 v0]) ++ [EvGetInstanceView rg0 v0]) v rg
                Hbefore' Hv Hrg') as [IHget IHview].
    rewrite (drop_S _ _ _ Hrg0). cbn [take]. unfold statusCalls in *. cbn [zip_with concat].
    split.
    + intros err Herr. cbn [statusLoop]. run_unfold. rewrite Hrg0, Hget0, Hiv0.
      rewrite (IHget err Herr). by rewrite <- !app_assoc.
    + intros capacity err Hget Herr. cbn [statusLoop]. run_unfold.
      rewrite Hrg0, Hget0, Hiv0. rewrite (IHview capacity err Hget Herr).
      by rewrite <- !app_assoc.
Qed.

(** X11. When the node pool is ready and one of the two queries of a
    scale set fails while the scale sets before it answer, [Status]
    returns that error and no status: it has queried the scale sets in
    order up to the failing call and none after it. *)
Theorem Status_query_failure w config s1 s2 k v rg :
  IsPoolReady w config = inl true ->
  config !! configKeyResourceGroupList = Some s1 ->
  config !! configKeyVMSSList = Some s2 ->
  (forall i, (i < k)%nat ->
     exists rg' v' capacity instanceView,
       Split s1 "," !! i = Some rg' /\ Split s2 "," !! i = Some v' /\
       vmss_Get w rg' v' = inl capacity /\
       vmss_GetInstanceView w rg' v' = inl instanceView) ->
  Split s2 "," !! k = Some v -> Split s1 "," !! k = Some rg ->
  (forall err,
     vmss_Get w rg v = inr err ->
     Status w config [] =
       (EvIsPoolReady :: statusCalls (take k (Split s1 ",")) (take k (Split s2 ","))
          ++ [EvGet rg v],
        inr (Returned (Some ("failed to get Azure ScaleSet: " +:+ err)%string)))) /\
  (forall capacity err,
     vmss_Get w rg v = inl capacity ->
     vmss_GetInstanceView w rg v = inr err ->
     Status w config [] =
       (EvIsPoolReady :: statusCalls (take k (Split s1 ",")) (take k (Split s2 ","))
          ++ [EvGet rg v; EvGetInstanceView rg v],
        inr (Returned (Some ("failed to get Azure ScaleSet Instance View: " +:+ err)%string)))).
Proof.
  intros Hpool H1 H2 Hbefore Hv Hrg.
  destruct (statusLoop_first_failure w (Split s1 ",") k (Split s2 ",") 0
              (true, 0, Int64.min_int64) ([] ++ [EvIsPoolReady]) v rg Hbefore Hv Hrg)
    as [Hget Hview].
  rewrite drop_0 in Hget, Hview.
  split.
  - intros err Herr. unfold Status. run_unfold. rewrite Hpool, H1, H2. cbn [negb].
    by rewrite (Hget err Herr).
  - intros capacity err Hc Herr. unfold Status. run_unfold. rewrite Hpool, H1, H2.
    cbn [negb]. by rewrite (Hview capacity err Hc Herr).
Qed.

Lemma Status_query_failure_witness :
  Status failingGetWorld demoConfig [] =
    ([EvIsPoolReady; EvGet "rg" "A"; EvGetInstanceView "rg" "A"; EvGet "rg" "B"],
     inr (Returned (Some "failed to get Azure ScaleSet: timeout"%string))).
Proof.
  assert (Hbefore : forall i, (i < 1)%nat ->
            exists rg' v' capacity instanceView,
              Split "rg,rg,rg" "," !! i = Some rg' /\ Split "A,B,C" "," !! i = Some v' /\
              vmss_Get failingGetWorld rg' v' = inl capacity /\
              vmss_GetInstanceView failingGetWorld rg' v' = inl instanceView).
  { intros [|i] Hi; [|lia]. exists "rg"%string, "A"%string, 4. eexists.
    split_and!; reflexivity. }
  destruct (Status_query_failure failingGetWorld demoConfig "rg,rg,rg" "A,B,C" 1%nat
              "B" "rg" eq_refl eq_refl eq_refl Hbefore eq_refl eq_refl) as [Hget _].
  exact (Hget "timeout"%string eq_refl).
Defined.

(** ** [processInstanceView] on any status *)

(** X12. [processInstanceView] never changes [Count], never raises
    [Ready] (it keeps it only if every code of both status collections is
    "ProvisioningState/succeeded"), and touches no [Meta] entry but the
    last-event one, which it sets to the latest populated time when one
    is above the least [int64] and leaves alone otherwise. *)
Theorem processInstanceView_effect w instanceView status :
  Count (processInstanceView w instanceView status) = Count status /\
  Ready (processInstanceView w instanceView status)
    = Ready status && viewReady instanceView /\
  (forall key, key <> TargetStatusMetaKeyLastEvent w ->
     Meta (processInstanceView w instanceView status) !! key = Meta status !! key) /\
  (maxTime Int64.min_int64 (knownTimes instanceView) > Int64.min_int64 ->
     Meta (processInstanceView w instanceView status) !! TargetStatusMetaKeyLastEvent w
       = Some (FormatInt (maxTime Int64.min_int64 (knownTimes instanceView)))) /\
  (maxTime Int64.min_int64 (knownTimes instanceView) <= Int64.min_int64 ->
     Meta (processInstanceView w instanceView status) = Meta status).
Proof.
  unfold processInstanceView. rewrite statusesLoop_spec, summaryLoop_spec.
  cbn [Ready Count Meta]. fold (knownTimes instanceView).
  split_and!.
  - done.
  - unfold viewReady. by rewrite andb_assoc.
  - intros key Hkey.
    destruct (maxTime Int64.min_int64 (knownTimes instanceView) >? Int64.min_int64); [|done].
    by rewrite lookup_insert_ne.
  - intros Hgt.
    destruct (Z.gtb_spec (maxTime Int64.min_int64 (knownTimes instanceView)) Int64.min_int64);
      [|lia].
    by rewrite lookup_insert_eq.
  - intros Hle.
    destruct (Z.gtb_spec (maxTime Int64.min_int64 (knownTimes instanceView)) Int64.min_int64);
      [lia | done].
Qed.

Lemma processInstanceView_effect_witness :
  Meta (processInstanceView demoWorld
          {| StatusesSummary := [];
             Statuses := [ {| Code := succeeded; Time := Some 7 |};
                           {| Code := succeeded; Time := Some 3 |} ] |}
          {| Ready := true; Count := 2; Meta := {[ "zone"%string := "1"%string ]} |})
    !! "nomad_autoscaler.last_event"%string = Some "7"%string.
Proof.
  set (iv := {| StatusesSummary := [];
                Statuses := [ {| Code := succeeded; Time := Some 7 |};
                              {| Code := succeeded; Time := Some 3 |} ] |}).
  destruct (processInstanceView_effect demoWorld iv
              {| Ready := true; Count := 2; Meta := {[ "zone"%string := "1"%string ]} |})
    as (_ & _ & _ & Hset & _).
  apply Hset. vm_compute. reflexivity.
Defined.
(** * The list plugin *)

Lemma AtoiFails_FormatInt z : Int64.in_range z -> AtoiFails (FormatInt z) = false.
Proof.
  unfold Int64.in_range, Int64.min_int64, Int64.max_int64. intros Hr.
  unfold FormatInt. destruct z as [|p|p]; [reflexivity | |].
  - cbn [Z.to_int NilZero.string_of_int NilZero.string_of_uint].
    pose proof (ParseUint_to_uint p ltac:(lia)) as Hp.
    pose proof (DecimalPos.Unsigned.to_uint_nonnil p) as Hnil.
    unfold AtoiFails.
    destruct (Pos.to_uint p) as [|d|d|d|d|d|d|d|d|d|d] eqn:Hd; [done|..];
      cbn [NilZero.string_of_uint NilEmpty.string_of_uint] in *;
      rewrite Hp; (destruct (Z.geb_spec (Z.pos p) (2 ^ 63)); [lia | done]).
  - cbn [Z.to_int NilZero.string_of_int].
    pose proof (ParseUint_to_uint p ltac:(lia)) as Hp.
    unfold AtoiFails.
    replace (NilZero.string_of_uint (Pos.to_uint p))
      with (NilEmpty.string_of_uint (Pos.to_uint p))
      by (by destruct (Pos.to_uint p)).
    rewrite Hp. destruct (Z.gtb_spec (Z.pos p) (2 ^ 63)); [lia | done].
Qed.

(** The value [Atoi] returns beside an error. *)
Lemma AtoiFails_value s :
  AtoiFails s = true ->
  ParseInt s = 0 \/ ParseInt s = Int64.max_int64 \/ ParseInt s = Int64.min_int64.
Proof.
  unfold AtoiFails, ParseInt.
  destruct (match s with
            | String "+" rest => (false, rest)
            | String "-" rest => (true, rest)
            | _ => (false, s)
            end) as [neg digits].
  destruct (ParseUint digits) as [un| |]; [|by left|destruct neg; auto].
  destruct neg; intros ->; auto.
Qed.

Lemma listSetConfigLoop_ok newPlugin subSetConfig config n :
  forall i plugins plugins',
    listSetConfigLoop newPlugin subSetConfig config n i plugins = (plugins', None) ->
    plugins' = plugins ++ map newPlugin (seq i n).
Proof.
  induction n as [|n IH]; intros i plugins plugins' H; simpl in H.
  - injection H as <-. by rewrite app_nil_r.
  - destruct (subSetConfig i config); [discriminate|].
    apply IH in H. rewrite H, <- app_assoc. done.
Qed.

(** What [SetConfig] leaves behind when it returns nil. *)
Lemma ListSetConfig_ok newPlugin subSetConfig config plugins plugins' :
  ListSetConfig newPlugin subSetConfig config plugins = (plugins', None) ->
  exists vmssCountStr k,
    config !! configKeyVMSSCount = Some vmssCountStr /\
    AtoiFails vmssCountStr = true /\
    plugins' = plugins ++ map newPlugin (seq 0 k) /\
    (k = 0%nat \/ k = Z.to_nat Int64.max_int64).
Proof.
  intros H. unfold ListSetConfig in H.
  destruct (config !! configKeyVMSSCount) as [s|]; [|discriminate].
  destruct (AtoiFails s) eqn:Hatoi; [|discriminate]. simpl in H.
  apply listSetConfigLoop_ok in H.
  exists s, (Z.to_nat (ParseInt s)). split_and!; [done..|].
  destruct (AtoiFails_value s Hatoi) as [-> | [-> | ->]]; auto.
Qed.

(** X13. [SetConfig] of the list plugin refuses every count that is a
    number: for the decimal form of any [int64] it returns "... is not a
    number" and creates no plugin. Whenever it returns nil, the count was
    one [Atoi] rejects, and the plugins it has added number zero or
    [2^63 - 1]. *)
Theorem ListSetConfig_rejects_numbers newPlugin subSetConfig config plugins :
  (forall n, Int64.in_range n ->
     config !! configKeyVMSSCount = Some (FormatInt n) ->
     ListSetConfig newPlugin subSetConfig config plugins =
       (plugins, Some "required config param vmss_count is not a number"%string)) /\
  (forall plugins',
     ListSetConfig newPlugin subSetConfig config plugins = (plugins', None) ->
     exists vmssCountStr k,
       config !! configKeyVMSSCount = Some vmssCountStr /\
       AtoiFails vmssCountStr = true /\
       plugins' = plugins ++ map newPlugin (seq 0 k) /\
       (k = 0%nat \/ k = Z.to_nat Int64.max_int64)).
Proof.
  split.
  - intros n Hn Hcfg. unfold ListSetConfig. rewrite Hcfg.
    by rewrite (AtoiFails_FormatInt n Hn).
  - intros plugins' H. exact (ListSetConfig_ok _ _ _ _ _ H).
Qed.

Lemma ListSetConfig_rejects_numbers_witness :
  ListSetConfig (fun _ => okPlugin) (fun _ _ => None)
                {[ configKeyVMSSCount := "3"%string ]} [] =
    ([], Some "required config param vmss_count is not a number"%string).
Proof.
  destruct (ListSetConfig_rejects_numbers (fun _ => okPlugin) (fun _ _ => None)
              {[ configKeyVMSSCount := "3"%string ]} []) as [Hnum _].
  apply (Hnum 3); [vm_compute; split; discriminate | reflexivity].
Defined.

(** ** [Scale] of the list plugin *)

Lemma shardConfig_shardConfig config rg0 v0 rg v :
  shardConfig (shardConfig config rg0 v0) rg v = shardConfig config rg v.
Proof.
  unfold shardConfig. apply map_eq. intros key.
  destruct (decide (key = configKeyVMSS)) as [->|Hv].
  - by rewrite !lookup_insert_eq.
  - rewrite !(lookup_insert_ne _ configKeyVMSS) by done.
    destruct (decide (key = configKeyResourceGroup)) as [->|Hrg].
    + by rewrite !lookup_insert_eq.
    + repeat (rewrite lookup_insert_ne by done). done.
Qed.

Lemma listScale_step count i :
  Int64.in_range count ->
  (let '(j, i') := if 0 <? i then (1, Int64.sub i 1) else (0, i) in
   (Int64.add count j, i')) = splitStep count i.
Proof.
  intros Hc. unfold splitStep. destruct (0 <? i); [done|].
  unfold Int64.add. by rewrite Z.add_0_r, wrap_id.
Qed.

(** The loop of [Scale] when every plugin accepts its call. *)
Lemma listScaleLoop_ok plugins rgl count config0 :
  Int64.in_range count ->
  (forall p, p ∈ plugins -> forall c cfg, subScale p c cfg = None) ->
  forall vml i idx config tr,
    (forall rg v, shardConfig config rg v = shardConfig config0 rg v) ->
    (idx + length vml <= length rgl)%nat ->
    (idx + length vml <= length plugins)%nat ->
    exists tr',
      listScaleLoop plugins rgl count i idx vml config tr =
        (tr ++ tr', default config (last (listEventConfig <$> tr')), Returned None) /\
      listEventIdx <$> tr' = seq idx (length vml) /\
      listEventCount <$> tr' = perShardCounts count i vml /\
      listEventConfig <$> tr' = zip_with (shardConfig config0) (drop idx rgl) vml.
Proof.
  intros Hc Hok. induction vml as [|v vml IH]; intros i idx config tr Hcfg Hrgl Hpl.
  - exists []. simpl. rewrite app_nil_r. split_and!; try done.
    by destruct (drop idx rgl).
  - simpl length in *. cbn [listScaleLoop perShardCounts].
    pose proof (listScale_step count i Hc) as Hstep.
    destruct (if 0 <? i then (1, Int64.sub i 1) else (0, i)) as [j i'].
    rewrite <- Hstep.
    destruct (lookup_lt_is_Some_2 rgl idx ltac:(lia)) as [rg Hrg].
    destruct (lookup_lt_is_Some_2 plugins idx ltac:(lia)) as [p Hp].
    rewrite Hrg, Hp.
    rewrite (Hok p (list_elem_of_lookup_2 _ _ _ Hp)).
    destruct (IH i' (S idx) (shardConfig config rg v)
                 (tr ++ [LScale idx (Int64.add count j) (shardConfig config rg v)]))
      as (tr' & Hrun & Hidx & Hcnt & Hcfgs).
    { intros rg' v'. rewrite Hcfg. apply shardConfig_shardConfig. }
    { lia. }
    { lia. }
    exists (LScale idx (Int64.add count j) (shardConfig config rg v) :: tr').
    rewrite Hrun, <- app_assoc. split_and!.
    + f_equal. f_equal. cbn [fmap list_fmap listEventConfig].
      change (list_fmap _ _ listEventConfig tr') with (listEventConfig <$> tr').
      rewrite last_cons. by destruct (last (listEventConfig <$> tr')).
    + cbn [fmap list_fmap listEventIdx seq]. f_equal. exact Hidx.
    + cbn [fmap list_fmap listEventCount]. f_equal. exact Hcnt.
    + cbn [fmap list_fmap listEventConfig].
      rewrite (drop_S _ _ _ Hrg). cbn [zip_with]. rewrite Hcfg. f_equal. exact Hcfgs.
Qed.

(** X14. When the count is a non-negative [int64], the call is no dry
    run, both lists are there and there is a resource group and a plugin
    for every scale set, and every plugin accepts: [Scale] of the list
    plugin returns nil after one call per scale set, in input order; the
    counts of the calls are the per-shard split of the count, their sum
    is the count; call [k] receives the caller's map with
    ["resource_group"] and ["vm_scale_set"] set to the [k]-th entries of
    the two lists; and the caller's map is left as handed to the last
    call. *)
Theorem ListScale_splits_count w plugins count config s1 s2 :
  count <> StrategyActionMetaValueDryRunCount w ->
  0 <= count -> Int64.in_range count ->
  config !! configKeyResourceGroupList = Some s1 ->
  config !! configKeyVMSSList = Some s2 ->
  (length (Split s2 ",") <= length (Split s1 ","))%nat ->
  (length (Split s2 ",") <= length plugins)%nat ->
  (forall p, p ∈ plugins -> forall c cfg, subScale p c cfg = None) ->
  exists tr config',
    ListScale w plugins count config = (tr, config', Returned None) /\
    listEventIdx <$> tr = seq 0 (length (Split s2 ",")) /\
    listEventCount <$> tr =
      perShardCounts (count / Z.of_nat (length (Split s2 ",")))
                     (count mod Z.of_nat (length (Split s2 ","))) (Split s2 ",") /\
    sumZ (listEventCount <$> tr) = count /\
    listEventConfig <$> tr = zip_with (shardConfig config) (Split s1 ",") (Split s2 ",") /\
    last (listEventConfig <$> tr) = Some config'.
Proof.
  intros Hdry Hnn Hr Hs1 Hs2 Hrgl Hpl Hok.
  pose proof (Split_length s2 ",") as Hlen.
  set (n := Z.of_nat (length (Split s2 ","))) in *.
  assert (0 < n) as Hn by (subst n; lia).
  destruct (quot_pos count n Hnn Hr Hn) as [Hq Hm].
  unfold ListScale.
  destruct (Z.eqb_spec count (StrategyActionMetaValueDryRunCount w)); [done|].
  rewrite Hs1, Hs2. fold n. rewrite Hq, Hm.
  assert (Int64.in_range (count / n)) as Hcr.
  { pose proof (Z.div_pos count n Hnn Hn).
    assert (count / n <= count) by (apply Z.div_le_upper_bound; nia).
    unfold Int64.in_range, Int64.min_int64, Int64.max_int64 in *. lia. }
  destruct (listScaleLoop_ok plugins (Split s1 ",") (count / n) config Hcr Hok
              (Split s2 ",") (count mod n) 0%nat config [])
    as (tr & Hrun & Hidx & Hcnt & Hcfgs); [done | lia | lia |].
  exists tr, (default config (last (listEventConfig <$> tr))).
  rewrite Hrun. split_and!; try done.
  - rewrite Hcnt, perShardCounts_sum.
    + fold n. rewrite (Z.div_mod count n) at 3 by lia. lia.
    + by apply splitOk_div.
    + fold n. pose proof (Z.mod_pos_bound count n Hn). lia.
  - destruct (last (listEventConfig <$> tr)) as [c|] eqn:Hlast; [done|].
    apply last_None in Hlast. apply (f_equal length) in Hidx.
    rewrite length_fmap, length_seq in Hidx.
    apply (f_equal length) in Hlast. rewrite length_fmap in Hlast. simpl in Hlast. lia.
Qed.

Lemma ListScale_splits_count_witness :
  exists tr config',
    ListScale demoWorld [okPlugin; okPlugin; okPlugin] 14 demoConfig
      = (tr, config', Returned None) /\
    listEventCount <$> tr = [5; 5; 4] /\
    config' !! configKeyVMSS = Some "C"%string.
Proof.
  destruct (ListScale_splits_count demoWorld [okPlugin; okPlugin; okPlugin] 14 demoConfig
              "rg,rg,rg" "A,B,C")
    as (tr & config' & Hrun & _ & Hcnt & _ & Hcfgs & Hlast).
  - vm_compute. discriminate.
  - lia.
  - vm_compute. split; discriminate.
  - reflexivity.
  - reflexivity.
  - vm_compute. lia.
  - vm_compute. lia.
  - intros p Hp c cfg.
    repeat (apply elem_of_cons in Hp as [-> | Hp]; [reflexivity|]).
    by apply elem_of_nil in Hp.
  - exists tr, config'. split_and!; [done | by rewrite Hcnt | ].
    rewrite Hcfgs in Hlast. vm_compute in Hlast. by injection Hlast as <-.
Defined.

(** The loop of [Scale] returns at the first plugin that fails. *)
Lemma listScaleLoop_fail_fast plugins rgl count config0 err :
  forall k vml i idx config tr rg v p,
    (forall rg' v', shardConfig config rg' v' = shardConfig config0 rg' v') ->
    rgl !! (idx + k)%nat = Some rg -> vml !! k = Some v ->
    plugins !! (idx + k)%nat = Some p ->
    (forall c, subScale p c (shardConfig config0 rg v) = Some err) ->
    (forall j rg' v' p', (j < k)%nat ->
       rgl !! (idx + j)%nat = Some rg' -> vml !! j = Some v' ->
       plugins !! (idx + j)%nat = Some p' ->
       forall c, subScale p' c (shardConfig config0 rg' v') = None) ->
    (forall j, (j < k)%nat ->
       is_Some (rgl !! (idx + j)%nat) /\ is_Some (plugins !! (idx + j)%nat)) ->
    exists tr',
      listScaleLoop plugins rgl count i idx vml config tr =
        (tr ++ tr', shardConfig config0 rg v, Returned (Some err)) /\
      listEventIdx <$> tr' = seq idx (S k).
Proof.
  induction k as [|k IH]; intros vml i idx config tr rg v p Hcfg Hrg Hv Hp Herr Hok Hex;
    destruct vml as [|v0 vml]; try discriminate; cbn [listScaleLoop].
  - rewrite Nat.add_0_r in Hrg, Hp. injection Hv as ->.
    destruct (if 0 <? i then (1, Int64.sub i 1) else (0, i)) as [j i'].
    rewrite Hrg, Hp, Hcfg, Herr. eexists. split; [reflexivity|done].
  - destruct (if 0 <? i then (1, Int64.sub i 1) else (0, i)) as [j i'].
    destruct (Hex 0%nat ltac:(lia)) as [[rg0 Hrg0] [p0 Hp0]].
    rewrite Nat.add_0_r in Hrg0, Hp0. rewrite Hrg0, Hp0, Hcfg.
    rewrite (Hok 0%nat rg0 v0 p0); [|lia|by rewrite Nat.add_0_r..|done|by rewrite Nat.add_0_r].
    destruct (IH vml i' (S idx) (shardConfig config0 rg0 v0)
                 (tr ++ [LScale idx (Int64.add count j) (shardConfig config0 rg0 v0)])
                 rg v p) as (tr' & Hrun & Hidx).
    + intros rg' v'. apply shardConfig_shardConfig.
    + by replace (S idx + k)%nat with (idx + S k)%nat by lia.
    + done.
    + by replace (S idx + k)%nat with (idx + S k)%nat by lia.
    + done.
    + intros j0 rg' v' p' Hj Hrg' Hv' Hp'.
      replace (S idx + j0)%nat with (idx + S j0)%nat in * by lia.
      apply (Hok (S j0)); [lia|done..].
    + intros j0 Hj. replace (S idx + j0)%nat with (idx + S j0)%nat by lia.
      apply Hex. lia.
    + exists (LScale idx (Int64.add count j) (shardConfig config0 rg0 v0) :: tr').
      rewrite Hrun, <- app_assoc. split; [done|].
      cbn [fmap list_fmap listEventIdx]. by rewrite Hidx.
Qed.

(** X15. [Scale] of the list plugin stops at the first plugin that
    fails: if the plugins before position [k] accept their calls and the
    one at [k] returns [err], [Scale] returns [err] after exactly the
    calls to the plugins [0..k], the scale sets after [k] are not
    scaled, and the caller's map is left naming scale set [k]. *)
Theorem ListScale_fail_fast w plugins count config s1 s2 k rg v p err :
  count <> StrategyActionMetaValueDryRunCount w ->
  config !! configKeyResourceGroupList = Some s1 ->
  config !! configKeyVMSSList = Some s2 ->
  Split s1 "," !! k = Some rg -> Split s2 "," !! k = Some v ->
  plugins !! k = Some p ->
  (forall c, subScale p c (shardConfig config rg v) = Some err) ->
  (forall j rg' v' p', (j < k)%nat ->
     Split s1 "," !! j = Some rg' -> Split s2 "," !! j = Some v' ->
     plugins !! j = Some p' ->
     forall c, subScale p' c (shardConfig config rg' v') = None) ->
  exists tr,
    ListScale w plugins count config =
      (tr, shardConfig config rg v, Returned (Some err)) /\
    listEventIdx <$> tr = seq 0 (S k).
Proof.
  intros Hdry Hs1 Hs2 Hrg Hv Hp Herr Hok.
  unfold ListScale.
  destruct (Z.eqb_spec count (StrategyActionMetaValueDryRunCount w)); [done|].
  rewrite Hs1, Hs2.
  pose proof (Split_length s2 ",") as Hlen.
  unfold Int64.quot, Int64.rem.
  destruct (Z.eqb_spec (Z.of_nat (length (Split s2 ","))) 0); [lia|].
  apply (listScaleLoop_fail_fast plugins (Split s1 ",") _ config err k (Split s2 ",")
           _ 0%nat config [] rg v p); try done.
  intros j Hj. simpl. split; apply lookup_lt_is_Some_2.
  - apply lookup_lt_Some in Hrg. lia.
  - apply lookup_lt_Some in Hp. lia.
Qed.

Lemma ListScale_fail_fast_witness :
  exists tr,
    ListScale demoWorld [okPlugin; failingPlugin; okPlugin] 14 demoConfig =
      (tr, shardConfig demoConfig "rg" "B", Returned (Some "scale failed"%string)) /\
    listEventIdx <$> tr = [0; 1]%nat.
Proof.
  apply (ListScale_fail_fast demoWorld [okPlugin; failingPlugin; okPlugin] 14 demoConfig
           "rg,rg,rg" "A,B,C" 1%nat "rg" "B" failingPlugin "scale failed").
  - vm_compute. discriminate.
  - reflexivity.
  - reflexivity.
  - reflexivity.
  - reflexivity.
  - reflexivity.
  - reflexivity.
  - intros [|j] rg' v' p' Hj Hrg' Hv' Hp' c; [|lia].
    injection Hp' as <-. reflexivity.
Defined.

(** With fewer plugins than scale sets the loop of [Scale] cannot end
    with nil. *)
Lemma listScaleLoop_short plugins rgl count :
  forall vml i idx config tr,
    (idx <= length plugins)%nat ->
    (length plugins < idx + length vml)%nat ->
    (listScaleLoop plugins rgl count i idx vml config tr).2 <> Returned None.
Proof.
  induction vml as [|v vml IH]; intros i idx config tr Hidx Hlen; simpl in Hlen; [lia|].
  cbn [listScaleLoop].
  destruct (if 0 <? i then (1, Int64.sub i 1) else (0, i)) as [j i'].
  destruct (rgl !! idx) as [rg|]; [|done].
  destruct (plugins !! idx) as [p|] eqn:Hp; [|done].
  destruct (subScale p (Int64.add count j) (shardConfig config rg v)); [done|].
  apply lookup_lt_Some in Hp. apply IH; lia.
Qed.

(** X16. With fewer plugins than scale sets in ["vm_scale_set_list"],
    [Scale] of the list plugin never returns nil on a call that is no
    dry run and has both lists; with no plugin at all it panics at the
    first scale set, before any call and after writing the first
    resource group and scale set into the caller's map. *)
Theorem ListScale_too_few_plugins w plugins count config s1 s2 :
  count <> StrategyActionMetaValueDryRunCount w ->
  config !! configKeyResourceGroupList = Some s1 ->
  config !! configKeyVMSSList = Some s2 ->
  (length plugins < length (Split s2 ","))%nat ->
  (ListScale w plugins count config).2 <> Returned None /\
  (plugins = [] ->
   exists rg v,
     Split s1 "," !! 0%nat = Some rg /\ Split s2 "," !! 0%nat = Some v /\
     ListScale w plugins count config = ([], shardConfig config rg v, Panicked)).
Proof.
  intros Hdry Hs1 Hs2 Hlen. unfold ListScale.
  destruct (Z.eqb_spec count (StrategyActionMetaValueDryRunCount w)); [done|].
  rewrite Hs1, Hs2. unfold Int64.quot, Int64.rem.
  destruct (Z.eqb_spec (Z.of_nat (length (Split s2 ","))) 0); [lia|].
  split.
  - apply listScaleLoop_short; lia.
  - intros ->.
    pose proof (Split_length s1 ",") as Hl1.
    destruct (Split s1 ",") as [|rg rgl]; [simpl in Hl1; lia|].
    destruct (Split s2 ",") as [|v vml]; [simpl in Hlen; lia|].
    exists rg, v. split_and!; [done..|].
    cbn [listScaleLoop].
    by destruct (if 0 <? _ then (1, Int64.sub _ 1) else (0, _)) as [j i'].
Qed.

Lemma ListScale_too_few_plugins_witness :
  (ListScale demoWorld [okPlugin; okPlugin] 14 demoConfig).2 <> Returned None.
Proof.
  apply (ListScale_too_few_plugins demoWorld [okPlugin; okPlugin] 14 demoConfig
           "rg,rg,rg" "A,B,C").
  - vm_compute. discriminate.
  - reflexivity.
  - reflexivity.
  - vm_compute. lia.
Defined.

(** X17. A list plugin that [SetConfig] has configured cannot scale:
    when [SetConfig] on a fresh plugin returns nil and has left fewer
    than [2^63 - 1] plugins, it has left none, and every later [Scale]
    that is no dry run and has both lists panics at the first scale set
    without calling any plugin. *)
Theorem ListPlugin_configured_cannot_scale newPlugin subSetConfig config0 plugins
    w count config s1 s2 :
  ListSetConfig newPlugin subSetConfig config0 [] = (plugins, None) ->
  (length plugins < Z.to_nat Int64.max_int64)%nat ->
  count <> StrategyActionMetaValueDryRunCount w ->
  config !! configKeyResourceGroupList = Some s1 ->
  config !! configKeyVMSSList = Some s2 ->
  plugins = [] /\
  exists rg v,
    Split s1 "," !! 0%nat = Some rg /\ Split s2 "," !! 0%nat = Some v /\
    ListScale w plugins count config = ([], shardConfig config rg v, Panicked).
Proof.
  intros Hset Hfew Hdry Hs1 Hs2.
  destruct (ListSetConfig_ok _ _ _ _ _ Hset) as (s & k & _ & _ & -> & [-> | ->]).
  - split; [done|]. simpl.
    unfold ListScale.
    destruct (Z.eqb_spec count (StrategyActionMetaValueDryRunCount w)); [done|].
    rewrite Hs1, Hs2. unfold Int64.quot, Int64.rem.
    pose proof (Split_length s1 ",") as Hl1. pose proof (Split_length s2 ",") as Hl2.
    destruct (Z.eqb_spec (Z.of_nat (length (Split s2 ","))) 0); [lia|].
    destruct (Split s1 ",") as [|rg rgl]; [simpl in Hl1; lia|].
    destruct (Split s2 ",") as [|v vml]; [simpl in Hl2; lia|].
    exists rg, v. split_and!; [done..|].
    cbn [listScaleLoop].
    by destruct (if 0 <? _ then (1, Int64.sub _ 1) else (0, _)) as [j i'].
  - rewrite app_nil_l, length_map, length_seq in Hfew. lia.
Qed.

Lemma ListPlugin_configured_cannot_scale_witness :
  ListScale demoWorld [] 14 demoConfig = ([], shardConfig demoConfig "rg" "A", Panicked).
Proof.
  destruct (ListPlugin_configured_cannot_scale (fun _ => okPlugin) (fun _ _ => None)
              {[ configKeyVMSSCount := "three"%string ]} [] demoWorld 14 demoConfig
              "rg,rg,rg" "A,B,C") as (_ & rg & v & Hrg & Hv & Hrun).
  - reflexivity.
  - cbn [length]. unfold Int64.max_int64. lia.
  - vm_compute. discriminate.
  - reflexivity.
  - reflexivity.
  - injection Hrg as <-. injection Hv as <-. exact Hrun.
Defined.

(** ** [Status] of the list plugin *)

Lemma foldl_listMerge w sts :
  forall ready total latest,
    foldl (listMerge w) (ready, Int64.wrap total, latest) sts =
      (ready && forallb Ready sts,
       Int64.wrap (total + sumZ (Count <$> sts)),
       maxTime latest (listLastEvent w <$> sts)).
Proof.
  induction sts as [|st sts IH]; intros ready total latest.
  - simpl. by rewrite andb_true_r, Z.add_0_r.
  - cbn [foldl listMerge]. unfold Int64.add. rewrite wrap_add_l.
    fold (listLastEvent w st). rewrite IH.
    cbn [forallb fmap list_fmap]. rewrite maxTime_cons, sumZ_cons.
    f_equal; [f_equal|].
    + by destruct ready, (Ready st).
    + f_equal. lia.
    + f_equal. destruct (Z.gtb_spec (listLastEvent w st) latest); lia.
Qed.

Lemma maxTime_elem a x l : x ∈ l -> x <= maxTime a l.
Proof.
  revert a. induction l as [|y l IH]; intros a Hx; [by apply elem_of_nil in Hx|].
  rewrite maxTime_cons. apply elem_of_cons in Hx as [-> | Hx].
  - pose proof (maxTime_ge (Z.max a y) l). lia.
  - by apply IH.
Qed.

Lemma maxTime_le a b l : a <= b -> Forall (fun x => x <= b) l -> maxTime a l <= b.
Proof.
  intros Ha Hl. revert a Ha. induction Hl as [|x l Hx _ IH]; intros a Ha; [done|].
  rewrite maxTime_cons. apply IH. lia.
Qed.

Lemma listLastEvent_missing w status :
  Meta status !! TargetStatusMetaKeyLastEvent w = None -> listLastEvent w status = 0.
Proof.
  intros H. unfold listLastEvent. by rewrite lookup_total_alt, H.
Qed.

(** The loop of [Status] when every plugin answers. *)
Lemma listStatusLoop_ok w plugins rgl config0 :
  forall vml idx acc config tr sts,
    (forall rg v, shardConfig config rg v = shardConfig config0 rg v) ->
    length sts = length vml ->
    (forall j v st, vml !! j = Some v -> sts !! j = Some st ->
       exists rg p,
         rgl !! (idx + j)%nat = Some rg /\ plugins !! (idx + j)%nat = Some p /\
         subStatus p (shardConfig config0 rg v) = inl st) ->
    exists tr',
      listStatusLoop w plugins rgl idx vml acc config tr =
        (tr ++ tr', default config (last (listEventConfig <$> tr')),
         inl (foldl (listMerge w) acc sts)) /\
      listEventIdx <$> tr' = seq idx (length vml) /\
      listEventConfig <$> tr' = zip_with (shardConfig config0) (drop idx rgl) vml.
Proof.
  induction vml as [|v vml IH]; intros idx acc config tr sts Hcfg Hlen Hsts;
    destruct sts as [|st sts]; try discriminate.
  - exists []. simpl. rewrite app_nil_r. split_and!; try done.
    by destruct (drop idx rgl).
  - cbn [listStatusLoop foldl].
    destruct (Hsts 0%nat v st eq_refl eq_refl) as (rg & p & Hrg & Hp & Hst).
    rewrite Nat.add_0_r in Hrg, Hp. rewrite Hrg, Hp, Hcfg, Hst.
    destruct (IH (S idx) (listMerge w acc st) (shardConfig config0 rg v)
                 (tr ++ [LStatus idx (shardConfig config0 rg v)]) sts)
      as (tr' & Hrun & Hidx & Hcfgs).
    { intros rg' v'. apply shardConfig_shardConfig. }
    { simpl in Hlen. lia. }
    { intros j v' st' Hv' Hst'.
      replace (S idx + j)%nat with (idx + S j)%nat by lia. by apply Hsts. }
    exists (LStatus idx (shardConfig config0 rg v) :: tr').
    rewrite Hrun, <- app_assoc. split_and!.
    + f_equal. f_equal. cbn [fmap list_fmap listEventConfig].
      change (list_fmap _ _ listEventConfig tr') with (listEventConfig <$> tr').
      rewrite last_cons. by destruct (last (listEventConfig <$> tr')).
    + cbn [fmap list_fmap listEventIdx length seq]. f_equal. exact Hidx.
    + cbn [fmap list_fmap listEventConfig].
      rewrite (drop_S _ _ _ Hrg). cbn [zip_with]. f_equal. exact Hcfgs.
Qed.

(** X18. When both lists are there and the plugin of every scale set
    answers, [Status] of the list plugin asks every plugin once, in
    input order, each with the caller's map naming its resource group
    and scale set, and returns: [Ready], the conjunction of the plugins'
    [Ready]; [Count], the [int64] sum of their counts; and as last event
    the greatest of the plugins' last events, where a plugin without a
    last event counts as [0]. So the reported last event is at least [0]
    as soon as one plugin reports none, and is ["0"] when no plugin
    reports one. *)
Theorem ListStatus_aggregates w plugins config s1 s2 sts :
  config !! configKeyResourceGroupList = Some s1 ->
  config !! configKeyVMSSList = Some s2 ->
  length sts = length (Split s2 ",") ->
  (forall j v st, Split s2 "," !! j = Some v -> sts !! j = Some st ->
     exists rg p,
       Split s1 "," !! j = Some rg /\ plugins !! j = Some p /\
       subStatus p (shardConfig config rg v) = inl st) ->
  exists tr config' status,
    ListStatus w plugins config = (tr, config', inl status) /\
    listEventIdx <$> tr = seq 0 (length sts) /\
    listEventConfig <$> tr = zip_with (shardConfig config) (Split s1 ",") (Split s2 ",") /\
    Ready status = forallb Ready sts /\
    Count status = Int64.wrap (sumZ (Count <$> sts)) /\
    Meta status =
      {[ TargetStatusMetaKeyLastEvent w :=
           FormatInt (maxTime Int64.min_int64 (listLastEvent w <$> sts)) ]} /\
    ((exists st, st ∈ sts /\ Meta st !! TargetStatusMetaKeyLastEvent w = None) ->
       0 <= maxTime Int64.min_int64 (listLastEvent w <$> sts)) /\
    ((forall st, st ∈ sts -> Meta st !! TargetStatusMetaKeyLastEvent w = None) ->
       Meta status = {[ TargetStatusMetaKeyLastEvent w := "0"%string ]}).
Proof.
  intros Hs1 Hs2 Hlen Hsts. unfold ListStatus. rewrite Hs1, Hs2.
  destruct (listStatusLoop_ok w plugins (Split s1 ",") config (Split s2 ",") 0%nat
              (true, 0, Int64.min_int64) config [] sts) as (tr & Hrun & Hidx & Hcfgs);
    [done..|].
  rewrite Hrun.
  change (true, 0, Int64.min_int64) with (true, Int64.wrap 0, Int64.min_int64).
  rewrite foldl_listMerge. cbn [andb Z.add].
  eexists _, _, _. split; [reflexivity|]. cbn [Ready Count Meta].
  split_and!; try done.
  - by rewrite Hlen.
  - intros (st & Hin & Hnone).
    rewrite <- (listLastEvent_missing w st Hnone).
    apply maxTime_elem. apply list_elem_of_fmap. by exists st.
  - intros Hnone.
    pose proof (Split_length s2 ",") as Hl.
    destruct sts as [|st sts]; [simpl in Hlen; lia|].
    assert (maxTime Int64.min_int64 (listLastEvent w <$> st :: sts) = 0) as ->; [|done].
    apply Z.le_antisymm.
    + apply maxTime_le; [done|]. apply Forall_fmap, Forall_forall.
      intros st' Hin. simpl. by rewrite (listLastEvent_missing w st' (Hnone st' Hin)).
    + rewrite <- (listLastEvent_missing w st (Hnone st ltac:(left))) at 1.
      apply maxTime_elem. apply list_elem_of_fmap. exists st. split; [done|left].
Qed.

Lemma ListStatus_aggregates_witness :
  exists tr config' status,
    ListStatus demoWorld [okPlugin; datedPlugin; okPlugin] demoConfig
      = (tr, config', inl status) /\
    Ready status = false /\ Count status = 7 /\
    Meta status = {[ "nomad_autoscaler.last_event"%string := "0"%string ]}.
Proof.
  set (ok := {| Ready := true; Count := 2; Meta := ∅ |}).
  set (dated := {| Ready := false; Count := 3;
                   Meta := {[ "nomad_autoscaler.last_event"%string := "-5"%string ]} |}).
  destruct (ListStatus_aggregates demoWorld [okPlugin; datedPlugin; okPlugin] demoConfig
              "rg,rg,rg" "A,B,C" [ok; dated; ok])
    as (tr & config' & status & Hrun & _ & _ & Hready & Hcount & Hmeta & _).
  - reflexivity.
  - reflexivity.
  - reflexivity.
  - intros [|[|[|j]]] v st Hv Hst; try discriminate;
      injection Hv as <-; injection Hst as <-;
      exists "rg"%string; eexists; split_and!; reflexivity.
  - exists tr, config', status. split_and!; [done | exact Hready | exact Hcount | exact Hmeta].
Defined.

(** * Configuration of the plugin *)

Lemma argsOrEnv_present getenv args key env value :
  args !! key = Some value -> argsOrEnv getenv args key env = value.
Proof. unfold argsOrEnv. by intros ->. Qed.

(** X19. [init] decides on the three settings as [argsOrEnv] resolves
    them, a key of the configuration winning over the environment even
    with an empty value. If all three are non-empty it asks for client
    credentials, with the arguments in the order client, secret, tenant.
    If one of the three keys is in the configuration with an empty value
    it asks for the environment authorizer, whatever the environment
    holds. In both cases a failure is returned under the prefix of the
    mode, and on success both clients carry the same authorizer and the
    resolved subscription. *)
Theorem init_credentials {Authorizer : Type} getenv
    (authorize : Credentials -> Authorizer + error) config :
  let tenantID := argsOrEnv getenv config configKeyTenantID "ARM_TENANT_ID" in
  let clientID := argsOrEnv getenv config configKeyClientID "ARM_CLIENT_ID" in
  let secretKey := argsOrEnv getenv config configKeySecretKey "ARM_CLIENT_SECRET" in
  let subscriptionID :=
    argsOrEnv getenv config configKeySubscriptionID "ARM_SUBSCRIPTION_ID" in
  let result prefix credentials :=
    match authorize credentials with
    | inr err => inr (prefix +:+ err)%string
    | inl a =>
        inl {| vmss_subscriptionID := subscriptionID; vmss_Authorizer := a;
               vmssVMs_subscriptionID := subscriptionID; vmssVMs_Authorizer := a |}
    end in
  (tenantID <> ""%string -> clientID <> ""%string -> secretKey <> ""%string ->
     init getenv authorize config =
       result "azure-vmss (ClientCredentials): "%string
              (ClientCredentials clientID secretKey tenantID)) /\
  (config !! configKeyTenantID = Some ""%string \/
   config !! configKeyClientID = Some ""%string \/
   config !! configKeySecretKey = Some ""%string ->
     init getenv authorize config =
       result "azure-vmss (EnvironmentCredentials): "%string EnvironmentCredentials).
Proof.
  intros tenantID clientID secretKey subscriptionID result. unfold init.
  fold tenantID clientID secretKey subscriptionID. split.
  - intros Ht Hc Hs.
    destruct (String.eqb_spec tenantID ""); [done|].
    destruct (String.eqb_spec clientID ""); [done|].
    destruct (String.eqb_spec secretKey ""); [done|].
    cbn [negb andb]. unfold result.
    by destruct (authorize (ClientCredentials clientID secretKey tenantID)).
  - intros Hempty.
    assert (negb (String.eqb tenantID "") && negb (String.eqb clientID "")
            && negb (String.eqb secretKey "") = false) as ->.
    { destruct Hempty as [H | [H | H]].
      - subst tenantID. by rewrite (argsOrEnv_present _ _ _ _ _ H).
      - subst clientID. rewrite (argsOrEnv_present _ _ _ _ _ H).
        by rewrite andb_false_r.
      - subst secretKey. rewrite (argsOrEnv_present _ _ _ _ _ H).
        by rewrite andb_false_r. }
    unfold result. by destruct (authorize EnvironmentCredentials).
Qed.

Lemma init_credentials_witness :
  init demoEnv demoAuthorize {[ configKeyClientID := ""%string ]} =
    inr "azure-vmss (EnvironmentCredentials): no settings"%string /\
  init demoEnv demoAuthorize ∅ =
    inl {| vmss_subscriptionID := "sub"; vmss_Authorizer := ClientCredentials "c" "s" "t";
           vmssVMs_subscriptionID := "sub";
           vmssVMs_Authorizer := ClientCredentials "c" "s" "t" |}.
Proof.
  split.
  - destruct (init_credentials demoEnv demoAuthorize {[ configKeyClientID := ""%string ]})
      as [_ Henv].
    rewrite Henv; [reflexivity|]. right. left. reflexivity.
  - destruct (init_credentials demoEnv demoAuthorize ∅) as [Hclient _].
    rewrite Hclient; [reflexivity | vm_compute; discriminate..].
Defined.

(** X20. What a result of [SetConfig] tells. A success means that
    [init] built the controller and the cluster utilities were created;
    the node-id lookup is then [azureNodeIDMap], and both clients of the
    controller carry the same authorizer and the subscription
    [argsOrEnv] resolves. An error is either the failure of one of the
    two authorizer constructors under the prefixes "cannot set config, "
    and of its mode, or the failure of the cluster utilities as it
    is. *)
Theorem SetConfig_inversion {Authorizer ClusterScaleUtils : Type} getenv
    (authorize : Credentials -> Authorizer + error)
    (newClusterScaleUtils : gmap string string -> ClusterScaleUtils + error) config :
  (forall controller clusterUtils lookup,
     SetConfig getenv authorize newClusterScaleUtils config
       = inl (controller, clusterUtils, lookup) ->
     lookup = azureNodeIDMap /\
     newClusterScaleUtils config = inl clusterUtils /\
     init getenv authorize config = inl controller /\
     vmss_Authorizer controller = vmssVMs_Authorizer controller /\
     vmss_subscriptionID controller
       = argsOrEnv getenv config configKeySubscriptionID "ARM_SUBSCRIPTION_ID" /\
     vmssVMs_subscriptionID controller
       = argsOrEnv getenv config configKeySubscriptionID "ARM_SUBSCRIPTION_ID") /\
  (forall err,
     SetConfig getenv authorize newClusterScaleUtils config = inr err ->
     (exists clientID secretKey tenantID e,
        authorize (ClientCredentials clientID secretKey tenantID) = inr e /\
        err = ("cannot set config, azure-vmss (ClientCredentials): " +:+ e)%string) \/
     (exists e,
        authorize EnvironmentCredentials = inr e /\
        err = ("cannot set config, azure-vmss (EnvironmentCredentials): " +:+ e)%string) \/
     newClusterScaleUtils config = inr err).
Proof.
  unfold SetConfig, init. split.
  - intros controller clusterUtils lookup H.
    destruct (negb _ && negb _ && negb _);
      [destruct (authorize (ClientCredentials _ _ _))
      |destruct (authorize EnvironmentCredentials)];
      try discriminate;
      (destruct (newClusterScaleUtils config); [|discriminate]);
      by injection H as <- <- <-.
  - intros err H.
    destruct (negb _ && negb _ && negb _).
    + destruct (authorize (ClientCredentials _ _ _)) as [a|e] eqn:Hauth.
      * destruct (newClusterScaleUtils config); [discriminate|].
        right. right. by injection H as <-.
      * left. injection H as <-. by eexists _, _, _, e.
    + destruct (authorize EnvironmentCredentials) as [a|e] eqn:Hauth.
      * destruct (newClusterScaleUtils config); [discriminate|].
        right. right. by injection H as <-.
      * right. left. injection H as <-. by exists e.
Qed.

Lemma SetConfig_inversion_witness :
  exists e,
    demoAuthorize EnvironmentCredentials = inr e /\
    SetConfig demoEnv demoAuthorize (fun _ => inl tt) {[ configKeyTenantID := ""%string ]}
      = inr ("cannot set config, azure-vmss (EnvironmentCredentials): " +:+ e)%string.
Proof.
  destruct (SetConfig_inversion demoEnv demoAuthorize
              (fun _ : gmap string string => @inl unit error tt)
              {[ configKeyTenantID := ""%string ]}) as [_ Herr].
  destruct (Herr "cannot set config, azure-vmss (EnvironmentCredentials): no settings"%string
              eq_refl) as [(c & s & t & e & Hauth & _) | [(e & Hauth & He) | Hcsu]].
  - discriminate.
  - exists e. split; [done|]. by rewrite <- He.
  - discriminate.
Defined.

(** X21. [azureNodeIDMap] looks the Azure name up in the attributes
    first and in the meta tags second: its result is the lookup in the
    attributes completed by the meta tags, the error is returned exactly
    when neither has the key, and an attribute that is there with an
    empty value is returned, with no error, even if the meta tag has a
    name. *)
Theorem azureNodeIDMap_lookup n :
  azureNodeIDMap n =
    match (Attributes n ∪ NodeMeta n) !! azureNameAttribute with
    | Some val => (val, None)
    | None =>
        (""%string,
         Some ("attribute " +:+ doubleQuote +:+ "unique.platform.azure.name"
                 +:+ doubleQuote +:+ " not found")%string)
    end /\
  ((azureNodeIDMap n).2 = None <->
     azureNameAttribute ∈ dom (Attributes n) ∪ dom (NodeMeta n)) /\
  (Attributes n !! azureNameAttribute = Some ""%string ->
     azureNodeIDMap n = (""%string, None)).
Proof.
  unfold azureNodeIDMap. split_and!.
  - rewrite lookup_union.
    destruct (Attributes n !! azureNameAttribute) as [a|];
      destruct (NodeMeta n !! azureNameAttribute) as [m|]; done.
  - rewrite elem_of_union, !elem_of_dom.
    destruct (Attributes n !! azureNameAttribute) as [a|] eqn:Ha;
      destruct (NodeMeta n !! azureNameAttribute) as [m|] eqn:Hm; simpl; split;
      try done; eauto.
    intros [[? ?] | [? ?]]; discriminate.
  - by intros ->.
Qed.
